(** * SharedDirectory / SharedMap: a shallow embedding of the op reconciliation,
      the directory tree and the snapshot chunker.

    Sources embedded here:
    - [packages/runtime/map/src/directory.ts]: [SubDirectory] and
      [SharedDirectory];
    - the SharedMap facade ([SharedMap.snapshot], [SharedMap.loadCore]).

    JavaScript [Map]s are finite maps ([gmap]); none of the modelled operations
    observes their iteration order.  A method that can throw returns an
    [Outcome] together with the state reached at the point of the throw. *)

From Stdlib Require Import ZArith Ascii String DecimalString DecimalNat.
From stdpp Require Import gmap strings list fin_maps.

Set Warnings "-register-all".
Local Open Scope Z_scope.

(* ===================================================================== *)
(** * Outcomes and the state-and-exception monad                          *)
(* ===================================================================== *)

Inductive Error :=
| InvalidArgument   (* new Error("SubDirectory names may not contain /") *)
| TypeError         (* property access or call on undefined / null *)
| UnknownValueType. (* thrown by the value-type registry *)

Inductive Outcome (A : Type) :=
| Returned (a : A)
| Thrown (e : Error).
Arguments Returned {A} a.
Arguments Thrown {A} e.

(** A method running on a state [S]: it yields a result or throws, and in both
    cases leaves a state behind (mutations made before a throw persist). *)
Definition M (S A : Type) : Type := S -> Outcome A * S.

Definition ret {S A} (a : A) : M S A := fun s => (Returned a, s).
Definition throw {S A} (e : Error) : M S A := fun s => (Thrown e, s).
Definition bind {S A B} (m : M S A) (k : A -> M S B) : M S B :=
  fun s => match m s with
           | (Returned a, s') => k a s'
           | (Thrown e, s') => (Thrown e, s')
           end.
Definition gets {S A} (f : S -> A) : M S A := fun s => (Returned (f s), s).
Definition modify {S} (f : S -> S) : M S unit := fun s => (Returned tt, f s).

Notation "'let*' x ':=' m 'in' k" := (bind m (fun x => k))
  (at level 10, x name, m at level 100, k at level 200).
Notation "'do' m 'then' k" := (bind m (fun _ => k))
  (at level 10, m at level 100, k at level 200).

(* ===================================================================== *)
(** * Node's [path.posix], as far as the directory uses it                *)
(* ===================================================================== *)

Module Posix.

Definition sep : string := "/".

Definition isSep (c : ascii) : bool := Ascii.eqb c "/".

(** [s.indexOf("/") !== -1] *)
Fixpoint containsSep (s : string) : bool :=
  match s with
  | EmptyString => false
  | String c r => isSep c || containsSep r
  end.

(** [s.split("/")]: never empty, [split "" = [""]]. *)
Fixpoint split (s : string) : list string :=
  match s with
  | EmptyString => [EmptyString]
  | String c r =>
      if isSep c then EmptyString :: split r
      else match split r with
           | h :: t => String c h :: t
           | [] => [String c EmptyString]
           end
  end.

(** [segs.join("/")] *)
Fixpoint joinSep (segs : list string) : string :=
  match segs with
  | [] => EmptyString
  | [x] => x
  | x :: r => x +:+ sep +:+ joinSep r
  end.

(** [s.substr(1)] *)
Definition substr1 (s : string) : string :=
  match s with
  | EmptyString => EmptyString
  | String _ r => r
  end.

Definition isAbsolute (p : string) : bool :=
  match p with
  | EmptyString => false
  | String c _ => isSep c
  end.

Fixpoint endsWithSep (p : string) : bool :=
  match p with
  | EmptyString => false
  | String c EmptyString => isSep c
  | String _ r => endsWithSep r
  end.

(** The segment machine of [normalizeString]: [stack] holds the segments
    kept so far, innermost first.  Empty segments and ["."] are skipped,
    [".."] drops the last kept segment; above the root it is dropped
    itself unless [allowAboveRoot]. *)
Fixpoint normalizeSegments (allowAboveRoot : bool)
         (stack segs : list string) : list string :=
  match segs with
  | [] => rev stack
  | seg :: rest =>
      if String.eqb seg "" || String.eqb seg "." then
        normalizeSegments allowAboveRoot stack rest
      else if String.eqb seg ".." then
        match stack with
        | top :: below =>
            if String.eqb top ".." then
              normalizeSegments allowAboveRoot (seg :: stack) rest
            else normalizeSegments allowAboveRoot below rest
        | [] =>
            if allowAboveRoot then
              normalizeSegments allowAboveRoot [seg] rest
            else normalizeSegments allowAboveRoot [] rest
        end
      else normalizeSegments allowAboveRoot (seg :: stack) rest
  end.

Definition normalizeString (path : string) (allowAboveRoot : bool) : string :=
  joinSep (normalizeSegments allowAboveRoot [] (split path)).

(** One turn of the right-to-left loop of [posix.resolve]. *)
Definition resolveStep (acc : string * bool) (path : string) : string * bool :=
  let '(resolvedPath, resolvedAbsolute) := acc in
  if resolvedAbsolute then acc
  else if String.eqb path "" then acc
  else (path +:+ sep +:+ resolvedPath, isAbsolute path).

(** [posix.resolve(from, to)]; [cwd] is [process.cwd()], consulted only when
    neither argument is absolute. *)
Definition resolve (cwd from to : string) : string :=
  let '(resolvedPath, resolvedAbsolute) :=
    fold_left resolveStep [to; from; cwd] (EmptyString, false) in
  let normalized := normalizeString resolvedPath (negb resolvedAbsolute) in
  if resolvedAbsolute then sep +:+ normalized
  else if String.eqb normalized "" then "."%string
  else normalized.

(** The segments [resolve] keeps: those of the path assembled by its loop,
    normalized. *)
Definition resolvedSegments (cwd from to : string) : list string :=
  normalizeSegments false []
    (split (fst (fold_left resolveStep [to; from; cwd] (EmptyString, false)))).

(** A segment of a resolved absolute path: a name that is neither empty nor
    ["."] nor [".."] and holds no separator. *)
Definition clean (seg : string) : Prop :=
  seg ≠ EmptyString ∧ seg ≠ "."%string ∧ seg ≠ ".."%string
  ∧ containsSep seg = false.

(** [posix.normalize(path)] *)
Definition normalize (path : string) : string :=
  if String.eqb path "" then "."%string
  else
    let abs := isAbsolute path in
    let trailing := endsWithSep path in
    let p := normalizeString path (negb abs) in
    let p := if String.eqb p "" && negb abs then "."%string else p in
    let p := if negb (String.eqb p "") && trailing then p +:+ sep else p in
    if abs then sep +:+ p else p.

(** [posix.join(a, b)] *)
Definition join (a b : string) : string :=
  let joined :=
    if String.eqb a "" then b
    else if String.eqb b "" then a
    else a +:+ sep +:+ b in
  if String.eqb joined "" then "."%string else normalize joined.

End Posix.

(* ===================================================================== *)
(** * directory.ts: data model                                            *)
(* ===================================================================== *)

Section DirectoryModel.

(** [Val] stands for JavaScript's [any]: live values, initialisation
    parameters and encoded payloads alike. *)
Context {Val : Type}.

(** [ILocalValue]: the in-memory counterpart of a serializable value. *)
Record ILocalValue := mkLocalValue { value : Val; type : string }.

Record ISerializableValue := mkSerializable { s_type : string; s_value : Val }.

(** [IDirectoryOperation], a union tagged by its [type] field; [OpOther] is
    a message content whose [type] is none of the six registered names. *)
Inductive IDirectoryOperation :=
| OpAct (key path opName : string) (params : Val)
| OpSet (key path : string) (v : ISerializableValue)
| OpDelete (key path : string)
| OpClear (path : string)
| OpCreateSubDirectory (path subdirName : string)
| OpDeleteSubDirectory (path subdirName : string)
| OpOther (ty : string).

Definition op_type (op : IDirectoryOperation) : string :=
  match op with
  | OpAct _ _ _ _ => "act"
  | OpSet _ _ _ => "set"
  | OpDelete _ _ => "delete"
  | OpClear _ => "clear"
  | OpCreateSubDirectory _ _ => "createSubDirectory"
  | OpDeleteSubDirectory _ _ => "deleteSubDirectory"
  | OpOther ty => ty
  end.

(** [MessageType.Operation] is ["op"]. *)
Definition MessageType_Operation : string := "op".

Record ISequencedDocumentMessage := mkMessage {
  clientSequenceNumber : Z;
  m_type : string;
  contents : IDirectoryOperation }.

(** What [this.directory.emit] is called with. *)
Inductive Event :=
| valueChanged (key : string) (path : option string)
               (previousValue : option Val) (local : bool)
| clearEvent (local : bool).

(** Modelled from the spec: the [SharedObject] base class of
    [SharedDirectory] (its [submitLocalMessage] and event emitter are not
    part of the sources).  "Every mutating op goes through a single submit
    function provided by the facade; it returns the assigned
    client-sequence-number (or -1 when not yet attached, in which case the op
    is queued ...)"; the client-sequence-number is a "per-replica monotonic
    identifier assigned at submit time".  [outbox] records every op handed
    over, with the number returned for it; [emitted] records the events in
    the order of emission. *)
Record SharedObject := mkSharedObject {
  attached : bool;
  lastAssigned : nat;
  outbox : list (IDirectoryOperation * Z);
  emitted : list Event }.

Definition submitLocalMessage (op : IDirectoryOperation)
  : SharedObject -> Z * SharedObject :=
  fun so =>
    if attached so then
      let c := S (lastAssigned so) in
      (Z.of_nat c,
       mkSharedObject true c (outbox so ++ [(op, Z.of_nat c)]) (emitted so))
    else
      (-1,
       mkSharedObject false (lastAssigned so) (outbox so ++ [(op, -1)])
                      (emitted so)).

Definition emit (e : Event) (so : SharedObject) : SharedObject :=
  mkSharedObject (attached so) (lastAssigned so) (outbox so) (emitted so ++ [e]).

(** A node of the directory tree.  [_storage] maps a key to the stored
    [ILocalValue]; [Some None] is a key bound to [undefined] (or [null]),
    which [Map.set] accepts like any other value.  -1 in
    [pendingClearClientSequenceNumber] means that no clear is pending. *)
Inductive SubDirectory := mkSubDirectory {
  absolutePath : string;
  _storage : gmap string (option ILocalValue);
  _subdirectories : gmap string SubDirectory;
  pendingKeys : gmap string Z;
  pendingSubDirectories : gmap string Z;
  pendingClearClientSequenceNumber : Z }.

(** [new SubDirectory(directory, runtime, absolutePath)] *)
Definition newSubDirectory (path : string) : SubDirectory :=
  mkSubDirectory path ∅ ∅ ∅ ∅ (-1).

Definition with_storage (st : gmap string (option ILocalValue))
           (d : SubDirectory) : SubDirectory :=
  mkSubDirectory (absolutePath d) st (_subdirectories d) (pendingKeys d)
                 (pendingSubDirectories d) (pendingClearClientSequenceNumber d).

Definition with_subdirectories (ch : gmap string SubDirectory)
           (d : SubDirectory) : SubDirectory :=
  mkSubDirectory (absolutePath d) (_storage d) ch (pendingKeys d)
                 (pendingSubDirectories d) (pendingClearClientSequenceNumber d).

Definition with_pendingKeys (pk : gmap string Z)
           (d : SubDirectory) : SubDirectory :=
  mkSubDirectory (absolutePath d) (_storage d) (_subdirectories d) pk
                 (pendingSubDirectories d) (pendingClearClientSequenceNumber d).

Definition with_pendingSubDirectories (ps : gmap string Z)
           (d : SubDirectory) : SubDirectory :=
  mkSubDirectory (absolutePath d) (_storage d) (_subdirectories d)
                 (pendingKeys d) ps (pendingClearClientSequenceNumber d).

Definition with_pendingClear (c : Z) (d : SubDirectory) : SubDirectory :=
  mkSubDirectory (absolutePath d) (_storage d) (_subdirectories d)
                 (pendingKeys d) (pendingSubDirectories d) c.

(** The state a [SubDirectory] method runs on: the node itself ([this]) and
    the [SharedDirectory] it refers back to ([this.directory]). *)
Record NodeState := mkNodeState { this : SubDirectory; directory : SharedObject }.

Definition onThis (f : SubDirectory -> SubDirectory) : M NodeState unit :=
  modify (fun s => mkNodeState (f (this s)) (directory s)).

Definition directory_emit (e : Event) : M NodeState unit :=
  modify (fun s => mkNodeState (this s) (emit e (directory s))).

(** [SharedDirectory.submitDirectoryMessage] *)
Definition submitDirectoryMessage (op : IDirectoryOperation) : M NodeState Z :=
  fun s =>
    let '(c, so) := submitLocalMessage op (directory s) in
    (Returned c, mkNodeState (this s) so).

(** Modelled from the spec: the value-type registry of [localValues.ts],
    which is not part of the sources ("LocalValueMaker / ValueTypeRegistry":
    [fromSerializable] "returns a local value", value types provide "a
    mapping from op-name to two-phase handlers").  [None] is a throw (or a
    rejected promise). *)
Record IValueOperation := mkValueOperation {
  prepare : Val -> Val -> bool -> option (option ILocalValue);
  process : Val -> Val -> option ILocalValue -> bool -> Val }.

Record LocalValueMaker := mkLocalValueMaker {
  fromInMemory : Val -> ILocalValue;
  makeValueType : string -> Val -> option ILocalValue;
  makeSerializable : ILocalValue -> ISerializableValue;
  fromSerializable : ISerializableValue -> option ILocalValue;
  getOpHandler : ILocalValue -> string -> option IValueOperation }.

End DirectoryModel.

Arguments ILocalValue : clear implicits.
Arguments ISerializableValue : clear implicits.
Arguments IDirectoryOperation : clear implicits.
Arguments ISequencedDocumentMessage : clear implicits.
Arguments Event : clear implicits.
Arguments SharedObject : clear implicits.
Arguments SubDirectory : clear implicits.
Arguments NodeState : clear implicits.
Arguments IValueOperation : clear implicits.
Arguments LocalValueMaker : clear implicits.

(* ===================================================================== *)
(** * directory.ts: class [SubDirectory]                                  *)
(* ===================================================================== *)

Module SubDir.
Section Methods.

Context {Val : Type} (maker : LocalValueMaker Val).

Abbreviation Node := (M (NodeState Val)).

Definition has (key : string) : Node bool :=
  gets (fun s => bool_decide (is_Some (_storage (this s) !! key))).

(** [get]: [undefined] for a missing key, else [this._storage.get(key).value],
    which throws when the key is bound to [undefined]. *)
Definition get (key : string) : Node (option Val) :=
  fun s =>
    match _storage (this s) !! key with
    | None => (Returned None, s)
    | Some (Some localValue) => (Returned (Some (value localValue)), s)
    | Some None => (Thrown TypeError, s)
    end.

Definition getSubDirectory (d : SubDirectory Val) (subdirName : string)
  : option (SubDirectory Val) :=
  _subdirectories d !! subdirName.

Definition hasSubDirectory (d : SubDirectory Val) (subdirName : string) : bool :=
  bool_decide (is_Some (_subdirectories d !! subdirName)).

(** [getLocalValue]: [this._storage.get(key)] *)
Definition getLocalValue (d : SubDirectory Val) (key : string)
  : option (ILocalValue Val) :=
  default None (_storage d !! key).

Definition setCore (key : string) (v : option (ILocalValue Val))
           (local : bool) : Node unit :=
  let* previousValue := get key in
  do onThis (fun d => with_storage (<[key := v]> (_storage d)) d) then
  let* path := gets (fun s => absolutePath (this s)) in
  directory_emit (valueChanged key (Some path) previousValue local).

Definition deleteCore (key : string) (local : bool) : Node bool :=
  let* previousValue := get key in
  let* successfullyRemoved := has key in
  do onThis (fun d => with_storage (delete key (_storage d)) d) then
  let* path := gets (fun s => absolutePath (this s)) in
  do (if successfullyRemoved : bool
      then directory_emit (valueChanged key (Some path) previousValue local)
      else ret tt) then
  ret successfullyRemoved.

Definition clearCore (local : bool) : Node unit :=
  do onThis (with_storage ∅) then
  directory_emit (clearEvent local).

Definition createSubDirectoryCore (subdirName : string) (local : bool)
  : Node unit :=
  onThis (fun d =>
    if hasSubDirectory d subdirName then d
    else with_subdirectories
           (<[subdirName :=
                newSubDirectory (Posix.join (absolutePath d) subdirName)]>
              (_subdirectories d)) d).

Definition deleteSubDirectoryCore (subdirName : string) (local : bool)
  : Node bool :=
  let* removed := gets (fun s => hasSubDirectory (this s) subdirName) in
  do onThis (fun d =>
       with_subdirectories (delete subdirName (_subdirectories d)) d) then
  ret removed.

(** [temp] receives [this._storage.get(key)] for every pending key, also
    when that is [undefined]; the storage is then refilled from [temp]. *)
Definition clearExceptPendingKeys (pending : gmap string Z) : Node unit :=
  onThis (fun d =>
    let temp : gmap string (option (ILocalValue Val)) :=
      map_imap (fun key _ => Some (default None (_storage d !! key))) pending in
    with_storage temp d).

(** The operation enters only through [op.key]. *)
Definition needProcessStorageOperations (key : string) (local : bool)
           (message : ISequencedDocumentMessage Val) : Node bool :=
  let* pendingClear := gets (fun s => pendingClearClientSequenceNumber (this s)) in
  if bool_decide (pendingClear ≠ -1) then ret false
  else
    let* pending := gets (fun s => pendingKeys (this s)) in
    if bool_decide (size pending ≠ 0%nat)
       && bool_decide (is_Some (pending !! key)) then
      do (if local then
            if bool_decide (pending !! key = Some (clientSequenceNumber message))
            then onThis (fun d => with_pendingKeys (delete key (pendingKeys d)) d)
            else ret tt
          else ret tt) then
      ret false
    else ret (negb local).

(** The operation enters only through [op.subdirName]. *)
Definition needProcessSubDirectoryOperations (subdirName : string)
           (local : bool) (message : ISequencedDocumentMessage Val) : Node bool :=
  let* pending := gets (fun s => pendingSubDirectories (this s)) in
  if bool_decide (is_Some (pending !! subdirName)) then
    do (if local then
          if bool_decide (pending !! subdirName
                          = Some (clientSequenceNumber message))
          then onThis (fun d =>
                 with_pendingSubDirectories
                   (delete subdirName (pendingSubDirectories d)) d)
          else ret tt
        else ret tt) then
    ret false
  else ret (negb local).

Definition processClearMessage (local : bool)
           (message : ISequencedDocumentMessage Val) : Node unit :=
  if local then
    let* pendingClear := gets (fun s => pendingClearClientSequenceNumber (this s)) in
    if bool_decide (pendingClear = clientSequenceNumber message)
    then onThis (with_pendingClear (-1))
    else ret tt
  else
    let* pending := gets (fun s => pendingKeys (this s)) in
    do clearExceptPendingKeys pending then
    directory_emit (clearEvent local).

Definition processDeleteMessage (key : string) (local : bool)
           (message : ISequencedDocumentMessage Val) : Node unit :=
  let* need := needProcessStorageOperations key local message in
  if negb need then ret tt
  else let* _ := deleteCore key local in ret tt.

Definition processSetMessage (key : string) (context : option (ILocalValue Val))
           (local : bool) (message : ISequencedDocumentMessage Val) : Node unit :=
  let* need := needProcessStorageOperations key local message in
  if negb need then ret tt
  else setCore key context local.

Definition processCreateSubDirectoryMessage (subdirName : string)
           (local : bool) (message : ISequencedDocumentMessage Val) : Node unit :=
  let* need := needProcessSubDirectoryOperations subdirName local message in
  if negb need then ret tt
  else createSubDirectoryCore subdirName local.

Definition processDeleteSubDirectoryMessage (subdirName : string)
           (local : bool) (message : ISequencedDocumentMessage Val) : Node unit :=
  let* need := needProcessSubDirectoryOperations subdirName local message in
  if negb need then ret tt
  else let* _ := deleteSubDirectoryCore subdirName local in ret tt.

Definition submitClearMessage (op : IDirectoryOperation Val) : Node unit :=
  let* c := submitDirectoryMessage op in
  if bool_decide (c ≠ -1) then onThis (with_pendingClear c) else ret tt.

(** [key] is [op.key]. *)
Definition submitKeyMessage (key : string) (op : IDirectoryOperation Val)
  : Node unit :=
  let* c := submitDirectoryMessage op in
  if bool_decide (c ≠ -1)
  then onThis (fun d => with_pendingKeys (<[key := c]> (pendingKeys d)) d)
  else ret tt.

(** [subdirName] is [op.subdirName]. *)
Definition submitSubDirectoryMessage (subdirName : string)
           (op : IDirectoryOperation Val) : Node unit :=
  let* c := submitDirectoryMessage op in
  if bool_decide (c ≠ -1)
  then onThis (fun d =>
         with_pendingSubDirectories
           (<[subdirName := c]> (pendingSubDirectories d)) d)
  else ret tt.

(** [set(key, value, type?)]; a value type is initialised from [value]
    through the registry, anything else is wrapped as it is. *)
Definition set (key : string) (v : Val) (ty : option string) : Node unit :=
  let isValueType :=
    match ty with
    | Some t => negb (String.eqb t "") && negb (String.eqb t "Plain")
                && negb (String.eqb t "Shared")
    | None => false
    end in
  let* made :=
    (if isValueType then
       match makeValueType maker (default EmptyString ty) v with
       | Some localValue =>
           ret (localValue, mkSerializable (default EmptyString ty) v)
       | None => throw UnknownValueType
       end
     else
       let localValue := fromInMemory maker v in
       ret (localValue, makeSerializable maker localValue)) in
  do setCore key (Some (fst made)) true then
  let* path := gets (fun s => absolutePath (this s)) in
  submitKeyMessage key (OpSet key path (snd made)).

Definition createSubDirectory (subdirName : string)
  : Node (option (SubDirectory Val)) :=
  if Posix.containsSep subdirName then throw InvalidArgument
  else
    do createSubDirectoryCore subdirName true then
    let* path := gets (fun s => absolutePath (this s)) in
    do submitSubDirectoryMessage subdirName
         (OpCreateSubDirectory path subdirName) then
    gets (fun s => _subdirectories (this s) !! subdirName).

Definition deleteSubDirectory (subdirName : string) : Node bool :=
  let* path := gets (fun s => absolutePath (this s)) in
  let* successfullyRemoved := deleteSubDirectoryCore subdirName true in
  do submitSubDirectoryMessage subdirName
       (OpDeleteSubDirectory path subdirName) then
  ret successfullyRemoved.

Definition delete_ (key : string) : Node bool :=
  let* path := gets (fun s => absolutePath (this s)) in
  let* successfullyRemoved := deleteCore key true in
  do submitKeyMessage key (OpDelete key path) then
  ret successfullyRemoved.

Definition clear : Node unit :=
  let* path := gets (fun s => absolutePath (this s)) in
  do clearCore true then
  submitClearMessage (OpClear path).

End Methods.
End SubDir.

(* ===================================================================== *)
(** * directory.ts: class [SharedDirectory]                               *)
(* ===================================================================== *)

(** The outcome of an awaited promise. *)
Inductive Promise (A : Type) :=
| Resolved (a : A)
| Rejected.
Arguments Resolved {A} a.
Arguments Rejected {A}.

Module SharedDir.
Section Router.

Context {Val : Type} (maker : LocalValueMaker Val).
(** [process.cwd()], which [posix.resolve] falls back to. *)
Context (cwd : string).

(** The root node and the inherited [SharedObject] part. *)
Record SharedDirectory := mkSharedDirectory {
  root : SubDirectory Val;
  base : SharedObject Val }.

(** [SharedDirectory.makeAbsolute] *)
Definition makeAbsolute (path : string) : string :=
  Posix.resolve cwd Posix.sep path.

(** [SubDirectory.makeAbsolute] *)
Definition SubDirectory_makeAbsolute (d : SubDirectory Val)
           (relativePath : string) : string :=
  Posix.resolve cwd (absolutePath d) relativePath.

(** The loop of [getWorkingDirectory] over the path components. *)
Fixpoint walk (currentSubDir : SubDirectory Val) (subdirs : list string)
  : option (SubDirectory Val) :=
  match subdirs with
  | [] => Some currentSubDir
  | subdir :: rest =>
      match SubDir.getSubDirectory currentSubDir subdir with
      | Some child => walk child rest
      | None => None
      end
  end.

(** [descends r subdirs target]: [target] is reached from [r] by taking the
    child named by each component in turn. *)
Inductive descends : SubDirectory Val -> list string -> SubDirectory Val -> Prop :=
| descends_here r : descends r [] r
| descends_child r subdir child rest target :
    _subdirectories r !! subdir = Some child ->
    descends child rest target ->
    descends r (subdir :: rest) target.

(** The components [getWorkingDirectory] walks for [path]. *)
Definition subdirsOf (path : string) : list string :=
  let absolutePath := makeAbsolute path in
  if String.eqb absolutePath Posix.sep then []
  else Posix.split (Posix.substr1 absolutePath).

Definition getWorkingDirectory (r : SubDirectory Val) (path : string)
  : option (SubDirectory Val) :=
  let absolutePath := makeAbsolute path in
  if String.eqb absolutePath Posix.sep then Some r
  else walk r (Posix.split (Posix.substr1 absolutePath)).

(** [SubDirectory.getWorkingDirectory], for the node [d] of the directory
    rooted at [r]. *)
Definition SubDirectory_getWorkingDirectory (r d : SubDirectory Val)
           (path : string) : option (SubDirectory Val) :=
  getWorkingDirectory r (SubDirectory_makeAbsolute d path).

(** Nodes are objects mutated in place: the node reached through [subdirs]
    is replaced by its new state. *)
Fixpoint replaceAt (subdirs : list string) (new cur : SubDirectory Val)
  : SubDirectory Val :=
  match subdirs with
  | [] => new
  | subdir :: rest =>
      match _subdirectories cur !! subdir with
      | Some child =>
          with_subdirectories
            (<[subdir := replaceAt rest new child]> (_subdirectories cur)) cur
      | None => cur
      end
  end.

(** [const subdir = this.getWorkingDirectory(op.path);
     if (subdir) { subdir.method(...) }] *)
Definition ifSubdir (path : string) (method : M (NodeState Val) unit)
  : M SharedDirectory unit :=
  fun sd =>
    match getWorkingDirectory (root sd) path with
    | None => (Returned tt, sd)
    | Some subdir =>
        let '(out, s) := method (mkNodeState subdir (base sd)) in
        (out, mkSharedDirectory (replaceAt (subdirsOf path) (this s) (root sd))
                                (directory s))
    end.

(** [this.messageHandlers.has(op.type)] after [setMessageHandlers]. *)
Definition messageHandlers_has (ty : string) : bool :=
  bool_decide (ty ∈ ["clear"; "delete"; "set"; "createSubDirectory";
                     "deleteSubDirectory"; "act"]%string).

(** [subdir ? subdir.getLocalValue(op.key) : undefined] *)
Definition actLocalValue (r : SubDirectory Val) (path key : string)
  : option (ILocalValue Val) :=
  match getWorkingDirectory r path with
  | Some subdir => SubDir.getLocalValue subdir key
  | None => None
  end.

(** The [process] handler registered for ["act"]: [localValue.getOpHandler]
    is called on whatever the lookup gave.  [handler.process] works on the
    live value in place, and [previousValue] is a reference to that same
    value: the event emitted afterwards carries the value as the handler
    left it. *)
Definition processAct (key path opName : string) (params : Val)
           (context : option (ILocalValue Val)) (local : bool)
  : M SharedDirectory unit :=
  fun sd =>
    match actLocalValue (root sd) path key with
    | None => (Thrown TypeError, sd)
    | Some localValue =>
        match getOpHandler maker localValue opName with
        | None => (Thrown TypeError, sd)
        | Some handler =>
            let previousValue := value localValue in
            let mutated :=
              mkLocalValue (process handler previousValue params context local)
                           (type localValue) in
            let r :=
              match getWorkingDirectory (root sd) path with
              | Some subdir =>
                  replaceAt (subdirsOf path)
                    (with_storage (<[key := Some mutated]> (_storage subdir))
                                  subdir)
                    (root sd)
              | None => root sd
              end in
            (Returned tt,
             mkSharedDirectory r
               (emit (valueChanged key None (Some (value mutated)) local)
                     (base sd)))
        end
    end.

Definition processCore (message : ISequencedDocumentMessage Val)
           (local : bool) (context : option (ILocalValue Val))
  : M SharedDirectory unit :=
  if String.eqb (m_type message) MessageType_Operation then
    let op := contents message in
    if messageHandlers_has (op_type op) then
      match op with
      | OpClear path =>
          ifSubdir path (SubDir.processClearMessage local message)
      | OpDelete key path =>
          ifSubdir path (SubDir.processDeleteMessage key local message)
      | OpSet key path _ =>
          ifSubdir path (SubDir.processSetMessage key context local message)
      | OpCreateSubDirectory path subdirName =>
          ifSubdir path
            (SubDir.processCreateSubDirectoryMessage subdirName local message)
      | OpDeleteSubDirectory path subdirName =>
          ifSubdir path
            (SubDir.processDeleteSubDirectoryMessage subdirName local message)
      | OpAct key path opName params =>
          processAct key path opName params context local
      | OpOther _ => ret tt
      end
    else ret tt
  else ret tt.

(** [prepareCore]: the promise it returns, once settled. *)
Definition prepareCore (message : ISequencedDocumentMessage Val)
           (local : bool) (sd : SharedDirectory)
  : Promise (option (ILocalValue Val)) :=
  if String.eqb (m_type message) MessageType_Operation then
    let op := contents message in
    if messageHandlers_has (op_type op) then
      match op with
      | OpClear _ | OpDelete _ _
      | OpCreateSubDirectory _ _ | OpDeleteSubDirectory _ _ => Resolved None
      | OpSet key path v =>
          if local then Resolved None
          else match fromSerializable maker v with
               | Some localValue => Resolved (Some localValue)
               | None => Rejected
               end
      | OpAct key path opName params =>
          match actLocalValue (root sd) path key with
          | None => Rejected
          | Some localValue =>
              match getOpHandler maker localValue opName with
              | None => Rejected
              | Some handler =>
                  match prepare handler (value localValue) params local with
                  | Some context => Resolved context
                  | None => Rejected
                  end
              end
          end
      | OpOther _ => Rejected
      end
    else Rejected
  else Rejected.

End Router.
End SharedDir.

Arguments SharedDir.SharedDirectory : clear implicits.

(* ===================================================================== *)
(** * The SharedMap facade: [snapshot] and [loadCore]                     *)
(* ===================================================================== *)

Module SharedMap.
Section Snapshot.

(** Parsed JSON, and [JSON.parse], which throws a [SyntaxError] ([None]) on
    text that is not JSON. *)
Context {Json : Type} (JSON_parse : string -> option Json).

(** [JSON.parse(JSON.stringify(value))] for a value that [JSON.parse] gave:
    it never throws, but it need not give the value back
    ([JSON.parse("1e999")] is [Infinity], which [JSON.stringify] writes as
    [null]). *)
Context (JSON_reparse : Json -> Json).

(** An entry of [kernel.getSerializedStorage()]: the value payload is JSON
    text, or [undefined]. *)
Record ISerializedValue := mkSerialized {
  ser_type : string;
  ser_value : option string }.

(** An entry of [IMapDataObjectSerializable]: the payload is parsed JSON. *)
Record ISerializableValue := mkSerializable {
  type : string;
  value : option Json }.

(** [IMapDataObjectSerializable], a plain object used as a map. *)
Abbreviation IMapDataObjectSerializable := (gmap string ISerializableValue).

(** The object a blob is written from.  [HeaderJson] is an object whose
    [blobs] field is an array ([IMapSerializationFormat]), [DataJson] any
    other data object. *)
Inductive BlobJson :=
| HeaderJson (blobs : list string) (content : IMapDataObjectSerializable)
| DataJson (content : IMapDataObjectSerializable).

(** [ITree.entries], each a path and a body. *)
Abbreviation ITree := (list (string * BlobJson)).

(** [addBlobToTree] of the protocol library: the text of the new entry is
    [JSON.stringify(content)], which writes the own properties of [content].
    The entry is kept as the object it is written from; [read] below gives
    what [JSON.parse] makes of its text. *)
Definition addBlobToTree (tree : ITree) (path : string) (body : BlobJson)
  : ITree :=
  tree ++ [(path, body)].

(** [object[key] = value] on a plain object, for a value that is an object:
    ["__proto__"] is the prototype setter, so this key gets no own property
    (the value becomes the prototype of [object]) and [JSON.stringify] does
    not write it.  An object literal with a computed key, [{ [key]: value }],
    makes an own property for every key. *)
Definition assign (key : string) (v : ISerializableValue)
           (object : IMapDataObjectSerializable) : IMapDataObjectSerializable :=
  if String.eqb key "__proto__" then object else <[ key := v ]> object.

Definition snapshotFileName : string := "header".
Definition MinValueSizeSeparateSnapshotBlob : nat := 8 * 1024.
Definition MaxSnapshotBlobSize : nat := 16 * 1024.

(** The template string [`blob${counter}`]. *)
Definition blobName (counter : nat) : string :=
  "blob" +:+ NilEmpty.string_of_uint (Nat.to_uint counter).

(** The local variables of [snapshot]. *)
Record Locals := mkLocals {
  currentSize : nat;
  counter : nat;
  headerBlob : IMapDataObjectSerializable;
  blobs : list string;
  tree : ITree }.

(** [value.value && value.value.length >= MinValueSizeSeparateSnapshotBlob] *)
Definition separateBlob (v : ISerializedValue) : bool :=
  match ser_value v with
  | Some text =>
      negb (String.eqb text "")
      && bool_decide (MinValueSizeSeparateSnapshotBlob ≤ String.length text)%nat
  | None => false
  end.

(** One turn of the loop over [Object.keys(data)]. *)
Definition snapshotStep (l : Locals) (entry : string * ISerializedValue)
  : option Locals :=
  let '(key, v) := entry in
  if separateBlob v then
    parsed ← JSON_parse (default EmptyString (ser_value v));
    let name := blobName (counter l) in
    Some (mkLocals (currentSize l) (S (counter l)) (headerBlob l)
            (blobs l ++ [name])
            (addBlobToTree (tree l) name
               (DataJson {[ key := mkSerializable (ser_type v) (Some parsed) ]})))
  else
    let size := (currentSize l + (String.length (ser_type v) + 21))%nat in
    let size :=
      match ser_value v with
      | Some text =>
          if String.eqb text "" then size else (size + String.length text)%nat
      | None => size
      end in
    let l' :=
      if bool_decide (MaxSnapshotBlobSize < size)%nat then
        let name := blobName (counter l) in
        mkLocals 0 (S (counter l)) ∅ (blobs l ++ [name])
                 (addBlobToTree (tree l) name (DataJson (headerBlob l)))
      else mkLocals size (counter l) (headerBlob l) (blobs l) (tree l) in
    parsed ← match ser_value v with
             | None => Some None
             | Some text => Some <$> JSON_parse text
             end;
    Some (mkLocals (currentSize l') (counter l')
            (assign key (mkSerializable (ser_type v) parsed) (headerBlob l'))
            (blobs l') (tree l')).

Fixpoint snapshotLoop (l : Locals) (data : list (string * ISerializedValue))
  : option Locals :=
  match data with
  | [] => Some l
  | entry :: rest => l' ← snapshotStep l entry; snapshotLoop l' rest
  end.

(** [snapshot]: [data] is [kernel.getSerializedStorage()] in the order of
    [Object.keys]. *)
Definition snapshot (data : list (string * ISerializedValue)) : option ITree :=
  l ← snapshotLoop (mkLocals 0 0 ∅ [] []) data;
  Some (addBlobToTree (tree l) snapshotFileName
          (HeaderJson (blobs l) (headerBlob l))).

(** What [JSON.parse] makes of the text written for a data object: each
    payload has gone through [JSON.stringify] and [JSON.parse]; a payload
    that is [undefined] is not written and is [undefined] again. *)
Definition reparsed (content : IMapDataObjectSerializable)
  : IMapDataObjectSerializable :=
  (fun v => mkSerializable (type v) (JSON_reparse <$> value v)) <$> content.

Definition parsedBody (body : BlobJson) : BlobJson :=
  match body with
  | HeaderJson names content => HeaderJson names (reparsed content)
  | DataJson content => DataJson (reparsed content)
  end.

(** [storage.read(path)] followed by [JSON.parse], over the blobs of a
    tree. *)
Fixpoint read (t : ITree) (path : string) : option BlobJson :=
  match t with
  | [] => None
  | (p, body) :: rest =>
      if String.eqb p path then Some (parsedBody body) else read rest path
  end.

(** The bodies of the blobs named in [names], as read back; a body that is
    itself header-shaped is not a data object and stays outside the model. *)
Fixpoint readAll (t : ITree) (names : list string)
  : option (list IMapDataObjectSerializable) :=
  match names with
  | [] => Some []
  | name :: rest =>
      match read t name with
      | Some (DataJson content) =>
          others ← readAll t rest; Some (content :: others)
      | _ => None
      end
  end.

(** [loadCore]: the arguments of the calls of
    [kernel.populateFromSerializable], in the order they are made.
    [completion] is the order in which the parallel reads of
    [Promise.all] complete. *)
Definition loadCore (completion : list string -> list string) (t : ITree)
  : option (list IMapDataObjectSerializable) :=
  match read t snapshotFileName with
  | Some (HeaderJson names content) =>
      others ← readAll t (completion names); Some (content :: others)
  | Some (DataJson content) => Some [content]
  | None => None
  end.

(** Modelled from the spec: [MapKernel.populateFromSerializable] of
    [mapKernel.ts], which is not part of the sources.  "populate from
    [content], then read each listed blob ... and populate from each": every
    entry of the data object is set in the kernel's map, a local value being
    identified with the serializable value it is made from. *)
Definition populateFromSerializable (json kernel : IMapDataObjectSerializable)
  : IMapDataObjectSerializable :=
  json ∪ kernel.

(** The kernel of a fresh map after [loadCore]. *)
Definition loaded (calls : list IMapDataObjectSerializable)
  : IMapDataObjectSerializable :=
  fold_left (fun kernel json => populateFromSerializable json kernel) calls ∅.

(** The entry a reload is expected to give for an entry of the kernel. *)
Definition parsedEntry (entry : string * ISerializedValue)
  : option (string * ISerializableValue) :=
  match ser_value (snd entry) with
  | None => Some (fst entry, mkSerializable (ser_type (snd entry)) None)
  | Some text =>
      parsed ← JSON_parse text;
      Some (fst entry, mkSerializable (ser_type (snd entry)) (Some parsed))
  end.

(** The size estimate of one entry: value-type length + 21 + value length. *)
Definition entryCost (v : ISerializedValue) : nat :=
  (String.length (ser_type v) + 21
   + match ser_value v with Some text => String.length text | None => 0 end)%nat.

End Snapshot.
End SharedMap.

(* ===================================================================== *)
(** * Concrete registries, states and messages                            *)
(* ===================================================================== *)

Module Examples.

(** A value type ["counter"] over [Z] with one operation, ["increment"]. *)
Definition increment : IValueOperation Z :=
  mkValueOperation (fun _ _ _ => Some None) (fun v params _ _ => v + params).

Definition registry : LocalValueMaker Z :=
  mkLocalValueMaker
    (fun v => mkLocalValue v "Plain")
    (fun ty v => if String.eqb ty "counter" then Some (mkLocalValue v "counter")
                 else None)
    (fun localValue => mkSerializable (type localValue) (value localValue))
    (fun sv => if String.eqb (s_type sv) "Plain" || String.eqb (s_type sv) "counter"
               then Some (mkLocalValue (s_value sv) (s_type sv)) else None)
    (fun localValue opName =>
       if String.eqb (type localValue) "counter" && String.eqb opName "increment"
       then Some increment else None).

(** The root node of an attached directory on which nothing happened yet. *)
Definition fresh : NodeState Z :=
  mkNodeState (newSubDirectory "/") (mkSharedObject true 0 [] []).

Definition message (c : Z) (op : IDirectoryOperation Z)
  : ISequencedDocumentMessage Z :=
  mkMessage c "op" op.

(** The state a method leaves behind. *)
Definition run {S A} (m : M S A) (s : S) : S := snd (m s).

Definition plain (v : Z) : ISerializableValue Z := mkSerializable "Plain" v.

(** [set("a", 1)] (client sequence number 1), then [clear()] (2). *)
Definition setThenClear : NodeState Z :=
  run SubDir.clear (run (SubDir.set registry "a" 1 None) fresh).

(** [set("a", 1)] twice (1 and 2). *)
Definition setTwice : NodeState Z :=
  run (SubDir.set registry "a" 1 None)
      (run (SubDir.set registry "a" 1 None) fresh).

(** [delete("k")] of a key that is not there (1). *)
Definition deletedMissing : NodeState Z :=
  run (SubDir.delete_ "k") fresh.

(** The tree [/], [/a], [/a/b]. *)
Definition nodeB : SubDirectory Z := newSubDirectory "/a/b".
Definition nodeA : SubDirectory Z :=
  with_subdirectories {[ "b"%string := nodeB ]} (newSubDirectory "/a").
Definition rootAB : SubDirectory Z :=
  with_subdirectories {[ "a"%string := nodeA ]} (newSubDirectory "/").

(** An attached directory with nothing in it. *)
Definition emptyDirectory : SharedDir.SharedDirectory Z :=
  SharedDir.mkSharedDirectory (newSubDirectory "/")
    (mkSharedObject true 0 [] []).

End Examples.

(* ===================================================================== *)
(** * Runs of a directory, and what they are checked against              *)
(* ===================================================================== *)

Section DirectoryRuns.

Context {Val : Type} (maker : LocalValueMaker Val) (cwd : string).

(** The mutating calls of the [IDirectory] interface. *)
Inductive LocalCall :=
| CallSet (key : string) (v : Val) (ty : option string)
| CallDelete (key : string)
| CallClear
| CallCreateSubDirectory (subdirName : string)
| CallDeleteSubDirectory (subdirName : string).

Definition runCall (call : LocalCall) : M (NodeState Val) unit :=
  match call with
  | CallSet key v ty => SubDir.set maker key v ty
  | CallDelete key => let* _ := SubDir.delete_ key in ret tt
  | CallClear => SubDir.clear
  | CallCreateSubDirectory subdirName =>
      let* _ := SubDir.createSubDirectory subdirName in ret tt
  | CallDeleteSubDirectory subdirName =>
      let* _ := SubDir.deleteSubDirectory subdirName in ret tt
  end.

(** One thing that happens to a directory: a local call on the node at
    [path], an inbound sequenced message, or a change of the connection. *)
Inductive step : SharedDir.SharedDirectory Val -> SharedDir.SharedDirectory Val -> Prop :=
| step_call sd path call :
    step sd (snd (SharedDir.ifSubdir cwd path (runCall call) sd))
| step_message sd message local context :
    step sd (snd (SharedDir.processCore maker cwd message local context sd))
| step_connection sd connected :
    step sd (SharedDir.mkSharedDirectory (SharedDir.root sd)
               (mkSharedObject connected (lastAssigned (SharedDir.base sd))
                  (outbox (SharedDir.base sd)) (emitted (SharedDir.base sd)))).

(** [new SharedDirectory(id, runtime)] *)
Definition created : SharedDir.SharedDirectory Val :=
  SharedDir.mkSharedDirectory (newSubDirectory Posix.sep)
    (mkSharedObject false 0 [] []).

Inductive reachable : SharedDir.SharedDirectory Val -> Prop :=
| reachable_created : reachable created
| reachable_step sd sd' : reachable sd -> step sd sd' -> reachable sd'.

(** No pending entry of the node is newer than the number [n]. *)
Definition bounded (n : nat) (d : SubDirectory Val) : Prop :=
  (∀ key c, pendingKeys d !! key = Some c → c ≤ Z.of_nat n)
  ∧ (∀ subdirName c, pendingSubDirectories d !! subdirName = Some c → c ≤ Z.of_nat n)
  ∧ pendingClearClientSequenceNumber d ≤ Z.of_nat n.

(** [P] holds of a node and of all the nodes below it. *)
Inductive ForallNodes (P : SubDirectory Val -> Prop) : SubDirectory Val -> Prop :=
| ForallNodes_intro d :
    P d ->
    (∀ subdirName child,
        _subdirectories d !! subdirName = Some child -> ForallNodes P child) ->
    ForallNodes P d.

(** No pending entry anywhere in the tree is newer than the last number the
    facade assigned. *)
Definition within (sd : SharedDir.SharedDirectory Val) : Prop :=
  ForallNodes (bounded (lastAssigned (SharedDir.base sd))) (SharedDir.root sd).

(** The pending entries of [s'] are entries of [s]: none is added, none
    changes its number, and the clear marker is kept or reset. *)
Definition shrinks (s s' : NodeState Val) : Prop :=
  pendingKeys (this s') ⊆ pendingKeys (this s)
  ∧ pendingSubDirectories (this s') ⊆ pendingSubDirectories (this s)
  ∧ (pendingClearClientSequenceNumber (this s')
     = pendingClearClientSequenceNumber (this s)
     ∨ pendingClearClientSequenceNumber (this s') = -1)
  ∧ lastAssigned (directory s') = lastAssigned (directory s).

(** From [s] to [s'] the counter of the facade does not go down, a pending
    entry is an old one or carries a number assigned in between, and a child
    is an old one or a new, empty node. *)
Definition evolves (s s' : NodeState Val) : Prop :=
  let n := lastAssigned (directory s) in
  let n' := lastAssigned (directory s') in
  (n ≤ n')%nat
  ∧ (∀ key c, pendingKeys (this s') !! key = Some c →
       pendingKeys (this s) !! key = Some c ∨ Z.of_nat n < c ≤ Z.of_nat n')
  ∧ (∀ subdirName c, pendingSubDirectories (this s') !! subdirName = Some c →
       pendingSubDirectories (this s) !! subdirName = Some c
       ∨ Z.of_nat n < c ≤ Z.of_nat n')
  ∧ (pendingClearClientSequenceNumber (this s')
     = pendingClearClientSequenceNumber (this s)
     ∨ pendingClearClientSequenceNumber (this s') = -1
     ∨ Z.of_nat n < pendingClearClientSequenceNumber (this s') ≤ Z.of_nat n')
  ∧ (∀ subdirName child, _subdirectories (this s') !! subdirName = Some child →
       _subdirectories (this s) !! subdirName = Some child
       ∨ ∃ path, child = newSubDirectory path).

(** [t] differs from [s] in the storage, the children and the emitted
    events at most. *)
Definition keeps (s t : NodeState Val) : Prop :=
  pendingKeys (this t) = pendingKeys (this s)
  ∧ pendingSubDirectories (this t) = pendingSubDirectories (this s)
  ∧ pendingClearClientSequenceNumber (this t)
    = pendingClearClientSequenceNumber (this s)
  ∧ attached (directory t) = attached (directory s)
  ∧ lastAssigned (directory t) = lastAssigned (directory s).

(** An update of the node that adds no pending entry, changes the number of
    none, does not set the clear marker, and adds no child but new, empty
    ones. *)
Definition benign (f : SubDirectory Val -> SubDirectory Val) : Prop :=
  ∀ d,
    pendingKeys (f d) ⊆ pendingKeys d
    ∧ pendingSubDirectories (f d) ⊆ pendingSubDirectories d
    ∧ (pendingClearClientSequenceNumber (f d) = pendingClearClientSequenceNumber d
       ∨ pendingClearClientSequenceNumber (f d) = -1)
    ∧ (∀ subdirName child, _subdirectories (f d) !! subdirName = Some child →
         _subdirectories d !! subdirName = Some child
         ∨ ∃ path, child = newSubDirectory path).

(** Whatever state a method starts from, the state it leaves is related to
    it by [R]. *)
Definition respects {S A} (R : S -> S -> Prop) (m : M S A) : Prop :=
  ∀ s, R s (snd (m s)).

End DirectoryRuns.

Arguments LocalCall : clear implicits.

(* ===================================================================== *)
(** * Snapshots: what a tree delivers, and a concrete kernel              *)
(* ===================================================================== *)

Section SnapshotRuns.

Context {Json : Type}.

(** The data object a blob body carries. *)
Definition bodyContent (body : SharedMap.BlobJson (Json := Json))
  : gmap string (SharedMap.ISerializableValue (Json := Json)) :=
  match body with
  | SharedMap.HeaderJson _ content => content
  | SharedMap.DataJson content => content
  end.

(** The blobs of a tree, by name, each with the keys it holds. *)
Definition outline (t : list (string * SharedMap.BlobJson (Json := Json)))
  : list (string * gset string) :=
  (fun e => (fst e, dom (bodyContent (snd e)))) <$> t.

Definition isData (body : SharedMap.BlobJson (Json := Json)) : Prop :=
  ∃ content, body = SharedMap.DataJson content.

(** The entries delivered by a sequence of data objects, one after the
    other. *)
Definition delivered
           (calls : list (gmap string (SharedMap.ISerializableValue (Json := Json))))
  : list (string * SharedMap.ISerializableValue (Json := Json)) :=
  concat (map_to_list <$> calls).

(** What the loop of [snapshot] keeps true: the blobs written so far are
    data objects named [blob0], [blob1], ... in this order, [blobs] lists
    their names, and the entries of the blobs and of the rolling header
    blob together are exactly the entries processed so far. *)
Definition gathers (l : SharedMap.Locals (Json := Json))
           (expected : list (string * SharedMap.ISerializableValue (Json := Json)))
  : Prop :=
  fmap fst (SharedMap.tree l) = fmap SharedMap.blobName (seq 0 (SharedMap.counter l))
  ∧ SharedMap.blobs l = fmap fst (SharedMap.tree l)
  ∧ Forall (fun e => isData (snd e)) (SharedMap.tree l)
  ∧ delivered (SharedMap.headerBlob l
               :: fmap (fun e => bodyContent (snd e)) (SharedMap.tree l))
    ≡ₚ expected.

End SnapshotRuns.

Module SnapshotExample.

(** JSON text is kept as it is. *)
Definition parse (text : string) : option string := Some text.

Definition reparse (value : string) : string := value.

Fixpoint ones (n : nat) : string :=
  match n with
  | O => EmptyString
  | S n' => String "1" (ones n')
  end.

(** A plain value whose payload is 7974 characters long: below the 8192 of a
    separate blob, and estimated at 5 + 21 + 7974 = 8000. *)
Definition entry : SharedMap.ISerializedValue :=
  SharedMap.mkSerialized "Plain" (Some (ones 7974)).

Definition kernel : list (string * SharedMap.ISerializedValue) :=
  [("k1", entry); ("k2", entry); ("k3", entry); ("k4", entry); ("k5", entry)]%string.

(** A kernel that holds the key ["__proto__"] beside the key ["a"]. *)
Definition withProto : list (string * SharedMap.ISerializedValue) :=
  [("__proto__", SharedMap.mkSerialized "Plain" (Some "1"));
   ("a", SharedMap.mkSerialized "Plain" (Some "2"))]%string.

(** A small kernel: one missing payload, one short payload. *)
Definition small : list (string * SharedMap.ISerializedValue) :=
  [("a", SharedMap.mkSerialized "Plain" (Some "1"));
   ("b", SharedMap.mkSerialized "Shared" None)]%string.

End SnapshotExample.


(* ===================================================================== *)
(** * Further vocabulary for states                                       *)
(* ===================================================================== *)

Section MoreDirectoryRuns.

Context {Val : Type}.

(** [s'] differs from [s] in the pending maps and the clear marker at most:
    storage, children, path, submitted ops and events are the same. *)
Definition sameContents (s s' : NodeState Val) : Prop :=
  _storage (this s') = _storage (this s)
  ∧ _subdirectories (this s') = _subdirectories (this s)
  ∧ absolutePath (this s') = absolutePath (this s)
  ∧ directory s' = directory s.

(** [r'] has a node wherever [r] has one, with the same storage and the same
    path: the two trees differ in pending entries at most. *)
Definition sameShape (r r' : SubDirectory Val) : Prop :=
  ∀ subdirs,
    option_Forall2
      (fun d d' => _storage d' = _storage d
                   ∧ absolutePath d' = absolutePath d)
      (SharedDir.walk r subdirs) (SharedDir.walk r' subdirs).

End MoreDirectoryRuns.

(* ===================================================================== *)
(** * Reconnection                                                        *)
(* ===================================================================== *)

Module Reconnect.
Section Resubmission.

Context {Val : Type} (cwd : string).

(** The [submit] handler registered for the type of [op].  For a type that
    is not registered [messageHandlers.get] gives [undefined], and the call
    of [submit] on it throws. *)
Definition submit (op : IDirectoryOperation Val)
  : M (SharedDir.SharedDirectory Val) unit :=
  match op with
  | OpClear path =>
      SharedDir.ifSubdir cwd path (SubDir.submitClearMessage op)
  | OpDelete key path | OpSet key path _ =>
      SharedDir.ifSubdir cwd path (SubDir.submitKeyMessage key op)
  | OpCreateSubDirectory path subdirName
  | OpDeleteSubDirectory path subdirName =>
      SharedDir.ifSubdir cwd path (SubDir.submitSubDirectoryMessage subdirName op)
  | OpAct _ _ _ _ =>
      fun sd =>
        let '(_, so) := submitLocalMessage op (SharedDir.base sd) in
        (Returned tt, SharedDir.mkSharedDirectory (SharedDir.root sd) so)
  | OpOther _ => throw TypeError
  end.

(** [onConnect(pending)]: the loop over the pending messages. *)
Fixpoint onConnect (pending : list (IDirectoryOperation Val))
  : M (SharedDir.SharedDirectory Val) unit :=
  match pending with
  | [] => ret tt
  | message :: rest => do submit message then onConnect rest
  end.

(** The node the [submit] handler of [op] looks up; the handler of ["act"]
    looks up none. *)
Definition addressee (r : SubDirectory Val) (op : IDirectoryOperation Val)
  : option (SubDirectory Val) :=
  match op with
  | OpClear path | OpDelete _ path | OpSet _ path _
  | OpCreateSubDirectory path _ | OpDeleteSubDirectory path _ =>
      SharedDir.getWorkingDirectory cwd r path
  | OpAct _ _ _ _ | OpOther _ => Some r
  end.

End Resubmission.
End Reconnect.

Section MoreSnapshotRuns.

Context {Json : Type}.

(** What the loop of [snapshot] keeps true whatever the keys are: the blobs
    written so far are data objects named [blob0], [blob1], ... in this
    order, and [blobs] lists their names. *)
Definition numbered (l : SharedMap.Locals (Json := Json)) : Prop :=
  fmap fst (SharedMap.tree l) = fmap SharedMap.blobName (seq 0 (SharedMap.counter l))
  ∧ SharedMap.blobs l = fmap fst (SharedMap.tree l)
  ∧ Forall (fun e => isData (snd e)) (SharedMap.tree l).

End MoreSnapshotRuns.

(* ===================================================================== *)
(** * Serialization of the directory                                      *)
(* ===================================================================== *)

Module Serialization.
Section Serialize.

Context {Val : Type} (maker : LocalValueMaker Val).

(** [IDirectoryDataObject]; an optional field that is absent is [None].
    [serialize] returns [JSON.stringify] of it; the model keeps the object
    itself. *)
Inductive IDirectoryDataObject := mkDataObject {
  storage : option (gmap string (ISerializableValue Val));
  subdirectories : option (gmap string IDirectoryDataObject) }.

(** The own properties of a plain object that was filled by
    [object[key] = value] for each entry of [entries], the values being
    objects: ["__proto__"] is the prototype setter, so this key gets no own
    property, and [JSON.stringify] does not write it. *)
Definition assigned {A} (entries : gmap string A) : gmap string A :=
  delete "__proto__"%string entries.

(** [SubDirectory.getSerializableStorage]: [undefined] for an empty storage;
    [localValue.makeSerializable] is called on every stored value, and
    throws on a key that is bound to [undefined]; the results are assigned
    to a plain object, key by key. *)
Definition getSerializableStorage (d : SubDirectory Val)
  : Outcome (option (gmap string (ISerializableValue Val))) :=
  if bool_decide (size (_storage d) = 0%nat) then Returned None
  else if bool_decide (map_Forall (fun _ localValue => is_Some localValue)
                                  (_storage d))
  then Returned
         (Some (assigned (omap (fmap (makeSerializable maker)) (_storage d))))
  else Thrown TypeError.

(** The worklist of [serialize] holds the root and every node found under a
    node of the worklist: [getSerializableStorage] is called on each node of
    the tree.  [throwsAt d]: it throws on [d] or on a node below. *)
Fixpoint throwsAt (d : SubDirectory Val) : bool :=
  match getSerializableStorage d with
  | Thrown _ => true
  | Returned _ => false
  end
  || map_fold (fun _ subdir below => throwsAt subdir || below) false
              (_subdirectories d).

(** The data object [serialize] fills in for a node: [storage] if
    [getSerializableStorage] gave one, and [subdirectories], if there is a
    child, with the data object of each child assigned under its name
    ([subdirectories[subdirName] = {}]). *)
Fixpoint dataObjectOf (d : SubDirectory Val) : IDirectoryDataObject :=
  mkDataObject
    (match getSerializableStorage d with
     | Returned subDirStorage => subDirStorage
     | Thrown _ => None
     end)
    (if bool_decide (size (_subdirectories d) = 0%nat) then None
     else Some (assigned (dataObjectOf <$> _subdirectories d))).

(** [serialize] *)
Definition serialize (sd : SharedDir.SharedDirectory Val)
  : Outcome IDirectoryDataObject :=
  if throwsAt (SharedDir.root sd) then Thrown TypeError
  else Returned (dataObjectOf (SharedDir.root sd)).

(** The data object found by following [subdirectories] along [subdirs]. *)
Fixpoint descend (data : IDirectoryDataObject) (subdirs : list string)
  : option IDirectoryDataObject :=
  match subdirs with
  | [] => Some data
  | subdir :: rest =>
      match subdirectories data ≫= fun children => children !! subdir with
      | Some child => descend child rest
      | None => None
      end
  end.

End Serialize.
End Serialization.

(* ===================================================================== *)
(** * Further concrete states                                             *)
(* ===================================================================== *)

Module MoreExamples.
Import Examples SnapshotExample.

(** The root node of a directory that is not attached. *)
Definition detached : NodeState Z :=
  mkNodeState (newSubDirectory "/") (mkSharedObject false 0 [] []).

(** The tree [/], [/a], [/a/b] in an attached directory. *)
Definition directoryAB : SharedDir.SharedDirectory Z :=
  SharedDir.mkSharedDirectory rootAB (mkSharedObject true 0 [] []).

(** The directory after [delete("k")] of a key that is not there. *)
Definition directoryDeletedMissing : SharedDir.SharedDirectory Z :=
  SharedDir.mkSharedDirectory (this deletedMissing) (directory deletedMissing).

(** The same directory after a remote clear. *)
Definition directoryClearedRemotely : SharedDir.SharedDirectory Z :=
  run (SharedDir.processCore registry "/" (message 9 (OpClear "/")) false None)
      directoryDeletedMissing.

(** A plain value whose payload is 8192 characters long. *)
Definition largeEntry : SharedMap.ISerializedValue :=
  SharedMap.mkSerialized "Plain" (Some (ones 8192)).

(** A kernel with this value and a short one. *)
Definition large : list (string * SharedMap.ISerializedValue) :=
  [("big", largeEntry);
   ("a", SharedMap.mkSerialized "Plain" (Some "1"))]%string.

(** The tree [/], [/a], [/a/b] after [set("x", 1)] and
    [set("__proto__", 2)] on the root. *)
Definition directoryWithProto : SharedDir.SharedDirectory Z :=
  run (SharedDir.ifSubdir "/" "/"
         (do SubDir.set registry "x" 1 None
          then SubDir.set registry "__proto__" 2 None))
      directoryAB.

(** Ops waiting for resubmission: the node of the second one is gone. *)
Definition pendingOps : list (IDirectoryOperation Z) :=
  [OpSet "x" "/a" (plain 1); OpDelete "y" "/gone"; OpClear "/a/b"]%string.

End MoreExamples.


(* ===================================================================== *)
(** * Reconciliation of inbound messages on one node                      *)
(* ===================================================================== *)

Section NodeFacts.

Context {Val : Type} (maker : LocalValueMaker Val).
Implicit Types (s t : NodeState Val) (d : SubDirectory Val)
         (message : ISequencedDocumentMessage Val).

Lemma pending_has (pending : gmap string Z) key :
  bool_decide (size pending ≠ 0%nat) && bool_decide (is_Some (pending !! key))
  = bool_decide (is_Some (pending !! key)).
Proof.
  destruct (pending !! key) as [c|] eqn:E.
  - rewrite (bool_decide_eq_true_2 (is_Some (Some c))) by eauto.
    rewrite andb_true_r. apply bool_decide_eq_true_2.
    intros Hs. apply map_size_empty_inv in Hs. subst. by rewrite lookup_empty in E.
  - rewrite (bool_decide_eq_false_2 (is_Some None)); [apply andb_false_r|].
    by intros [? ?].
Qed.

Lemma needProcessStorageOperations_pending_clear key local message s :
  pendingClearClientSequenceNumber (this s) ≠ -1 →
  SubDir.needProcessStorageOperations key local message s = (Returned false, s).
Proof.
  intros Hc. unfold SubDir.needProcessStorageOperations, bind, gets. simpl.
  rewrite bool_decide_eq_true_2 by done. reflexivity.
Qed.

Lemma needProcessStorageOperations_pending_key key local message s :
  pendingClearClientSequenceNumber (this s) = -1 →
  is_Some (pendingKeys (this s) !! key) →
  SubDir.needProcessStorageOperations key local message s
  = (Returned false,
     if local && bool_decide (pendingKeys (this s) !! key
                              = Some (clientSequenceNumber message))
     then mkNodeState (with_pendingKeys (delete key (pendingKeys (this s))) (this s))
                      (directory s)
     else s).
Proof.
  intros Hc Hk. unfold SubDir.needProcessStorageOperations, bind, gets. simpl.
  rewrite Hc. rewrite bool_decide_eq_false_2 by (intros H; by apply H).
  rewrite pending_has. rewrite bool_decide_eq_true_2 by done.
  destruct s as [d so]. simpl in *.
  destruct local; simpl; [|reflexivity].
  case_bool_decide; reflexivity.
Qed.

Lemma needProcessStorageOperations_free key local message s :
  pendingClearClientSequenceNumber (this s) = -1 →
  pendingKeys (this s) !! key = None →
  SubDir.needProcessStorageOperations key local message s
  = (Returned (negb local), s).
Proof.
  intros Hc Hk. unfold SubDir.needProcessStorageOperations, bind, gets. simpl.
  rewrite Hc. rewrite bool_decide_eq_false_2 by (intros H; by apply H).
  rewrite pending_has, Hk. rewrite bool_decide_eq_false_2; [reflexivity|].
  by intros [? ?].
Qed.

(** A key op that [needProcessStorageOperations] turns down leaves the node
    as that function left it. *)
Lemma processSetMessage_skipped key context local message s s' :
  SubDir.needProcessStorageOperations key local message s = (Returned false, s') →
  SubDir.processSetMessage key context local message s = (Returned tt, s').
Proof. intros H. unfold SubDir.processSetMessage, bind. by rewrite H. Qed.

Lemma processDeleteMessage_skipped key local message s s' :
  SubDir.needProcessStorageOperations key local message s = (Returned false, s') →
  SubDir.processDeleteMessage key local message s = (Returned tt, s').
Proof. intros H. unfold SubDir.processDeleteMessage, bind. by rewrite H. Qed.

Lemma get_bound key s :
  _storage (this s) !! key ≠ Some None →
  SubDir.get key s
  = (Returned (value <$> default None (_storage (this s) !! key)), s).
Proof.
  intros H. unfold SubDir.get.
  destruct (_storage (this s) !! key) as [[lv|]|]; done.
Qed.

(** A remote set of a key that nothing shadows. *)
Lemma processSetMessage_applied key context message s :
  pendingClearClientSequenceNumber (this s) = -1 →
  pendingKeys (this s) !! key = None →
  _storage (this s) !! key ≠ Some None →
  SubDir.processSetMessage key context false message s
  = (Returned tt,
     mkNodeState
       (with_storage (<[key := context]> (_storage (this s))) (this s))
       (emit (valueChanged key (Some (absolutePath (this s)))
                (value <$> default None (_storage (this s) !! key)) false)
             (directory s))).
Proof.
  intros Hc Hk Hu. unfold SubDir.processSetMessage, bind.
  rewrite needProcessStorageOperations_free by done. simpl.
  unfold SubDir.setCore, bind. rewrite get_bound by done. reflexivity.
Qed.

(** A remote delete of a key that nothing shadows. *)
Lemma processDeleteMessage_applied key message s :
  pendingClearClientSequenceNumber (this s) = -1 →
  pendingKeys (this s) !! key = None →
  _storage (this s) !! key ≠ Some None →
  SubDir.processDeleteMessage key false message s
  = (Returned tt,
     mkNodeState
       (with_storage (delete key (_storage (this s))) (this s))
       (if bool_decide (is_Some (_storage (this s) !! key))
        then emit (valueChanged key (Some (absolutePath (this s)))
                     (value <$> default None (_storage (this s) !! key)) false)
                  (directory s)
        else directory s)).
Proof.
  intros Hc Hk Hu. unfold SubDir.processDeleteMessage, bind.
  rewrite needProcessStorageOperations_free by done. simpl.
  unfold SubDir.deleteCore, bind. rewrite get_bound by done. simpl.
  destruct s as [d so]; simpl.
  case_bool_decide; reflexivity.
Qed.

(** What a remote clear leaves in the storage. *)
Lemma processClearMessage_remote message s :
  SubDir.processClearMessage false message s
  = (Returned tt,
     mkNodeState
       (with_storage
          (map_imap (fun key _ => Some (default None (_storage (this s) !! key)))
                    (pendingKeys (this s)))
          (this s))
       (emit (clearEvent false) (directory s))).
Proof. reflexivity. Qed.

Lemma processClearMessage_remote_lookup message s key :
  _storage (this (snd (SubDir.processClearMessage false message s))) !! key
  = match pendingKeys (this s) !! key with
    | Some _ => Some (default None (_storage (this s) !! key))
    | None => None
    end.
Proof.
  rewrite processClearMessage_remote. simpl.
  rewrite map_lookup_imap. by destruct (pendingKeys (this s) !! key).
Qed.

(** The parts of the remote clear that hold: an entry under a pending key
    keeps its value, an entry under any other key goes. *)
Lemma processClearMessage_remote_kept message s key c v :
  pendingKeys (this s) !! key = Some c →
  _storage (this s) !! key = Some v →
  _storage (this (snd (SubDir.processClearMessage false message s))) !! key
  = Some v.
Proof.
  intros Hk Hv. rewrite processClearMessage_remote_lookup, Hk, Hv. reflexivity.
Qed.

Lemma processClearMessage_remote_removed message s key :
  pendingKeys (this s) !! key = None →
  _storage (this (snd (SubDir.processClearMessage false message s))) !! key
  = None.
Proof. intros Hk. by rewrite processClearMessage_remote_lookup, Hk. Qed.

(** What the code does with an inbound set or delete whose key is in
    [pendingKeys]: the operation is not applied; both handlers return, the
    storage keeps the local value, and nothing is emitted or submitted.  The
    entry of the key is removed when the message is local and carries the
    client sequence number stored for the key, provided no local clear is
    pending. *)
Lemma pending_key_shadows_inbound_op key context local message s c :
  pendingKeys (this s) !! key = Some c →
  let afterSet := SubDir.processSetMessage key context local message s in
  let afterDelete := SubDir.processDeleteMessage key local message s in
  fst afterSet = Returned tt ∧ fst afterDelete = Returned tt
  ∧ snd afterDelete = snd afterSet
  ∧ _storage (this (snd afterSet)) = _storage (this s)
  ∧ directory (snd afterSet) = directory s
  ∧ (pendingClearClientSequenceNumber (this s) = -1 →
     local = true → clientSequenceNumber message = c →
     pendingKeys (this (snd afterSet)) = delete key (pendingKeys (this s))).
Proof.
  intros Hk.
  destruct (decide (pendingClearClientSequenceNumber (this s) = -1)) as [Hc|Hc].
  - pose proof (needProcessStorageOperations_pending_key key local message s Hc
                  (ltac:(eauto))) as Hn.
    cbv zeta.
    rewrite (processSetMessage_skipped _ context _ _ _ _ Hn),
            (processDeleteMessage_skipped _ _ _ _ _ Hn). simpl.
    repeat split.
    + by destruct (local && _).
    + by destruct (local && _).
    + intros _ -> <-. simpl. rewrite bool_decide_eq_true_2 by done. reflexivity.
  - pose proof (needProcessStorageOperations_pending_clear key local message s Hc)
      as Hn.
    cbv zeta.
    rewrite (processSetMessage_skipped _ context _ _ _ _ Hn),
            (processDeleteMessage_skipped _ _ _ _ _ Hn). simpl.
    repeat split. done.
Qed.

(** What the code does while a local clear is pending: every inbound set or
    delete, local or remote, returns and leaves the node and the directory
    exactly as they were.  The local clear message that carries the stored
    number resets the marker and changes nothing else; after it, a remote
    set or delete of a key that has no entry in [pendingKeys] (and is not
    bound to [undefined]) is applied to the storage. *)
Lemma pending_clear_masks_key_ops s c :
  pendingClearClientSequenceNumber (this s) = c → c ≠ -1 →
  (∀ key context local message,
      SubDir.processSetMessage key context local message s = (Returned tt, s)
      ∧ SubDir.processDeleteMessage key local message s = (Returned tt, s))
  ∧ (∀ echo, clientSequenceNumber echo = c →
       let s' := snd (SubDir.processClearMessage true echo s) in
       this s' = with_pendingClear (-1) (this s)
       ∧ directory s' = directory s
       ∧ ∀ key context message,
           pendingKeys (this s) !! key = None →
           _storage (this s) !! key ≠ Some None →
           _storage (this (snd (SubDir.processSetMessage key context false
                                  message s')))
           = <[key := context]> (_storage (this s))
           ∧ _storage (this (snd (SubDir.processDeleteMessage key false
                                    message s')))
             = delete key (_storage (this s))).
Proof.
  intros Hc Hne. split.
  - intros key context local message.
    assert (Hn := needProcessStorageOperations_pending_clear key local message s
                    (ltac:(by rewrite Hc))).
    split.
    + by apply processSetMessage_skipped.
    + by apply processDeleteMessage_skipped.
  - intros echo He.
    assert (Hs : SubDir.processClearMessage true echo s
                 = (Returned tt,
                    mkNodeState (with_pendingClear (-1) (this s)) (directory s))).
    { unfold SubDir.processClearMessage, bind, gets. simpl.
      rewrite bool_decide_eq_true_2 by congruence. reflexivity. }
    rewrite Hs. simpl. repeat split.
    + rewrite processSetMessage_applied by done. reflexivity.
    + rewrite processDeleteMessage_applied by done. reflexivity.
Qed.

(** C7.  A name that contains the path separator makes [createSubDirectory]
    throw the invalid-argument error at once: the node (children, storage,
    pending maps) and the directory (submitted ops, events) are as before. *)
Theorem createSubDirectory_rejects_separator s subdirName :
  In "/"%char (list_ascii_of_string subdirName) →
  SubDir.createSubDirectory subdirName s = (Thrown InvalidArgument, s).
Proof.
  intros Hin. unfold SubDir.createSubDirectory.
  assert (Posix.containsSep subdirName = true) as ->; [|reflexivity].
  induction subdirName as [|ch rest IH]; simpl in *; [done|].
  destruct Hin as [->|Hin]; [reflexivity|].
  rewrite IH by done. apply orb_true_r.
Qed.

(** [submitDirectoryMessage] touches the outbox and the counter only. *)
Lemma submitDirectoryMessage_attached op s :
  attached (directory s) = true →
  submitDirectoryMessage op s
  = (Returned (Z.of_nat (S (lastAssigned (directory s)))),
     mkNodeState (this s)
       (mkSharedObject true (S (lastAssigned (directory s)))
          (outbox (directory s)
           ++ [(op, Z.of_nat (S (lastAssigned (directory s))))])
          (emitted (directory s)))).
Proof.
  intros Ha. unfold submitDirectoryMessage, submitLocalMessage.
  rewrite Ha. reflexivity.
Qed.

Lemma submitDirectoryMessage_detached op s :
  attached (directory s) = false →
  submitDirectoryMessage op s
  = (Returned (-1),
     mkNodeState (this s)
       (mkSharedObject false (lastAssigned (directory s))
          (outbox (directory s) ++ [(op, -1)]) (emitted (directory s)))).
Proof.
  intros Ha. unfold submitDirectoryMessage, submitLocalMessage.
  rewrite Ha. reflexivity.
Qed.

Lemma assigned_not_minus_one (n : nat) : Z.of_nat (S n) ≠ -1.
Proof. lia. Qed.

Lemma submitSubDirectoryMessage_outbox subdirName op s :
  let s' := snd (SubDir.submitSubDirectoryMessage subdirName op s) in
  fst (SubDir.submitSubDirectoryMessage subdirName op s) = Returned tt
  ∧ (∃ c, outbox (directory s') = outbox (directory s) ++ [(op, c)])
  ∧ emitted (directory s') = emitted (directory s)
  ∧ _subdirectories (this s') = _subdirectories (this s)
  ∧ _storage (this s') = _storage (this s)
  ∧ absolutePath (this s') = absolutePath (this s).
Proof.
  unfold SubDir.submitSubDirectoryMessage, bind.
  destruct (attached (directory s)) eqn:Ha.
  - rewrite submitDirectoryMessage_attached by done.
    rewrite bool_decide_eq_true_2 by apply assigned_not_minus_one.
    cbn. eauto 10.
  - rewrite submitDirectoryMessage_detached by done.
    rewrite bool_decide_eq_false_2 by (intros H; by apply H).
    cbn. eauto 10.
Qed.

Lemma createSubDirectory_existing t subdirName child :
  Posix.containsSep subdirName = false →
  _subdirectories (this t) !! subdirName = Some child →
  let t' := snd (SubDir.submitSubDirectoryMessage subdirName
                   (OpCreateSubDirectory (absolutePath (this t)) subdirName) t) in
  SubDir.createSubDirectory subdirName t = (Returned (Some child), t').
Proof.
  intros Hv Ht. cbv zeta.
  pose proof (submitSubDirectoryMessage_outbox subdirName
                (OpCreateSubDirectory (absolutePath (this t)) subdirName) t)
    as (Hr & _ & _ & Hsub & _).
  unfold SubDir.createSubDirectory. rewrite Hv.
  unfold bind at 1. unfold SubDir.createSubDirectoryCore, onThis, modify.
  unfold SubDir.hasSubDirectory. rewrite bool_decide_eq_true_2 by eauto.
  destruct t as [d so]. cbn [this directory] in *.
  unfold bind at 1. unfold gets at 1. cbn [this directory].
  unfold bind.
  destruct (SubDir.submitSubDirectoryMessage subdirName _ _) as [out t'].
  cbn [fst snd] in *. subst out. unfold gets. by rewrite Hsub, Ht.
Qed.

(** C8.  For a valid name of an existing child, [createSubDirectory] returns
    that child as it is, leaves the children and the storage of the node
    untouched, and submits one [createSubDirectory] operation; a repeated
    call does the same again. *)
Theorem createSubDirectory_idempotent s subdirName child :
  Posix.containsSep subdirName = false →
  _subdirectories (this s) !! subdirName = Some child →
  let s' := snd (SubDir.createSubDirectory subdirName s) in
  let s'' := snd (SubDir.createSubDirectory subdirName s') in
  fst (SubDir.createSubDirectory subdirName s) = Returned (Some child)
  ∧ _subdirectories (this s') = _subdirectories (this s)
  ∧ _storage (this s') = _storage (this s)
  ∧ (∃ c, outbox (directory s')
          = outbox (directory s)
            ++ [(OpCreateSubDirectory (absolutePath (this s)) subdirName, c)])
  ∧ fst (SubDir.createSubDirectory subdirName s') = Returned (Some child)
  ∧ _subdirectories (this s'') = _subdirectories (this s)
  ∧ _storage (this s'') = _storage (this s)
  ∧ (∃ c, outbox (directory s'')
          = outbox (directory s')
            ++ [(OpCreateSubDirectory (absolutePath (this s)) subdirName, c)]).
Proof.
  intros Hv Hch. cbv zeta.
  rewrite (createSubDirectory_existing s subdirName child Hv Hch).
  cbn [fst snd].
  pose proof (submitSubDirectoryMessage_outbox subdirName
                (OpCreateSubDirectory (absolutePath (this s)) subdirName) s)
    as (_ & Ho & _ & Hsub & Hst & Hp).
  cbv zeta in *.
  set (s1 := snd (SubDir.submitSubDirectoryMessage subdirName _ s)) in *.
  assert (Hch1 : _subdirectories (this s1) !! subdirName = Some child)
    by (by rewrite Hsub).
  rewrite (createSubDirectory_existing s1 subdirName child Hv Hch1).
  cbn [fst snd].
  pose proof (submitSubDirectoryMessage_outbox subdirName
                (OpCreateSubDirectory (absolutePath (this s1)) subdirName) s1)
    as (_ & Ho1 & _ & Hsub1 & Hst1 & _).
  cbv zeta in *. rewrite Hsub1, Hst1, Hsub, Hst.
  rewrite Hp in Ho1. rewrite Hp. repeat split; assumption.
Qed.

End NodeFacts.

(* ===================================================================== *)
(** * The node-level results at concrete states                           *)
(* ===================================================================== *)

Section NodeInstances.
Import Examples.

(** C1, evaluated where it fails.  [set("a", 1)] (client sequence number 1),
    then [clear()] (2): ["a"] is in [pendingKeys] with the number 1 and the
    clear is pending.  The echo of the set arrives, a local message that
    carries the number stored for ["a"].  [needProcessStorageOperations]
    returns at its first guard, before it looks at [pendingKeys]: the message
    is processed without error and changes nothing, so the entry that the
    claim has removed at this point is still in [pendingKeys]. *)
Theorem echo_of_set_under_pending_clear_keeps_entry :
  let echoSet := message 1 (OpSet "a" "/" (plain 1)) in
  let after := SubDir.processSetMessage "a" None true echoSet setThenClear in
  pendingKeys (this setThenClear) !! "a"%string
  = Some (clientSequenceNumber echoSet)
  ∧ pendingClearClientSequenceNumber (this setThenClear) = 2
  ∧ fst after = Returned tt
  ∧ pendingKeys (this (snd after)) !! "a"%string = Some 1
  ∧ snd after = setThenClear.
Proof. vm_compute. repeat split. Qed.

(** C2, evaluated where it fails: scenario S2 of the specification.
    [set("a", 1)] (client sequence number 1), a remote [set("a", 2)], then
    [clear()] (2); the storage is empty.  The echoes of the two local
    operations arrive in order; the echo of the clear resets the marker, and
    no local operation waits for its echo any more.  The remote
    [set("a", 3)] that follows is not applied: the message is processed
    without error and changes nothing, the storage stays empty, where the
    claim has remote key operations apply again. *)
Theorem remote_set_after_both_echoes_is_ignored :
  let s0 := run (SubDir.set registry "a" 1 None) fresh in
  let s1 := run (SubDir.processSetMessage "a" (Some (mkLocalValue 2 "Plain"))
                   false (message 5 (OpSet "a" "/" (plain 2)))) s0 in
  let s2 := run SubDir.clear s1 in
  let s3 := run (SubDir.processSetMessage "a" None true
                   (message 1 (OpSet "a" "/" (plain 1)))) s2 in
  let s4 := run (SubDir.processClearMessage true (message 2 (OpClear "/"))) s3 in
  let remote :=
    SubDir.processSetMessage "a" (Some (mkLocalValue 3 "Plain")) false
      (message 6 (OpSet "a" "/" (plain 3))) s4 in
  _storage (this s2) = ∅
  ∧ pendingClearClientSequenceNumber (this s2) = 2
  ∧ pendingClearClientSequenceNumber (this s4) = -1
  ∧ fst remote = Returned tt
  ∧ _storage (this (snd remote)) !! "a"%string = None
  ∧ snd remote = s4.
Proof. vm_compute. repeat split. Qed.

Lemma createSubDirectory_rejects_separator_witness :
  In "/"%char (list_ascii_of_string "x/y")
  ∧ SubDir.createSubDirectory "x/y" fresh = (Thrown InvalidArgument, fresh).
Proof.
  assert (H : In "/"%char (list_ascii_of_string "x/y"))
    by (simpl; right; left; reflexivity).
  split; [exact H|].
  exact (createSubDirectory_rejects_separator fresh "x/y" H).
Defined.

Lemma createSubDirectory_idempotent_witness :
  let s := run (SubDir.createSubDirectory "a") fresh in
  Posix.containsSep "a" = false
  ∧ _subdirectories (this s) !! "a"%string = Some (newSubDirectory "/a")
  ∧ fst (SubDir.createSubDirectory "a" s) = Returned (Some (newSubDirectory "/a"))
  ∧ _subdirectories (this (snd (SubDir.createSubDirectory "a" s)))
    = _subdirectories (this s)
  ∧ ∃ c, outbox (directory (snd (SubDir.createSubDirectory "a" s)))
         = outbox (directory s) ++ [(OpCreateSubDirectory "/" "a", c)].
Proof.
  cbv zeta.
  assert (H1 : Posix.containsSep "a" = false) by reflexivity.
  assert (H2 : _subdirectories (this (run (SubDir.createSubDirectory "a") fresh))
               !! "a"%string = Some (newSubDirectory "/a"))
    by (vm_compute; reflexivity).
  pose proof (createSubDirectory_idempotent _ "a" _ H1 H2)
    as (G1 & G2 & _ & G4 & _).
  split; [exact H1|]. split; [exact H2|]. split; [exact G1|].
  split; [exact G2|]. exact G4.
Defined.

(** C10, evaluated where it fails.  [delete("k")] of a key that is not in
    the storage leaves ["k"] in [pendingKeys] (client sequence number 1) and
    no clear pending.  The remote clear that follows binds ["k"] to
    [undefined] in the storage: [has("k")] is now true and [get("k")]
    throws. *)
Theorem remote_clear_binds_pending_key_to_undefined :
  let remote := message 4 (OpClear "/") in
  let s := run (SubDir.processClearMessage false remote) deletedMissing in
  pendingClearClientSequenceNumber (this deletedMissing) = -1
  ∧ pendingKeys (this deletedMissing) !! "k"%string = Some 1
  ∧ _storage (this deletedMissing) !! "k"%string = None
  ∧ _storage (this s) !! "k"%string = Some None
  ∧ fst (SubDir.has "k" s) = Returned true
  ∧ fst (SubDir.get "k" s) = Thrown TypeError.
Proof. vm_compute. repeat split. Qed.

End NodeInstances.

(* ===================================================================== *)
(** * Paths: [posix.resolve] and [getWorkingDirectory]                    *)
(* ===================================================================== *)

Section PosixFacts.
Import Posix.

Lemma split_nonempty s : split s ≠ [].
Proof.
  destruct s as [|c r]; simpl; [done|].
  destruct (isSep c); [done|]. by destruct (split r).
Qed.

Lemma split_app_sep a b : split (a +:+ String "/" b) = split a ++ split b.
Proof.
  induction a as [|c a IH]; simpl; [reflexivity|].
  destruct (isSep c); [by rewrite IH|].
  rewrite IH. pose proof (split_nonempty a). by destruct (split a).
Qed.

Lemma split_without_sep s : containsSep s = false → split s = [s].
Proof.
  induction s as [|c r IH]; simpl; [reflexivity|].
  intros [Hc Hr]%orb_false_elim. rewrite Hc, IH by done. reflexivity.
Qed.

Lemma split_segments_without_sep s :
  Forall (fun seg => containsSep seg = false) (split s).
Proof.
  induction s as [|c r IH]; simpl; [by repeat constructor|].
  destruct (isSep c) eqn:Hc; [by constructor|].
  destruct (split r) as [|h t]; [by repeat constructor; simpl; rewrite Hc|].
  inversion IH; subst. constructor; [|done]. simpl. by rewrite Hc.
Qed.

Lemma split_joinSep segs :
  segs ≠ [] → Forall (fun seg => containsSep seg = false) segs →
  split (joinSep segs) = segs.
Proof.
  induction segs as [|x r IH]; [done|]. intros _ Hall.
  inversion Hall as [|? ? Hx Hr]; subst.
  destruct r as [|y r'].
  - simpl. by apply split_without_sep.
  - change (joinSep (x :: y :: r')) with (x +:+ String "/" (joinSep (y :: r'))).
    rewrite split_app_sep, split_without_sep by done.
    rewrite IH by done. reflexivity.
Qed.

Lemma clean_eqb seg :
  clean seg →
  String.eqb seg "" = false ∧ String.eqb seg "." = false
  ∧ String.eqb seg ".." = false.
Proof.
  intros (H1 & H2 & H3 & _). repeat split; by apply String.eqb_neq.
Qed.

(** Clean segments pass the segment machine as they are. *)
Lemma normalizeSegments_clean segs stack rest :
  Forall clean segs →
  normalizeSegments false stack (segs ++ rest)
  = normalizeSegments false (rev segs ++ stack) rest.
Proof.
  revert stack. induction segs as [|x r IH]; intros stack Hall; [reflexivity|].
  inversion Hall as [|? ? Hx Hr]; subst.
  destruct (clean_eqb x Hx) as (E1 & E2 & E3).
  simpl. rewrite E1, E2, E3. simpl. rewrite IH by done.
  by rewrite <- app_assoc.
Qed.

(** Under the root, the segment machine keeps clean segments only. *)
Lemma normalizeSegments_gives_clean segs stack :
  Forall clean stack →
  Forall (fun seg => containsSep seg = false) segs →
  Forall clean (normalizeSegments false stack segs).
Proof.
  revert stack. induction segs as [|x r IH]; intros stack Hst Hall; simpl.
  - rewrite Forall_forall in *. intros y Hy. apply Hst.
    apply list_elem_of_In. apply list_elem_of_In in Hy. by apply in_rev.
  - inversion Hall as [|? ? Hx Hr]; subst.
    destruct (String.eqb x "") eqn:E1; simpl; [by apply IH|].
    destruct (String.eqb x ".") eqn:E2; simpl; [by apply IH|].
    destruct (String.eqb x "..") eqn:E3.
    + destruct stack as [|top below]; [by apply IH|].
      inversion Hst as [|? ? Htop Hbelow]; subst.
      destruct (clean_eqb top Htop) as (_ & _ & ->). by apply IH.
    + apply IH; [|done]. constructor; [|done].
      apply String.eqb_neq in E1, E2, E3. done.
Qed.

(** With an absolute working directory, [resolve] answers the separator
    followed by the resolved segments. *)
Lemma resolve_absolute cwd from to :
  isAbsolute cwd = true →
  resolve cwd from to = sep +:+ joinSep (resolvedSegments cwd from to).
Proof.
  intros Hcwd. unfold resolve, resolvedSegments, normalizeString.
  assert (Hne : String.eqb cwd "" = false) by (by destruct cwd).
  assert (Hstep : ∀ acc, snd (resolveStep acc cwd) = true).
  { intros [path [|]]; unfold resolveStep; [reflexivity|]. by rewrite Hne. }
  assert (snd (fold_left resolveStep [to; from; cwd] (EmptyString, false)) = true)
    as Habs by apply Hstep.
  destruct (fold_left resolveStep [to; from; cwd] (EmptyString, false))
    as [resolvedPath resolvedAbsolute].
  simpl in Habs. subst. reflexivity.
Qed.

Lemma resolvedSegments_clean cwd from to :
  Forall clean (resolvedSegments cwd from to).
Proof.
  unfold resolvedSegments. apply normalizeSegments_gives_clean; [constructor|].
  apply split_segments_without_sep.
Qed.

Lemma joinSep_clean_nonempty x r : clean x → joinSep (x :: r) ≠ EmptyString.
Proof.
  intros (H1 & _). destruct x; [done|]. by destruct r.
Qed.

(** Resolving an already resolved absolute path against the root gives it
    back. *)
Lemma resolve_root_resolved cwd segs :
  Forall clean segs →
  resolve cwd sep (sep +:+ joinSep segs) = sep +:+ joinSep segs
  ∧ resolvedSegments cwd sep (sep +:+ joinSep segs) = segs.
Proof.
  intros Hall.
  assert (Hfold : fold_left resolveStep [sep +:+ joinSep segs; sep; cwd]
                    (EmptyString, false)
                  = (EmptyString +:+ String "/" (joinSep segs +:+ String "/" ""),
                     true)) by reflexivity.
  assert (Hseg : resolvedSegments cwd sep (sep +:+ joinSep segs) = segs).
  { unfold resolvedSegments. rewrite Hfold. cbn [fst].
    rewrite split_app_sep, split_app_sep.
    change (split "") with [EmptyString].
    destruct segs as [|x r].
    - reflexivity.
    - rewrite split_joinSep; [|done|].
      + change ([EmptyString] ++ (x :: r) ++ [EmptyString])
          with (EmptyString :: ((x :: r) ++ [EmptyString])).
        change (normalizeSegments false [] (EmptyString :: ((x :: r) ++ [EmptyString])))
          with (normalizeSegments false [] ((x :: r) ++ [EmptyString])).
        rewrite normalizeSegments_clean by done.
        change (normalizeSegments false (rev (x :: r) ++ []) [EmptyString])
          with (rev (rev (x :: r) ++ [])).
        by rewrite app_nil_r, rev_involutive.
      + eapply Forall_impl; [exact Hall|]. by intros ? (_ & _ & _ & ?). }
  split; [|exact Hseg].
  unfold resolve, normalizeString. unfold resolvedSegments in Hseg.
  rewrite Hfold in *. cbn [fst negb] in *. by rewrite Hseg.
Qed.

End PosixFacts.

Section PathFacts.

Context {Val : Type} (cwd : string).
Implicit Types (r d : SubDirectory Val).

Lemma getWorkingDirectory_resolved r segs :
  Forall Posix.clean segs →
  SharedDir.getWorkingDirectory cwd r (Posix.sep +:+ Posix.joinSep segs)
  = SharedDir.walk r segs.
Proof.
  intros Hall. unfold SharedDir.getWorkingDirectory, SharedDir.makeAbsolute.
  destruct (resolve_root_resolved cwd segs Hall) as [-> _].
  destruct segs as [|x rest]; [reflexivity|].
  inversion Hall as [|? ? Hx Hr]; subst.
  pose proof (joinSep_clean_nonempty x rest Hx) as Hne.
  assert (String.eqb (Posix.sep +:+ Posix.joinSep (x :: rest)) Posix.sep = false)
    as ->.
  { apply String.eqb_neq. intros Heq. apply Hne.
    change (String "/" (Posix.joinSep (x :: rest)) = String "/" EmptyString)
      in Heq.
    by injection Heq. }
  change (Posix.substr1 (Posix.sep +:+ Posix.joinSep (x :: rest)))
    with (Posix.joinSep (x :: rest)).
  rewrite split_joinSep; [reflexivity|done|].
  eapply Forall_impl; [exact Hall|]. by intros ? (_ & _ & _ & ?).
Qed.

Lemma walk_descends r segs target :
  SharedDir.walk r segs = Some target ↔ SharedDir.descends r segs target.
Proof.
  split.
  - revert r. induction segs as [|x rest IH]; simpl; intros r H.
    + inversion H. constructor.
    + unfold SubDir.getSubDirectory in H.
      destruct (_subdirectories r !! x) as [child|] eqn:E; [|done].
      econstructor; eauto.
  - induction 1 as [|? ? ? ? ? Hch _ IH]; simpl; [reflexivity|].
    unfold SubDir.getSubDirectory. by rewrite Hch.
Qed.

Lemma walk_app r pre post :
  SharedDir.walk r (pre ++ post)
  = SharedDir.walk r pre ≫= fun node => SharedDir.walk node post.
Proof.
  revert r. induction pre as [|x pre IH]; intros r; simpl; [reflexivity|].
  destruct (SubDir.getSubDirectory r x); simpl; [apply IH|reflexivity].
Qed.

Lemma walk_undefined r segs :
  SharedDir.walk r segs = None ↔
  ∃ pre subdir post node,
    segs = pre ++ subdir :: post
    ∧ SharedDir.walk r pre = Some node
    ∧ _subdirectories node !! subdir = None.
Proof.
  split.
  - revert r. induction segs as [|x rest IH]; simpl; intros r H; [done|].
    unfold SubDir.getSubDirectory in H.
    destruct (_subdirectories r !! x) as [child|] eqn:E.
    + destruct (IH child H) as (pre & subdir & post & node & -> & Hw & Hn).
      exists (x :: pre), subdir, post, node. simpl.
      unfold SubDir.getSubDirectory. rewrite E. done.
    + exists [], x, rest, r. done.
  - intros (pre & subdir & post & node & -> & Hw & Hn).
    rewrite walk_app, Hw. simpl. unfold SubDir.getSubDirectory. by rewrite Hn.
Qed.

(** C9.  With [process.cwd()] absolute, [getWorkingDirectory(p)] of a node
    is the walk from the root through the children maps along the segments
    of [p] resolved against the node's [absolutePath]; the walk answers
    [undefined] exactly when some component is missing from the children of
    the node reached before it; and the answer is that of the root's
    [getWorkingDirectory] on the resolved absolute path. *)
Theorem getWorkingDirectory_resolves_then_walks r d p :
  Posix.isAbsolute cwd = true →
  let segs := Posix.resolvedSegments cwd (absolutePath d) p in
  Posix.resolve cwd (absolutePath d) p = Posix.sep +:+ Posix.joinSep segs
  ∧ SharedDir.SubDirectory_getWorkingDirectory cwd r d p = SharedDir.walk r segs
  ∧ (∀ target, SharedDir.SubDirectory_getWorkingDirectory cwd r d p = Some target
               ↔ SharedDir.descends r segs target)
  ∧ (SharedDir.SubDirectory_getWorkingDirectory cwd r d p = None ↔
     ∃ pre subdir post node,
       segs = pre ++ subdir :: post
       ∧ SharedDir.walk r pre = Some node
       ∧ _subdirectories node !! subdir = None)
  ∧ SharedDir.SubDirectory_getWorkingDirectory cwd r d p
    = SharedDir.getWorkingDirectory cwd r
        (Posix.resolve cwd (absolutePath d) p).
Proof.
  intros Hcwd segs.
  assert (Hw : SharedDir.SubDirectory_getWorkingDirectory cwd r d p
               = SharedDir.walk r segs).
  { unfold SharedDir.SubDirectory_getWorkingDirectory,
      SharedDir.SubDirectory_makeAbsolute.
    rewrite resolve_absolute by done.
    apply getWorkingDirectory_resolved, resolvedSegments_clean. }
  split; [by apply resolve_absolute|]. split; [exact Hw|].
  rewrite Hw. split; [intros; apply walk_descends|].
  split; [apply walk_undefined|].
  unfold SharedDir.SubDirectory_getWorkingDirectory,
    SharedDir.SubDirectory_makeAbsolute in Hw. by rewrite Hw.
Qed.

End PathFacts.

(* ===================================================================== *)
(** * Pending entries along the methods                                   *)
(* ===================================================================== *)

Section Respects.

Context {S : Type} (R : S → S → Prop) `{!PreOrder R}.

Lemma respects_ret {A} (a : A) : respects R (ret a).
Proof. intros s. reflexivity. Qed.

Lemma respects_throw {A} e : respects R (@throw S A e).
Proof. intros s. reflexivity. Qed.

Lemma respects_gets {A} (f : S → A) : respects R (gets f).
Proof. intros s. reflexivity. Qed.

Lemma respects_bind {A B} (m : M S A) (k : A → M S B) :
  respects R m → (∀ a, respects R (k a)) → respects R (bind m k).
Proof.
  intros Hm Hk s. unfold bind. specialize (Hm s).
  destruct (m s) as [[a|e] s1]; simpl in *; [|done].
  etrans; [exact Hm|]. apply Hk.
Qed.

Lemma respects_if {A} (b : bool) (m1 m2 : M S A) :
  respects R m1 → respects R m2 → respects R (if b then m1 else m2).
Proof. by destruct b. Qed.

End Respects.

Ltac respects_prim :=
  first [apply respects_ret | apply respects_throw | apply respects_gets];
  typeclasses eauto.
Ltac respects_seq := apply respects_bind; [typeclasses eauto| |intros ?].

(** The methods that process an inbound message are built from reads, benign
    updates of the node and emitted events: they respect every preorder that
    those respect. *)
Section InboundRespects.

Context {Val : Type}.
Context (R : NodeState Val → NodeState Val → Prop) `{!PreOrder R}.
Context (R_onThis : ∀ f, benign f → respects R (onThis f)).
Context (R_emit : ∀ e, respects R (@directory_emit Val e)).
Implicit Types (message : ISequencedDocumentMessage Val).

Lemma benign_storage (f : SubDirectory Val → gmap string (option (ILocalValue Val))) :
  benign (fun d => with_storage (f d) d).
Proof. intros d. simpl. auto. Qed.

Lemma benign_pendingKeys key :
  benign (fun d : SubDirectory Val => with_pendingKeys (delete key (pendingKeys d)) d).
Proof. intros d. simpl. repeat split; auto. apply delete_subseteq. Qed.

Lemma benign_pendingSubDirectories subdirName :
  benign (fun d : SubDirectory Val =>
            with_pendingSubDirectories
              (delete subdirName (pendingSubDirectories d)) d).
Proof. intros d. simpl. repeat split; auto. apply delete_subseteq. Qed.

Lemma benign_pendingClear : benign (@with_pendingClear Val (-1)).
Proof. intros d. simpl. auto. Qed.

Lemma benign_createSubDirectory subdirName :
  benign (fun d : SubDirectory Val =>
    if SubDir.hasSubDirectory d subdirName then d
    else with_subdirectories
           (<[subdirName :=
                newSubDirectory (Posix.join (absolutePath d) subdirName)]>
              (_subdirectories d)) d).
Proof.
  intros d. destruct (SubDir.hasSubDirectory d subdirName); simpl.
  - auto.
  - repeat split; auto. intros name child.
    rewrite lookup_insert. case_decide; [|auto].
    intros [= <-]. eauto.
Qed.

Lemma benign_deleteSubDirectory subdirName :
  benign (fun d : SubDirectory Val =>
            with_subdirectories (delete subdirName (_subdirectories d)) d).
Proof.
  intros d. simpl. repeat split; auto. intros name child H. left.
  eapply lookup_weaken; [exact H|apply delete_subseteq].
Qed.

Lemma respects_get key : respects R (@SubDir.get Val key).
Proof.
  intros s. unfold SubDir.get.
  destruct (_storage (this s) !! key) as [[?|]|]; reflexivity.
Qed.

Lemma respects_setCore key v local : respects R (@SubDir.setCore Val key v local).
Proof.
  unfold SubDir.setCore.
  respects_seq; [apply respects_get|].
  respects_seq; [apply R_onThis, benign_storage|].
  respects_seq; [respects_prim|]. apply R_emit.
Qed.

Lemma respects_deleteCore key local : respects R (@SubDir.deleteCore Val key local).
Proof.
  unfold SubDir.deleteCore, SubDir.has.
  respects_seq; [apply respects_get|].
  respects_seq; [respects_prim|].
  respects_seq; [apply R_onThis, benign_storage|].
  respects_seq; [respects_prim|].
  respects_seq; [|respects_prim].
  apply respects_if; [apply R_emit|respects_prim].
Qed.

Lemma respects_clearCore local : respects R (@SubDir.clearCore Val local).
Proof.
  unfold SubDir.clearCore.
  respects_seq; [apply R_onThis, (benign_storage (fun _ => ∅))|]. apply R_emit.
Qed.

Lemma respects_createSubDirectoryCore subdirName local :
  respects R (@SubDir.createSubDirectoryCore Val subdirName local).
Proof. apply R_onThis, benign_createSubDirectory. Qed.

Lemma respects_deleteSubDirectoryCore subdirName local :
  respects R (@SubDir.deleteSubDirectoryCore Val subdirName local).
Proof.
  unfold SubDir.deleteSubDirectoryCore.
  respects_seq; [respects_prim|].
  respects_seq; [|respects_prim].
  apply R_onThis, benign_deleteSubDirectory.
Qed.

Lemma respects_needProcessStorageOperations key local message :
  respects R (SubDir.needProcessStorageOperations key local message).
Proof.
  unfold SubDir.needProcessStorageOperations.
  respects_seq; [respects_prim|].
  apply respects_if; [respects_prim|].
  respects_seq; [respects_prim|].
  apply respects_if; [|respects_prim].
  respects_seq; [|respects_prim].
  repeat (apply respects_if); try respects_prim.
  apply R_onThis, benign_pendingKeys.
Qed.

Lemma respects_needProcessSubDirectoryOperations subdirName local message :
  respects R (SubDir.needProcessSubDirectoryOperations subdirName local message).
Proof.
  unfold SubDir.needProcessSubDirectoryOperations.
  respects_seq; [respects_prim|].
  apply respects_if; [|respects_prim].
  respects_seq; [|respects_prim].
  repeat (apply respects_if); try respects_prim.
  apply R_onThis, benign_pendingSubDirectories.
Qed.

Lemma respects_processSetMessage key context local message :
  respects R (SubDir.processSetMessage key context local message).
Proof.
  unfold SubDir.processSetMessage.
  respects_seq; [apply respects_needProcessStorageOperations|].
  apply respects_if; [respects_prim|apply respects_setCore].
Qed.

Lemma respects_processDeleteMessage key local message :
  respects R (SubDir.processDeleteMessage key local message).
Proof.
  unfold SubDir.processDeleteMessage.
  respects_seq; [apply respects_needProcessStorageOperations|].
  apply respects_if; [respects_prim|].
  respects_seq; [apply respects_deleteCore|respects_prim].
Qed.

Lemma respects_processClearMessage local message :
  respects R (SubDir.processClearMessage local message).
Proof.
  unfold SubDir.processClearMessage. destruct local.
  - respects_seq; [respects_prim|].
    apply respects_if; [|respects_prim]. apply R_onThis, benign_pendingClear.
  - respects_seq; [respects_prim|].
    respects_seq; [|apply R_emit].
    unfold SubDir.clearExceptPendingKeys. apply R_onThis, benign_storage.
Qed.

Lemma respects_processCreateSubDirectoryMessage subdirName local message :
  respects R (SubDir.processCreateSubDirectoryMessage subdirName local message).
Proof.
  unfold SubDir.processCreateSubDirectoryMessage.
  respects_seq; [apply respects_needProcessSubDirectoryOperations|].
  apply respects_if; [respects_prim|apply respects_createSubDirectoryCore].
Qed.

Lemma respects_processDeleteSubDirectoryMessage subdirName local message :
  respects R (SubDir.processDeleteSubDirectoryMessage subdirName local message).
Proof.
  unfold SubDir.processDeleteSubDirectoryMessage.
  respects_seq; [apply respects_needProcessSubDirectoryOperations|].
  apply respects_if; [respects_prim|].
  respects_seq; [apply respects_deleteSubDirectoryCore|respects_prim].
Qed.

End InboundRespects.

Section PendingFacts.

Context {Val : Type} (maker : LocalValueMaker Val).
Implicit Types (s t : NodeState Val) (d : SubDirectory Val)
         (message : ISequencedDocumentMessage Val).

#[export] Instance shrinks_preorder : PreOrder (@shrinks Val).
Proof.
  split.
  - intros s. unfold shrinks. auto.
  - intros s1 s2 s3 (A1 & A2 & A3 & A4) (B1 & B2 & B3 & B4).
    unfold shrinks. repeat split.
    + by etrans.
    + by etrans.
    + destruct B3 as [B3|B3]; rewrite B3; auto.
    + congruence.
Qed.

#[export] Instance evolves_preorder : PreOrder (@evolves Val).
Proof.
  split.
  - intros s. unfold evolves. repeat split; auto.
  - intros s1 s2 s3 (A1 & A2 & A3 & A4 & A5) (B1 & B2 & B3 & B4 & B5).
    unfold evolves. repeat split.
    + lia.
    + intros key c H. destruct (B2 key c H) as [H'|H']; [|right; lia].
      destruct (A2 key c H') as [H''|H'']; [by left|right; lia].
    + intros key c H. destruct (B3 key c H) as [H'|H']; [|right; lia].
      destruct (A3 key c H') as [H''|H'']; [by left|right; lia].
    + destruct B4 as [B4|[B4|B4]]; [rewrite B4| |].
      * destruct A4 as [A4|[A4|A4]]; [by left|by right; left|right; right; lia].
      * by right; left.
      * right; right; lia.
    + intros name child H. destruct (B5 name child H) as [H'|H']; [|by right].
      apply A5, H'.
Qed.

Lemma shrinks_onThis f : benign f → respects shrinks (@onThis Val f).
Proof.
  intros Hf s. destruct (Hf (this s)) as (H1 & H2 & H3 & _).
  unfold shrinks. simpl. auto.
Qed.

Lemma shrinks_emit e : respects shrinks (@directory_emit Val e).
Proof. intros s. unfold shrinks. simpl. auto. Qed.

Lemma evolves_onThis f : benign f → respects evolves (@onThis Val f).
Proof.
  intros Hf s. destruct (Hf (this s)) as (H1 & H2 & H3 & H4).
  unfold evolves. simpl. repeat split; [lia| | | |done].
  - intros key c H. left. eapply lookup_weaken; eauto.
  - intros key c H. left. eapply lookup_weaken; eauto.
  - destruct H3; auto.
Qed.

Lemma evolves_emit e : respects evolves (@directory_emit Val e).
Proof. intros s. unfold evolves. simpl. repeat split; auto. Qed.

(** Submitting assigns the next number when attached and none otherwise;
    the node is left alone. *)
Lemma evolves_submit_then op (k : Z → SubDirectory Val → SubDirectory Val) :
  (∀ c d,
      (∀ key c', pendingKeys (k c d) !! key = Some c' →
                 pendingKeys d !! key = Some c' ∨ c' = c)
      ∧ (∀ name c', pendingSubDirectories (k c d) !! name = Some c' →
                    pendingSubDirectories d !! name = Some c' ∨ c' = c)
      ∧ (pendingClearClientSequenceNumber (k c d)
         = pendingClearClientSequenceNumber d
         ∨ pendingClearClientSequenceNumber (k c d) = c)
      ∧ _subdirectories (k c d) = _subdirectories d) →
  respects evolves
    (let* c := submitDirectoryMessage op in
     if bool_decide (c ≠ -1) then onThis (k c) else ret tt).
Proof.
  intros Hk s. unfold bind.
  destruct (attached (directory s)) eqn:Ha.
  - rewrite submitDirectoryMessage_attached by done.
    rewrite bool_decide_eq_true_2 by apply assigned_not_minus_one.
    destruct (Hk (Z.of_nat (S (lastAssigned (directory s)))) (this s))
      as (H1 & H2 & H3 & H4).
    unfold evolves. cbn. repeat split.
    + lia.
    + intros key c H. destruct (H1 key c H) as [?| ->]; [by left|right; lia].
    + intros key c H. destruct (H2 key c H) as [?| ->]; [by left|right; lia].
    + destruct H3 as [H3|H3]; rewrite H3; [by left|right; right; lia].
    + intros name child H. left. by rewrite H4 in H.
  - rewrite submitDirectoryMessage_detached by done.
    rewrite bool_decide_eq_false_2 by (intros H; by apply H).
    unfold evolves. cbn. repeat split; auto.
Qed.

Lemma evolves_submitKeyMessage key op :
  respects evolves (@SubDir.submitKeyMessage Val key op).
Proof.
  unfold SubDir.submitKeyMessage.
  apply (evolves_submit_then op
           (fun c d => with_pendingKeys (<[key := c]> (pendingKeys d)) d)).
  intros c d. simpl. repeat split; auto.
  intros key' c'. rewrite lookup_insert. case_decide; [|auto].
  intros [= <-]. auto.
Qed.

Lemma evolves_submitSubDirectoryMessage subdirName op :
  respects evolves (@SubDir.submitSubDirectoryMessage Val subdirName op).
Proof.
  unfold SubDir.submitSubDirectoryMessage.
  apply (evolves_submit_then op
           (fun c d => with_pendingSubDirectories
                         (<[subdirName := c]> (pendingSubDirectories d)) d)).
  intros c d. simpl. repeat split; auto.
  intros key' c'. rewrite lookup_insert. case_decide; [|auto].
  intros [= <-]. auto.
Qed.

Lemma evolves_submitClearMessage op :
  respects evolves (@SubDir.submitClearMessage Val op).
Proof.
  unfold SubDir.submitClearMessage.
  apply (evolves_submit_then op (fun c d => with_pendingClear c d)).
  intros c d. simpl. repeat split; auto.
Qed.

(** Every local call keeps the pending entries within the numbers the
    facade has assigned. *)
Lemma evolves_runCall call : respects evolves (runCall maker call).
Proof.
  destruct call as [key v ty|key| |subdirName|subdirName]; simpl.
  - unfold SubDir.set.
    respects_seq.
    + apply respects_if; [|respects_prim].
      destruct (makeValueType maker _ v); respects_prim.
    + respects_seq;
        [apply respects_setCore;
         [typeclasses eauto|apply evolves_onThis|apply evolves_emit]|].
      respects_seq; [respects_prim|]. apply evolves_submitKeyMessage.
  - respects_seq; [|respects_prim]. unfold SubDir.delete_.
    respects_seq; [respects_prim|].
    respects_seq;
      [apply respects_deleteCore;
       [typeclasses eauto|apply evolves_onThis|apply evolves_emit]|].
    respects_seq; [apply evolves_submitKeyMessage|respects_prim].
  - unfold SubDir.clear.
    respects_seq; [respects_prim|].
    respects_seq;
      [apply respects_clearCore;
       [typeclasses eauto|apply evolves_onThis|apply evolves_emit]|].
    apply evolves_submitClearMessage.
  - respects_seq; [|respects_prim]. unfold SubDir.createSubDirectory.
    apply respects_if; [respects_prim|].
    respects_seq;
      [apply respects_createSubDirectoryCore; apply evolves_onThis|].
    respects_seq; [respects_prim|].
    respects_seq; [apply evolves_submitSubDirectoryMessage|respects_prim].
  - respects_seq; [|respects_prim]. unfold SubDir.deleteSubDirectory.
    respects_seq; [respects_prim|].
    respects_seq;
      [apply respects_deleteSubDirectoryCore;
       [typeclasses eauto|apply evolves_onThis]|].
    respects_seq; [apply evolves_submitSubDirectoryMessage|respects_prim].
Qed.

End PendingFacts.

(* ===================================================================== *)
(** * Pending entries over the whole tree                                 *)
(* ===================================================================== *)

Section TreeFacts.

Context {Val : Type} (maker : LocalValueMaker Val) (cwd : string).
Implicit Types (r d : SubDirectory Val) (sd : SharedDir.SharedDirectory Val).

Lemma getWorkingDirectory_walk r path :
  SharedDir.getWorkingDirectory cwd r path
  = SharedDir.walk r (SharedDir.subdirsOf cwd path).
Proof.
  unfold SharedDir.getWorkingDirectory, SharedDir.subdirsOf.
  destruct (String.eqb _ _); reflexivity.
Qed.

Lemma ForallNodes_mono (P Q : SubDirectory Val → Prop) d :
  (∀ d', P d' → Q d') → ForallNodes P d → ForallNodes Q d.
Proof.
  intros HPQ. induction 1 as [d HP _ IH]. constructor; [by apply HPQ|].
  intros name child Hch. by eapply IH.
Qed.

Lemma ForallNodes_walk (P : SubDirectory Val → Prop) r segs d :
  ForallNodes P r → SharedDir.walk r segs = Some d → ForallNodes P d.
Proof.
  revert r. induction segs as [|x rest IH]; simpl; intros r Hr Hw.
  - by inversion Hw; subst.
  - unfold SubDir.getSubDirectory in Hw.
    destruct (_subdirectories r !! x) as [child|] eqn:E; [|done].
    inversion Hr as [? _ Hch]; subst. eapply IH; [|exact Hw]. by eapply Hch.
Qed.

Lemma ForallNodes_replaceAt (P : SubDirectory Val → Prop) segs new r :
  (∀ d ch, P d → P (with_subdirectories ch d)) →
  ForallNodes P r → ForallNodes P new →
  ForallNodes P (SharedDir.replaceAt segs new r).
Proof.
  intros HP. revert r. induction segs as [|x rest IH]; simpl; intros r Hr Hnew.
  - done.
  - destruct (_subdirectories r !! x) as [child|] eqn:E; [|done].
    inversion Hr as [? Hd Hch]; subst. constructor; [by apply HP|].
    simpl. intros name child'. rewrite lookup_insert. case_decide.
    + intros [= <-]. apply IH; [|done]. by eapply Hch.
    + apply Hch.
Qed.

Lemma bounded_mono (n n' : nat) d : (n ≤ n')%nat → bounded n d → bounded n' d.
Proof.
  intros Hle (H1 & H2 & H3). repeat split.
  - intros key c H. specialize (H1 key c H). lia.
  - intros key c H. specialize (H2 key c H). lia.
  - lia.
Qed.

Lemma bounded_with_subdirectories n d ch :
  bounded n d → bounded n (with_subdirectories ch d).
Proof. done. Qed.

Lemma bounded_newSubDirectory n path : bounded n (@newSubDirectory Val path).
Proof. repeat split; simpl; try (intros ? ?; by rewrite lookup_empty). lia. Qed.

Lemma ForallNodes_newSubDirectory n path :
  ForallNodes (bounded n) (@newSubDirectory Val path).
Proof.
  constructor; [apply bounded_newSubDirectory|].
  simpl. intros ? ?. by rewrite lookup_empty.
Qed.

Lemma evolves_bounded (s s' : NodeState Val) :
  evolves s s' →
  ForallNodes (bounded (lastAssigned (directory s))) (this s) →
  ForallNodes (bounded (lastAssigned (directory s'))) (this s').
Proof.
  intros (Hn & Hk & Hs & Hc & Hch) Hall.
  inversion Hall as [? (B1 & B2 & B3) Hsub]; subst.
  constructor.
  - repeat split.
    + intros key c H. destruct (Hk key c H) as [H'|H']; [|lia].
      specialize (B1 key c H'). lia.
    + intros key c H. destruct (Hs key c H) as [H'|H']; [|lia].
      specialize (B2 key c H'). lia.
    + destruct Hc as [Hc|[Hc|Hc]]; lia.
  - intros name child H. destruct (Hch name child H) as [H'|[path ->]].
    + eapply ForallNodes_mono; [|by eapply Hsub].
      intros d'. by apply bounded_mono.
    + apply ForallNodes_newSubDirectory.
Qed.

Lemma ifSubdir_within path (method : M (NodeState Val) unit) sd :
  respects evolves method →
  within sd → within (snd (SharedDir.ifSubdir cwd path method sd)).
Proof.
  intros Hm Hsd. unfold SharedDir.ifSubdir.
  rewrite getWorkingDirectory_walk.
  destruct (SharedDir.walk (SharedDir.root sd) _) as [subdir|] eqn:Hw; [|done].
  specialize (Hm (mkNodeState subdir (SharedDir.base sd))).
  destruct (method _) as [out s]. simpl in *.
  pose proof (Hm) as (Hn & _).
  assert (Hnew : ForallNodes (bounded (lastAssigned (directory s))) (this s)).
  { apply (evolves_bounded _ _ Hm). simpl. by eapply ForallNodes_walk. }
  unfold within. simpl. apply ForallNodes_replaceAt; [done| |done].
  eapply ForallNodes_mono; [|exact Hsd]. intros d'. by apply bounded_mono.
Qed.

Lemma processAct_within key path opName params context local sd :
  within sd →
  within (snd (SharedDir.processAct maker cwd key path opName params
                 context local sd)).
Proof.
  intros Hsd. unfold SharedDir.processAct.
  destruct (SharedDir.actLocalValue _ _ _ _) as [localValue|]; [|done].
  destruct (getOpHandler maker localValue opName) as [handler|]; [|done].
  unfold within. simpl. rewrite getWorkingDirectory_walk.
  destruct (SharedDir.walk _ _) as [subdir|] eqn:Hw; [|done].
  apply ForallNodes_replaceAt; [done|done|].
  pose proof (ForallNodes_walk _ _ _ _ Hsd Hw) as Hsub.
  inversion Hsub; subst. by constructor.
Qed.

Lemma processCore_within message local context sd :
  within sd →
  within (snd (SharedDir.processCore maker cwd message local context sd)).
Proof.
  intros Hsd. unfold SharedDir.processCore.
  destruct (String.eqb _ _); [|exact Hsd].
  destruct (SharedDir.messageHandlers_has _); [|exact Hsd].
  destruct (contents message) as [key path opName params|key path v|key path
                                  |path|path name|path name|ty].
  - by apply processAct_within.
  - apply ifSubdir_within; [|exact Hsd].
    apply respects_processSetMessage;
      [typeclasses eauto|apply evolves_onThis|apply evolves_emit].
  - apply ifSubdir_within; [|exact Hsd].
    apply respects_processDeleteMessage;
      [typeclasses eauto|apply evolves_onThis|apply evolves_emit].
  - apply ifSubdir_within; [|exact Hsd].
    apply respects_processClearMessage;
      [typeclasses eauto|apply evolves_onThis|apply evolves_emit].
  - apply ifSubdir_within; [|exact Hsd].
    apply respects_processCreateSubDirectoryMessage;
      [typeclasses eauto|apply evolves_onThis].
  - apply ifSubdir_within; [|exact Hsd].
    apply respects_processDeleteSubDirectoryMessage;
      [typeclasses eauto|apply evolves_onThis].
  - exact Hsd.
Qed.

Lemma reachable_within sd : reachable maker cwd sd → within sd.
Proof.
  induction 1 as [|sd sd' _ IH Hstep].
  - apply ForallNodes_newSubDirectory.
  - destruct Hstep.
    + apply ifSubdir_within; [apply evolves_runCall|exact IH].
    + apply processCore_within, IH.
    + exact IH.
Qed.

End TreeFacts.

(* ===================================================================== *)
(** * Local calls and their echoes                                        *)
(* ===================================================================== *)

Section EchoFacts.

Context {Val : Type} (maker : LocalValueMaker Val) (cwd : string).
Implicit Types (s t : NodeState Val) (d : SubDirectory Val)
         (message : ISequencedDocumentMessage Val).

Lemma keeps_refl s : keeps s s.
Proof. by repeat split. Qed.

Lemma setCore_keeps key v local s : keeps s (snd (SubDir.setCore key v local s)).
Proof.
  unfold SubDir.setCore, bind, SubDir.get.
  destruct (_storage (this s) !! key) as [[?|]|]; by repeat split.
Qed.

Lemma deleteCore_keeps key local s : keeps s (snd (SubDir.deleteCore key local s)).
Proof.
  unfold SubDir.deleteCore, bind, SubDir.get, SubDir.has, gets.
  destruct (_storage (this s) !! key) as [[?|]|]; simpl;
    try case_bool_decide; by repeat split.
Qed.

Lemma submit_records op (k : Z → SubDirectory Val → SubDirectory Val) s :
  attached (directory s) = true →
  (let* c := submitDirectoryMessage op in
   if bool_decide (c ≠ -1) then onThis (k c) else ret tt) s
  = (Returned tt,
     mkNodeState (k (Z.of_nat (S (lastAssigned (directory s)))) (this s))
       (mkSharedObject true (S (lastAssigned (directory s)))
          (outbox (directory s)
           ++ [(op, Z.of_nat (S (lastAssigned (directory s))))])
          (emitted (directory s)))).
Proof.
  intros Ha. unfold bind. rewrite submitDirectoryMessage_attached by done.
  rewrite bool_decide_eq_true_2 by apply assigned_not_minus_one. reflexivity.
Qed.

(** A local call that returns on an attached directory gets the next client
    sequence number, and that number is stored in one slot: under the key in
    [pendingKeys], under the name in [pendingSubDirectories], or in the clear
    marker.  The other pending entries stay as they are. *)
Lemma runCall_records call s :
  attached (directory s) = true →
  fst (runCall maker call s) = Returned tt →
  let c := Z.of_nat (S (lastAssigned (directory s))) in
  let s' := snd (runCall maker call s) in
  lastAssigned (directory s') = S (lastAssigned (directory s))
  ∧ match call with
    | CallSet key _ _ | CallDelete key =>
        pendingKeys (this s') = <[key := c]> (pendingKeys (this s))
        ∧ pendingSubDirectories (this s') = pendingSubDirectories (this s)
        ∧ pendingClearClientSequenceNumber (this s')
          = pendingClearClientSequenceNumber (this s)
    | CallCreateSubDirectory subdirName | CallDeleteSubDirectory subdirName =>
        pendingSubDirectories (this s')
        = <[subdirName := c]> (pendingSubDirectories (this s))
        ∧ pendingKeys (this s') = pendingKeys (this s)
        ∧ pendingClearClientSequenceNumber (this s')
          = pendingClearClientSequenceNumber (this s)
    | CallClear =>
        pendingClearClientSequenceNumber (this s') = c
        ∧ pendingKeys (this s') = pendingKeys (this s)
        ∧ pendingSubDirectories (this s') = pendingSubDirectories (this s)
    end.
Proof.
  intros Ha Hret. cbv zeta.
  destruct (runCall maker call s) as [out s'] eqn:Hrun. cbn [fst snd] in *.
  subst out.
  destruct call as [key v ty|key| |subdirName|subdirName]; cbn [runCall] in Hrun.
  - unfold SubDir.set in Hrun. unfold bind at 1 in Hrun.
    match type of Hrun with
    | (let (_, _) := ?m in _) = _ =>
        destruct m as [[made|e] s0] eqn:Em; [|done]
    end.
    assert (s0 = s) as ->
      by (revert Em; repeat case_match; unfold ret, throw; congruence).
    unfold bind at 1 in Hrun.
    pose proof (setCore_keeps key (Some (fst made)) true s) as Hk.
    destruct (SubDir.setCore key (Some (fst made)) true s) as [[[]|e] s1];
      [|done].
    cbn [snd] in Hk. destruct Hk as (K1 & K2 & K3 & K4 & K5).
    unfold bind at 1 in Hrun. unfold gets at 1 in Hrun.
    unfold SubDir.submitKeyMessage in Hrun.
    rewrite submit_records in Hrun by congruence.
    injection Hrun as <-. cbn. rewrite K1, K2, K3, K5. done.
  - unfold bind at 1 in Hrun. unfold SubDir.delete_ in Hrun.
    unfold bind at 1 in Hrun. unfold gets at 1 in Hrun.
    unfold bind at 1 in Hrun.
    pose proof (deleteCore_keeps key true s) as Hk.
    destruct (SubDir.deleteCore key true s) as [[removed|e] s1]; [|done].
    cbn [snd] in Hk. destruct Hk as (K1 & K2 & K3 & K4 & K5).
    unfold bind at 1 in Hrun. unfold SubDir.submitKeyMessage in Hrun.
    rewrite submit_records in Hrun by congruence.
    injection Hrun as <-. cbn. rewrite K1, K2, K3, K5. done.
  - unfold SubDir.clear in Hrun. unfold bind at 1 in Hrun.
    unfold gets at 1 in Hrun. unfold bind at 1 in Hrun.
    unfold SubDir.clearCore in Hrun. unfold bind at 1 in Hrun.
    unfold onThis, modify, directory_emit, modify in Hrun.
    unfold SubDir.submitClearMessage in Hrun.
    rewrite submit_records in Hrun by done.
    injection Hrun as <-. cbn. done.
  - unfold SubDir.createSubDirectory in Hrun.
    destruct (Posix.containsSep subdirName); [done|].
    unfold SubDir.createSubDirectoryCore, SubDir.submitSubDirectoryMessage,
      submitDirectoryMessage, submitLocalMessage, bind, gets, ret, onThis,
      modify in Hrun.
    cbn [this directory] in Hrun.
    destruct (SubDir.hasSubDirectory (this s) subdirName);
      cbn [this directory absolutePath with_subdirectories] in Hrun;
      rewrite Ha in Hrun;
      rewrite bool_decide_eq_true_2 in Hrun by apply assigned_not_minus_one;
      injection Hrun as <-; cbn; done.
  - unfold SubDir.deleteSubDirectory, SubDir.deleteSubDirectoryCore,
      SubDir.submitSubDirectoryMessage,
      submitDirectoryMessage, submitLocalMessage, bind, gets, ret, onThis,
      modify in Hrun.
    cbn [this directory absolutePath with_subdirectories] in Hrun.
    rewrite Ha in Hrun.
    rewrite bool_decide_eq_true_2 in Hrun by apply assigned_not_minus_one.
    injection Hrun as <-. cbn. done.
Qed.

Lemma needProcessSubDirectoryOperations_echo subdirName message s :
  pendingSubDirectories (this s) !! subdirName
  = Some (clientSequenceNumber message) →
  SubDir.needProcessSubDirectoryOperations subdirName true message s
  = (Returned false,
     mkNodeState
       (with_pendingSubDirectories
          (delete subdirName (pendingSubDirectories (this s))) (this s))
       (directory s)).
Proof.
  intros H. unfold SubDir.needProcessSubDirectoryOperations, bind, gets.
  cbn [this]. rewrite H.
  rewrite bool_decide_eq_true_2 by eauto.
  rewrite bool_decide_eq_true_2 by done. reflexivity.
Qed.

(** What the code does with its pending entries.  (1) A local set, delete,
    createSubDirectory, deleteSubDirectory or clear that returns on an
    attached directory is given the next client sequence number, and that
    number is written into one slot: [pendingKeys] at the key,
    [pendingSubDirectories] at the name, or the clear marker; a slot holds
    the number of the latest such call.  (2) A local message that carries
    the number stored in the slot empties it: for a key op provided no clear
    is pending, for a subdirectory op and for a clear always.
    (3) Processing an inbound message on a node adds no pending entry,
    changes the number of none and never sets the marker.  (4) In every
    state reachable from a created directory, no pending entry of any node
    of the tree is newer than the last number assigned. *)
Lemma pending_entries_follow_submissions :
  (∀ call s,
      attached (directory s) = true →
      fst (runCall maker call s) = Returned tt →
      let c := Z.of_nat (S (lastAssigned (directory s))) in
      let s' := snd (runCall maker call s) in
      lastAssigned (directory s') = S (lastAssigned (directory s))
      ∧ match call with
        | CallSet key _ _ | CallDelete key =>
            pendingKeys (this s') = <[key := c]> (pendingKeys (this s))
            ∧ pendingSubDirectories (this s') = pendingSubDirectories (this s)
            ∧ pendingClearClientSequenceNumber (this s')
              = pendingClearClientSequenceNumber (this s)
        | CallCreateSubDirectory subdirName
        | CallDeleteSubDirectory subdirName =>
            pendingSubDirectories (this s')
            = <[subdirName := c]> (pendingSubDirectories (this s))
            ∧ pendingKeys (this s') = pendingKeys (this s)
            ∧ pendingClearClientSequenceNumber (this s')
              = pendingClearClientSequenceNumber (this s)
        | CallClear =>
            pendingClearClientSequenceNumber (this s') = c
            ∧ pendingKeys (this s') = pendingKeys (this s)
            ∧ pendingSubDirectories (this s') = pendingSubDirectories (this s)
        end)
  ∧ (∀ s key context message,
        pendingClearClientSequenceNumber (this s) = -1 →
        pendingKeys (this s) !! key = Some (clientSequenceNumber message) →
        pendingKeys (this (snd (SubDir.processSetMessage key context true
                                  message s)))
        = delete key (pendingKeys (this s))
        ∧ pendingKeys (this (snd (SubDir.processDeleteMessage key true
                                    message s)))
          = delete key (pendingKeys (this s)))
  ∧ (∀ s subdirName message,
        pendingSubDirectories (this s) !! subdirName
        = Some (clientSequenceNumber message) →
        pendingSubDirectories
          (this (snd (SubDir.processCreateSubDirectoryMessage subdirName true
                        message s)))
        = delete subdirName (pendingSubDirectories (this s))
        ∧ pendingSubDirectories
            (this (snd (SubDir.processDeleteSubDirectoryMessage subdirName true
                          message s)))
          = delete subdirName (pendingSubDirectories (this s)))
  ∧ (∀ s message,
        pendingClearClientSequenceNumber (this s) = clientSequenceNumber message →
        pendingClearClientSequenceNumber
          (this (snd (SubDir.processClearMessage true message s))) = -1)
  ∧ (∀ key subdirName context local message,
        respects shrinks (SubDir.processSetMessage key context local message)
        ∧ respects shrinks (SubDir.processDeleteMessage key local message)
        ∧ respects shrinks (SubDir.processClearMessage local message)
        ∧ respects shrinks
            (SubDir.processCreateSubDirectoryMessage subdirName local message)
        ∧ respects shrinks
            (SubDir.processDeleteSubDirectoryMessage subdirName local message))
  ∧ (∀ sd, reachable maker cwd sd → within sd).
Proof.
  split; [exact runCall_records|].
  split.
  { intros s key context message Hc Hk.
    pose proof (needProcessStorageOperations_pending_key key true message s Hc
                  (ltac:(eauto))) as Hn.
    rewrite bool_decide_eq_true_2 in Hn by done. cbn [andb] in Hn.
    rewrite (processSetMessage_skipped _ context _ _ _ _ Hn),
            (processDeleteMessage_skipped _ _ _ _ _ Hn). done. }
  split.
  { intros s subdirName message Hk.
    pose proof (needProcessSubDirectoryOperations_echo subdirName message s Hk)
      as Hn.
    unfold SubDir.processCreateSubDirectoryMessage,
      SubDir.processDeleteSubDirectoryMessage, bind. rewrite Hn. done. }
  split.
  { intros s message Hc. unfold SubDir.processClearMessage, bind, gets.
    cbn [this]. rewrite bool_decide_eq_true_2 by done. reflexivity. }
  split.
  { intros key subdirName context local message.
    split; [|split; [|split; [|split]]].
    - apply respects_processSetMessage;
        [typeclasses eauto|apply shrinks_onThis|apply shrinks_emit].
    - apply respects_processDeleteMessage;
        [typeclasses eauto|apply shrinks_onThis|apply shrinks_emit].
    - apply respects_processClearMessage;
        [typeclasses eauto|apply shrinks_onThis|apply shrinks_emit].
    - apply respects_processCreateSubDirectoryMessage;
        [typeclasses eauto|apply shrinks_onThis].
    - apply respects_processDeleteSubDirectoryMessage;
        [typeclasses eauto|apply shrinks_onThis]. }
  apply reachable_within.
Qed.

End EchoFacts.

Section EchoInstances.
Import Examples.

(** C3, evaluated where it fails.  [delete("k")] (client sequence number 1)
    and [clear()] (2) on an attached node: ["k"] is in [pendingKeys] with
    the number 1, the marker holds 2, and 2 is the last number assigned.
    The echo of the delete arrives, then the echo of the clear.  The entry of
    ["k"] is not removed when its echo arrives, and it is still there after
    the echo of the clear: every local operation has had its echo, the
    marker is reset, and [pendingKeys] has not shrunk. *)
Theorem pending_key_entry_outlives_its_echo :
  let s0 := run SubDir.clear deletedMissing in
  let s1 := run (SubDir.processDeleteMessage "k" true
                   (message 1 (OpDelete "k" "/"))) s0 in
  let s2 := run (SubDir.processClearMessage true (message 2 (OpClear "/"))) s1 in
  pendingKeys (this s0) = {[ "k"%string := 1 ]}
  ∧ pendingClearClientSequenceNumber (this s0) = 2
  ∧ lastAssigned (directory s0) = 2%nat
  ∧ pendingKeys (this s1) = {[ "k"%string := 1 ]}
  ∧ pendingClearClientSequenceNumber (this s2) = -1
  ∧ pendingKeys (this s2) = {[ "k"%string := 1 ]}.
Proof. vm_compute. repeat split. Qed.

(** The slot of a key holds the latest number: after [set("a", 1)] twice
    (client sequence numbers 1 and 2) [pendingKeys] holds one entry, with
    the number 2, and the echo of the first call leaves it in place. *)
Lemma second_set_overwrites_pending_entry :
  let echo1 := message 1 (OpSet "a" "/" (plain 1)) in
  let s := run (SubDir.processSetMessage "a" None true echo1) setTwice in
  pendingKeys (this setTwice) = {[ "a"%string := 2 ]}
  ∧ pendingKeys (this setTwice) !! "a"%string ≠ Some 1
  ∧ pendingKeys (this s) !! "a"%string ≠ None.
Proof. vm_compute. repeat split; congruence. Qed.

End EchoInstances.

(* ===================================================================== *)
(** * The router: unknown types and unresolved paths                      *)
(* ===================================================================== *)

Section RouterFacts.

Context {Val : Type} (maker : LocalValueMaker Val) (cwd : string).
Implicit Types (sd : SharedDir.SharedDirectory Val)
         (message : ISequencedDocumentMessage Val).

(** A message whose operation type is not registered is not prepared and
    changes nothing. *)
Lemma unregistered_type_ignored message local context sd :
  SharedDir.messageHandlers_has (op_type (contents message)) = false →
  SharedDir.prepareCore maker cwd message local sd = Rejected
  ∧ SharedDir.processCore maker cwd message local context sd = (Returned tt, sd).
Proof.
  intros H. unfold SharedDir.prepareCore, SharedDir.processCore. rewrite H.
  by destruct (String.eqb _ _).
Qed.

Lemma ifSubdir_unresolved path method sd :
  SharedDir.getWorkingDirectory cwd (SharedDir.root sd) path = None →
  SharedDir.ifSubdir cwd path method sd = (Returned tt, sd).
Proof. intros H. unfold SharedDir.ifSubdir. by rewrite H. Qed.

(** The five handlers that guard with [if (subdir)] drop an operation whose
    path does not resolve. *)
Lemma unresolved_path_dropped message local context sd path :
  SharedDir.getWorkingDirectory cwd (SharedDir.root sd) path = None →
  (∃ key v, contents message = OpSet key path v)
  ∨ (∃ key, contents message = OpDelete key path)
  ∨ contents message = OpClear path
  ∨ (∃ subdirName, contents message = OpCreateSubDirectory path subdirName)
  ∨ (∃ subdirName, contents message = OpDeleteSubDirectory path subdirName) →
  SharedDir.processCore maker cwd message local context sd = (Returned tt, sd).
Proof.
  intros Hp Hop. unfold SharedDir.processCore.
  destruct (String.eqb _ _); [|reflexivity].
  destruct Hop as [(key & v & ->)|[(key & ->)|[->|[(name & ->)|(name & ->)]]]];
    cbn [op_type]; (destruct (SharedDir.messageHandlers_has _); [|reflexivity]);
    by apply ifSubdir_unresolved.
Qed.

(** The handler of ["act"] has no such guard. *)
Lemma act_unresolved_path_throws message local context sd key path opName params :
  m_type message = MessageType_Operation →
  contents message = OpAct key path opName params →
  SharedDir.getWorkingDirectory cwd (SharedDir.root sd) path = None →
  SharedDir.processCore maker cwd message local context sd
  = (Thrown TypeError, sd)
  ∧ SharedDir.prepareCore maker cwd message local sd = Rejected.
Proof.
  intros Ht Hop Hp. unfold SharedDir.processCore, SharedDir.prepareCore.
  rewrite Ht, Hop, String.eqb_refl. cbn [op_type].
  assert (SharedDir.messageHandlers_has "act" = true) as ->
    by (vm_compute; reflexivity).
  unfold SharedDir.processAct, SharedDir.actLocalValue. by rewrite Hp.
Qed.

End RouterFacts.

Section RouterInstances.
Import Examples.

(** C6, evaluated where it fails.  On a directory without subdirectories, a
    remote [act] for the path ["/gone"] makes [processCore] throw (and the
    promise of [prepareCore] reject), while a [set] for the same path is
    dropped without a throw and without a change. *)
Theorem act_on_missing_subdirectory_throws :
  let act := message 3 (OpAct "k" "/gone" "increment" 1) in
  let set := message 3 (OpSet "k" "/gone" (plain 1)) in
  SharedDir.getWorkingDirectory "/" (SharedDir.root emptyDirectory) "/gone" = None
  ∧ SharedDir.processCore registry "/" act false None emptyDirectory
    = (Thrown TypeError, emptyDirectory)
  ∧ SharedDir.prepareCore registry "/" act false emptyDirectory = Rejected
  ∧ SharedDir.processCore registry "/" set false (Some (mkLocalValue 1 "Plain"))
      emptyDirectory
    = (Returned tt, emptyDirectory).
Proof. vm_compute. repeat split. Qed.

Lemma getWorkingDirectory_resolves_then_walks_witness :
  Posix.isAbsolute "/" = true
  ∧ SharedDir.SubDirectory_getWorkingDirectory "/" rootAB nodeA "b"
    = SharedDir.walk rootAB (Posix.resolvedSegments "/" (absolutePath nodeA) "b")
  ∧ SharedDir.SubDirectory_getWorkingDirectory "/" rootAB nodeA "b"
    = SharedDir.getWorkingDirectory "/" rootAB "/a/b"
  ∧ SharedDir.SubDirectory_getWorkingDirectory "/" rootAB nodeA "b" = Some nodeB
  ∧ SharedDir.SubDirectory_getWorkingDirectory "/" rootAB nodeA "../c" = None.
Proof.
  assert (H : Posix.isAbsolute "/" = true) by reflexivity.
  destruct (getWorkingDirectory_resolves_then_walks "/" rootAB nodeA "b" H)
    as (_ & Hw & _ & _ & Hr).
  split; [exact H|]. split; [exact Hw|]. split; [exact Hr|].
  split; vm_compute; reflexivity.
Defined.

End RouterInstances.

(* ===================================================================== *)
(** * SharedMap: the snapshot and its reload                              *)
(* ===================================================================== *)

Section SnapshotFacts.

Context {Json : Type} (JSON_parse : string → option Json)
        (JSON_reparse : Json → Json).

Abbreviation Serializable := (SharedMap.ISerializableValue (Json := Json)).
Abbreviation DataObject := (gmap string Serializable).
Abbreviation Body := (SharedMap.BlobJson (Json := Json)).
Abbreviation Locals := (SharedMap.Locals (Json := Json)).

Implicit Types (l : Locals) (data : list (string * SharedMap.ISerializedValue))
         (expected : list (string * Serializable)) (t : list (string * Body)).

Lemma blobName_inj i j : SharedMap.blobName i = SharedMap.blobName j → i = j.
Proof.
  unfold SharedMap.blobName. intros H.
  assert (Hd : NilEmpty.string_of_uint (Nat.to_uint i)
               = NilEmpty.string_of_uint (Nat.to_uint j)).
  { change (Posix.substr1 (Posix.substr1 (Posix.substr1 (Posix.substr1
              ("blob" +:+ NilEmpty.string_of_uint (Nat.to_uint i)))))
            = Posix.substr1 (Posix.substr1 (Posix.substr1 (Posix.substr1
              ("blob" +:+ NilEmpty.string_of_uint (Nat.to_uint j)))))).
    by rewrite H. }
  apply (f_equal NilEmpty.uint_of_string) in Hd.
  rewrite !NilEmpty.usu in Hd. injection Hd as Hd.
  apply (f_equal Nat.of_uint) in Hd.
  by rewrite !DecimalNat.Unsigned.of_to in Hd.
Qed.

Lemma blobName_not_header i : SharedMap.blobName i ≠ SharedMap.snapshotFileName.
Proof.
  unfold SharedMap.blobName, SharedMap.snapshotFileName. intros H.
  apply (f_equal Posix.substr1) in H.
  change (Posix.substr1 ("blob" +:+ NilEmpty.string_of_uint (Nat.to_uint i)))
    with ("lob" +:+ NilEmpty.string_of_uint (Nat.to_uint i)) in H.
  apply (f_equal (fun s => match s with String c _ => c | _ => "0"%char end))
    in H.
  discriminate H.
Qed.

(** Reading finds the body stored under a name that occurs once. *)
Lemma read_found t name body :
  NoDup (fmap fst t) → (name, body) ∈ t →
  SharedMap.read JSON_reparse t name = Some (SharedMap.parsedBody JSON_reparse body).
Proof.
  induction t as [|[p b] rest IH]; intros Hnd Hin; [by inversion Hin|].
  cbn in *. inversion Hnd as [|? ? Hnotin Hnd']; subst.
  apply elem_of_cons in Hin as [[= -> ->]|Hin].
  - by rewrite String.eqb_refl.
  - destruct (String.eqb p name) eqn:E; [|by apply IH].
    apply String.eqb_eq in E. subst p. exfalso. apply Hnotin.
    change name with (fst (name, body)). by apply list_elem_of_fmap_2.
Qed.

Lemma readAll_found t (es : list (string * Body)) :
  NoDup (fmap fst t) → es ⊆ t → Forall (fun e => isData (snd e)) es →
  SharedMap.readAll JSON_reparse t (fmap fst es)
  = Some (fmap (fun e => SharedMap.reparsed JSON_reparse (bodyContent (snd e))) es).
Proof.
  intros Hnd. induction es as [|[name body] rest IH]; intros Hsub Hall;
    [reflexivity|].
  inversion Hall as [|? ? [content Hc] Hall']; subst. cbn in Hc. subst body.
  cbn. rewrite (read_found t name (SharedMap.DataJson content)); [|done|].
  - rewrite IH; [reflexivity| |done]. intros e He. apply Hsub. by right.
  - apply Hsub. by left.
Qed.

Lemma delivered_cons (c : DataObject) (cs : list DataObject) :
  delivered (c :: cs) = map_to_list c ++ delivered cs.
Proof. reflexivity. Qed.

Lemma delivered_app (cs1 cs2 : list DataObject) :
  delivered (cs1 ++ cs2) = delivered cs1 ++ delivered cs2.
Proof. unfold delivered. by rewrite fmap_app, concat_app. Qed.

Lemma delivered_nil : delivered (@nil DataObject) = [].
Proof. reflexivity. Qed.

(** The union of data objects with pairwise distinct keys is the map of all
    their entries, whatever the order of the objects. *)
Lemma loaded_from (calls : list DataObject) (kernel : DataObject) :
  NoDup (fmap fst (delivered calls)) →
  fold_left (fun kernel json => SharedMap.populateFromSerializable json kernel)
            calls kernel
  = list_to_map (delivered calls) ∪ kernel.
Proof.
  unfold SharedMap.populateFromSerializable.
  revert kernel. induction calls as [|c cs IH]; intros kernel Hnd.
  - cbn [fold_left]. rewrite delivered_nil. cbn [list_to_map foldr].
    by rewrite (left_id_L ∅ (∪)).
  - cbn [fold_left]. rewrite delivered_cons in *.
    rewrite fmap_app in Hnd. apply NoDup_app in Hnd as (Hc & Hdisj & Hcs).
    rewrite IH by done. rewrite list_to_map_app, list_to_map_to_list.
    rewrite (assoc_L (∪)). f_equal. apply map_union_comm.
    apply map_disjoint_spec. intros k x y Hx Hy.
    apply (Hdisj k).
    + apply list_elem_of_fmap. exists (k, y). split; [done|].
      by apply elem_of_map_to_list.
    + apply list_elem_of_fmap. exists (k, x). split; [done|].
      by apply elem_of_list_to_map_2.
Qed.

Lemma loaded_is_map_of_entries (calls : list DataObject) expected :
  delivered calls ≡ₚ expected → NoDup (fmap fst expected) →
  SharedMap.loaded calls = list_to_map expected.
Proof.
  intros Hp Hnd. unfold SharedMap.loaded.
  assert (Hnd' : NoDup (fmap fst (delivered calls))) by (by rewrite Hp).
  rewrite loaded_from by done. rewrite (right_id_L ∅ (∪)).
  by apply list_to_map_proper.
Qed.

Lemma seq_snoc_S n : seq 0 (S n) = seq 0 n ++ [n].
Proof. by rewrite seq_S. Qed.

Lemma gathers_header_fresh l expected key :
  gathers l expected → key ∉ fmap fst expected →
  SharedMap.headerBlob l !! key = None.
Proof.
  intros (_ & _ & _ & Hp) Hfresh.
  destruct (SharedMap.headerBlob l !! key) as [v|] eqn:E; [|done].
  exfalso. apply Hfresh. rewrite <- Hp, delivered_cons.
  rewrite fmap_app. apply elem_of_app. left.
  apply list_elem_of_fmap. exists (key, v). split; [done|].
  by apply elem_of_map_to_list.
Qed.

Lemma snapshotStep_gathers l expected key v parsed :
  gathers l expected → key ∉ fmap fst expected →
  key ≠ "__proto__"%string →
  SharedMap.parsedEntry JSON_parse (key, v) = Some parsed →
  ∃ l', SharedMap.snapshotStep JSON_parse l (key, v) = Some l'
        ∧ gathers l' (expected ++ [parsed]).
Proof.
  intros Hg Hfresh Hproto Hparse.
  apply String.eqb_neq in Hproto.
  pose proof (gathers_header_fresh _ _ _ Hg Hfresh) as Hnone.
  destruct Hg as (Hnames & Hblobs & Hdata & Hp).
  unfold SharedMap.parsedEntry in Hparse. cbn [fst snd] in Hparse.
  unfold SharedMap.snapshotStep.
  destruct (SharedMap.separateBlob v) eqn:Hsep.
  - unfold SharedMap.separateBlob in Hsep.
    destruct (SharedMap.ser_value v) as [text|] eqn:Hv; [|done].
    cbn [default]. destruct (JSON_parse text) as [json|] eqn:Hj; [|done].
    cbn in Hparse. injection Hparse as <-.
    cbn. rewrite Hj. cbn.
    eexists. split; [reflexivity|].
    unfold gathers, SharedMap.addBlobToTree. cbn [SharedMap.tree SharedMap.counter SharedMap.blobs SharedMap.headerBlob SharedMap.currentSize].
    rewrite !fmap_app, seq_snoc_S, fmap_app. cbn [fmap list_fmap fst].
    split; [by rewrite Hnames|]. split; [by rewrite Hblobs|].
    split.
    + apply Forall_app. split; [done|]. constructor; [|done]. by eexists.
    + rewrite delivered_cons in *. rewrite delivered_app.
      cbn [fmap list_fmap snd bodyContent]. rewrite delivered_cons, delivered_nil.
      rewrite map_to_list_singleton, app_nil_r.
      rewrite (assoc_L (++)). by rewrite Hp.
  - set (size := match SharedMap.ser_value v with
                 | Some text => _ | None => _ end).
    assert (Hparsed : ∃ pv,
               match SharedMap.ser_value v with
               | None => Some None
               | Some text => Some <$> JSON_parse text
               end = Some pv
               ∧ parsed = (key, SharedMap.mkSerializable (SharedMap.ser_type v) pv)).
    { destruct (SharedMap.ser_value v) as [text|].
      - destruct (JSON_parse text) as [json|]; [|done]. cbn in Hparse.
        injection Hparse as <-. by exists (Some json).
      - injection Hparse as <-. by exists None. }
    destruct Hparsed as (pv & -> & ->). clearbody size.
    cbv zeta. cbn [mbind option_bind].
    unfold SharedMap.assign. rewrite Hproto.
    destruct (bool_decide (SharedMap.MaxSnapshotBlobSize < size)%nat);
      (eexists; split; [reflexivity|]);
      unfold gathers, SharedMap.addBlobToTree;
      cbn [SharedMap.tree SharedMap.counter SharedMap.blobs
           SharedMap.headerBlob SharedMap.currentSize].
    + rewrite !fmap_app, seq_snoc_S, fmap_app. cbn [fmap list_fmap fst].
      split; [by rewrite Hnames|]. split; [by rewrite Hblobs|].
      split.
      * apply Forall_app. split; [done|]. constructor; [|done]. by eexists.
      * rewrite delivered_cons in *. rewrite delivered_app.
        cbn [fmap list_fmap snd bodyContent].
        rewrite delivered_cons, delivered_nil.
        rewrite insert_empty, map_to_list_singleton, app_nil_r.
        rewrite <- Hp.
        rewrite (Permutation_app_comm (map_to_list (SharedMap.headerBlob l))).
        apply Permutation_cons_append.
    + split; [done|]. split; [done|]. split; [done|].
      rewrite delivered_cons in *.
      rewrite map_to_list_insert by done. cbn [app]. rewrite Hp.
      apply Permutation_cons_append.
Qed.

Lemma snapshotLoop_gathers data l expected parsed :
  gathers l expected →
  NoDup (fmap fst expected ++ fmap fst data) →
  "__proto__"%string ∉ fmap fst data →
  mapM (SharedMap.parsedEntry JSON_parse) data = Some parsed →
  ∃ l', SharedMap.snapshotLoop JSON_parse l data = Some l'
        ∧ gathers l' (expected ++ parsed).
Proof.
  revert l expected parsed.
  induction data as [|[key v] rest IH];
    intros l expected parsed Hg Hnd Hproto Hparse.
  - cbn in Hparse. injection Hparse as <-. rewrite app_nil_r. by exists l.
  - cbn in Hparse.
    destruct (SharedMap.parsedEntry JSON_parse (key, v)) as [p|] eqn:Hp;
      [|done].
    cbn in Hparse.
    destruct (mapM (SharedMap.parsedEntry JSON_parse) rest) as [ps|] eqn:Hps;
      [|done].
    cbn in Hparse. injection Hparse as <-.
    assert (Hfresh : key ∉ fmap fst expected).
    { apply NoDup_app in Hnd as (_ & Hd & _). intros Hin.
      apply (Hd key Hin). cbn. by left. }
    assert (Hkeyproto : key ≠ "__proto__"%string).
    { intros ->. apply Hproto. cbn. by left. }
    assert (Hrestproto : "__proto__"%string ∉ fmap fst rest).
    { intros Hin. apply Hproto. cbn. by right. }
    destruct (snapshotStep_gathers l expected key v p Hg Hfresh Hkeyproto Hp)
      as (l1 & Hstep & Hg1).
    assert (Hkey : fst p = key).
    { unfold SharedMap.parsedEntry in Hp. cbn in Hp.
      destruct (SharedMap.ser_value v) as [text|].
      - destruct (JSON_parse text); [|done]. by injection Hp as <-.
      - by injection Hp as <-. }
    destruct (IH l1 (expected ++ [p]) ps Hg1) as (l' & Hloop & Hg');
      [|done|done|].
    + rewrite fmap_app. cbn. rewrite Hkey, <- (assoc_L (++)). exact Hnd.
    + exists l'.
      change (SharedMap.snapshotLoop JSON_parse l ((key, v) :: rest))
        with (SharedMap.snapshotStep JSON_parse l (key, v)
              ≫= fun l1 => SharedMap.snapshotLoop JSON_parse l1 rest).
      rewrite Hstep. split; [exact Hloop|].
      by rewrite <- (assoc_L (++)) in Hg'.
Qed.

End SnapshotFacts.

Section ReloadFacts.

Context {Json : Type} (JSON_parse : string → option Json)
        (JSON_reparse : Json → Json).

Abbreviation Serializable := (SharedMap.ISerializableValue (Json := Json)).
Abbreviation DataObject := (gmap string Serializable).
Abbreviation Body := (SharedMap.BlobJson (Json := Json)).

Implicit Types (data : list (string * SharedMap.ISerializedValue))
         (expected : list (string * Serializable)) (t : list (string * Body)).

Lemma fmap_Permutation_inv {A B} (f : B → A) (l : list B) (k : list A) :
  k ≡ₚ f <$> l → ∃ l', k = f <$> l' ∧ l' ≡ₚ l.
Proof.
  intros H. destruct (Permutation_map_inv f l H) as (l' & -> & Hp).
  exists l'. split; [reflexivity|]. by symmetry.
Qed.

Lemma delivered_Permutation (cs1 cs2 : list DataObject) :
  cs1 ≡ₚ cs2 → delivered cs1 ≡ₚ delivered cs2.
Proof.
  induction 1 as [|c cs cs' _ IH|c1 c2 cs|cs cs' cs'' _ IH1 _ IH2].
  - reflexivity.
  - rewrite !delivered_cons. by rewrite IH.
  - rewrite !delivered_cons. rewrite !(assoc_L (++)).
    by rewrite (Permutation_app_comm (map_to_list c1)).
  - by etrans.
Qed.

Lemma read_skip t rest name :
  name ∉ fmap fst t →
  SharedMap.read JSON_reparse (t ++ rest) name
  = SharedMap.read JSON_reparse rest name.
Proof.
  induction t as [|[p b] t' IH]; intros Hn; [reflexivity|].
  cbn. destruct (String.eqb p name) eqn:E.
  - apply String.eqb_eq in E. subst. exfalso. apply Hn. cbn. by left.
  - apply IH. intros Hin. apply Hn. cbn. by right.
Qed.

Lemma parsedEntry_key entry parsed :
  SharedMap.parsedEntry JSON_parse entry = Some parsed → fst parsed = fst entry.
Proof.
  unfold SharedMap.parsedEntry.
  destruct (SharedMap.ser_value (snd entry)) as [text|].
  - destruct (JSON_parse text); [|done]. by intros [= <-].
  - by intros [= <-].
Qed.

Lemma parsed_keys data expected :
  mapM (SharedMap.parsedEntry JSON_parse) data = Some expected →
  fmap fst expected = fmap fst data.
Proof.
  intros H%mapM_Some_1. induction H as [|x y l k Hxy _ IH]; [reflexivity|].
  cbn. rewrite IH. f_equal. by eapply parsedEntry_key.
Qed.

Lemma reparsed_fixed (content : DataObject) :
  map_Forall (fun _ v => JSON_reparse <$> SharedMap.value v = SharedMap.value v)
             content →
  SharedMap.reparsed JSON_reparse content = content.
Proof.
  intros Hfixed. apply map_eq. intros key. unfold SharedMap.reparsed.
  rewrite lookup_fmap. destruct (content !! key) as [v|] eqn:E; [|done].
  cbn. f_equal. specialize (Hfixed key v E). destruct v as [ty payload].
  cbn in *. by rewrite Hfixed.
Qed.

Lemma delivered_elem (calls : list DataObject) (content : DataObject) key v :
  content ∈ calls → content !! key = Some v → (key, v) ∈ delivered calls.
Proof.
  intros Hin Hk. unfold delivered. apply list_elem_of_In, in_concat.
  exists (map_to_list content). split.
  - apply list_elem_of_In, list_elem_of_fmap. by exists content.
  - by apply list_elem_of_In, elem_of_map_to_list.
Qed.

(** What holds of the reload: for a kernel whose keys are pairwise distinct,
    none of them ["__proto__"], and whose payloads are JSON text that
    [JSON.stringify] writes back as it was parsed, [snapshot] returns a
    tree, and [loadCore] from that tree, in whatever order the reads of the
    listed blobs complete, hands the kernel data objects that together hold
    exactly the entries of the original kernel: every key with the type and
    the parsed payload it was serialized with, none missing, and no key in
    more than one data object; the populated map is the map of the original
    entries. *)
Lemma reload_restores_entries_without_proto_key data expected
      (completion : list string → list string) :
  NoDup (fmap fst data) →
  "__proto__"%string ∉ fmap fst data →
  mapM (SharedMap.parsedEntry JSON_parse) data = Some expected →
  Forall (fun e => JSON_reparse <$> SharedMap.value (snd e)
                   = SharedMap.value (snd e)) expected →
  (∀ names, completion names ≡ₚ names) →
  ∃ t calls,
    SharedMap.snapshot JSON_parse data = Some t
    ∧ SharedMap.loadCore JSON_reparse completion t = Some calls
    ∧ delivered calls ≡ₚ expected
    ∧ NoDup (fmap fst (delivered calls))
    ∧ SharedMap.loaded calls = list_to_map expected
    ∧ ∀ key v, SharedMap.loaded calls !! key = Some v ↔ (key, v) ∈ expected.
Proof.
  intros Hnd Hproto Hparse Hfixed Hcompletion.
  assert (Hinit : gathers (Json := Json) (SharedMap.mkLocals 0 0 ∅ [] []) []).
  { split; [reflexivity|]. split; [reflexivity|]. split; [constructor|].
    cbn [SharedMap.tree SharedMap.headerBlob fmap list_fmap].
    rewrite delivered_cons, delivered_nil, map_to_list_empty. reflexivity. }
  destruct (snapshotLoop_gathers JSON_parse data _ [] expected Hinit Hnd Hproto
              Hparse) as (l & Hloop & Hnames & Hblobs & Hdata & Hp).
  cbn [app] in Hp.
  assert (Hkeys : NoDup (fmap fst expected))
    by (by rewrite (parsed_keys _ _ Hparse)).
  set (header := (SharedMap.snapshotFileName,
                  SharedMap.HeaderJson (SharedMap.blobs l)
                    (SharedMap.headerBlob l))).
  set (t := SharedMap.tree l ++ [header]).
  assert (Hnot : SharedMap.snapshotFileName ∉ fmap fst (SharedMap.tree l)).
  { rewrite Hnames. intros (i & Hi & _)%list_elem_of_fmap.
    by apply (blobName_not_header i). }
  assert (Hndt : NoDup (fmap fst t)).
  { subst t. rewrite fmap_app. apply NoDup_app. split; [|split].
    - rewrite Hnames. apply NoDup_fmap_2_strong; [|apply NoDup_seq].
      intros i j _ _. apply blobName_inj.
    - intros name Hin. cbn. intros [->|Hn]%elem_of_cons; [done|].
      by inversion Hn.
    - cbn. apply NoDup_singleton. }
  destruct (fmap_Permutation_inv fst (SharedMap.tree l)
              (completion (SharedMap.blobs l))) as (es & Hes & Hperm).
  { rewrite Hcompletion. by rewrite Hblobs. }
  assert (Hsame : ∀ content : DataObject,
             content ∈ SharedMap.headerBlob l
                       :: fmap (fun e => bodyContent (snd e)) (SharedMap.tree l) →
             SharedMap.reparsed JSON_reparse content = content).
  { intros content Hin. apply reparsed_fixed. intros key v Hk.
    rewrite Forall_forall in Hfixed. apply (Hfixed (key, v)).
    rewrite <- Hp. by eapply delivered_elem. }
  exists t, (SharedMap.headerBlob l
             :: fmap (fun e => bodyContent (snd e)) es).
  assert (Hdel : delivered (SharedMap.headerBlob l
                            :: fmap (fun e => bodyContent (snd e)) es)
                 ≡ₚ expected).
  { rewrite <- Hp. apply delivered_Permutation. constructor.
    by rewrite Hperm. }
  split; [|split; [|split; [exact Hdel|split; [by rewrite Hdel|]]]].
  - unfold SharedMap.snapshot. rewrite Hloop. reflexivity.
  - unfold SharedMap.loadCore. subst t. rewrite read_skip by done.
    assert (SharedMap.read JSON_reparse [header] SharedMap.snapshotFileName
            = Some (SharedMap.HeaderJson (SharedMap.blobs l)
                      (SharedMap.reparsed JSON_reparse (SharedMap.headerBlob l))))
      as -> by reflexivity.
    rewrite Hes.
    rewrite (readAll_found JSON_reparse (SharedMap.tree l ++ [header]) es);
      [|done| |].
    + cbn [mbind option_bind]. f_equal. f_equal.
      * apply Hsame. by left.
      * apply list_fmap_ext. intros i e He%list_elem_of_lookup_2. apply Hsame.
        right. apply list_elem_of_fmap. exists e. split; [done|].
        by rewrite <- Hperm.
    + intros e He. apply elem_of_app. left. by rewrite <- Hperm.
    + by rewrite Hperm.
  - assert (Hl := loaded_is_map_of_entries _ _ Hdel Hkeys).
    split; [exact Hl|]. intros key v. rewrite Hl.
    split.
    + apply elem_of_list_to_map_2.
    + by apply elem_of_list_to_map_1.
Qed.

End ReloadFacts.

Section SnapshotInstances.
Import SnapshotExample.

Lemma reload_restores_small_kernel :
  ∃ t calls,
    SharedMap.snapshot parse small = Some t
    ∧ SharedMap.loadCore reparse (@rev string) t = Some calls
    ∧ SharedMap.loaded calls
      = list_to_map
          [("a"%string, SharedMap.mkSerializable "Plain" (Some "1"%string));
           ("b"%string, SharedMap.mkSerializable "Shared" None)].
Proof.
  assert (H1 : NoDup (fmap fst small)).
  { apply (bool_decide_unpack _). vm_compute. exact I. }
  assert (H2 : "__proto__"%string ∉ fmap fst small).
  { apply (bool_decide_unpack _). vm_compute. exact I. }
  assert (H3 : mapM (SharedMap.parsedEntry parse) small
               = Some [("a"%string,
                        SharedMap.mkSerializable "Plain" (Some "1"%string));
                       ("b"%string, SharedMap.mkSerializable "Shared" None)])
    by reflexivity.
  assert (H4 : ∀ names : list string, rev names ≡ₚ names)
    by (intros; symmetry; apply Permutation_rev).
  destruct (reload_restores_entries_without_proto_key parse reparse small _
              (@rev string) H1 H2 H3) as (t & calls & Hs & Hl & _ & _ & Hm & _);
    [|exact H4|].
  { repeat constructor. }
  exists t, calls. auto.
Qed.

(** C5, evaluated where it fails.  A kernel that holds the key ["__proto__"]
    (with a short payload) beside the key ["a"], both with JSON payloads.
    [snapshot] assigns [headerBlob["__proto__"]], which sets the prototype of
    the header blob and makes no own property: the text written for the
    header holds ["a"] alone.  [loadCore] from this tree populates the kernel
    with ["a"] only; the entry of ["__proto__"], which the claim has
    restored with its value, is dropped. *)
Theorem proto_key_lost_on_reload :
  SharedMap.parsedEntry parse
    ("__proto__"%string, SharedMap.mkSerialized "Plain" (Some "1"%string))
  = Some ("__proto__"%string, SharedMap.mkSerializable "Plain" (Some "1"%string))
  ∧ outline <$> SharedMap.snapshot parse withProto
    = Some [("header"%string, ({[ "a" ]} : gset string)%string)]
  ∧ (SharedMap.snapshot parse withProto
     ≫= SharedMap.loadCore reparse (@rev string))
    = Some [ {[ "a"%string := SharedMap.mkSerializable "Plain" (Some "2"%string) ]} ]
  ∧ SharedMap.loaded
      [ {[ "a"%string := SharedMap.mkSerializable "Plain" (Some "2"%string) ]} ]
    !! "__proto__"%string = None.
Proof.
  split; [reflexivity|].
  split; [vm_compute; reflexivity|].
  split; [vm_compute; reflexivity|].
  vm_compute. reflexivity.
Qed.

(** C4, evaluated where it fails.  Five plain entries of estimate 8000 each
    (none large enough for a blob of its own): the first two are flushed as
    [blob0] when the third arrives, and the estimate restarts at 0 without
    the third entry, which is in the new header blob all the same.  The
    fourth and the fifth entry are then added without a flush: the header
    blob ends with three entries, an estimate of 24000 by the rule of the
    claim, above the 16384 at which it was to be flushed before the fifth
    entry. *)
Theorem header_blob_outgrows_estimate :
  SharedMap.separateBlob entry = false
  ∧ Z.of_nat (SharedMap.entryCost entry) = 8000
  ∧ outline <$> SharedMap.snapshot parse kernel
    = Some [("blob0"%string, ({[ "k1"; "k2" ]} : gset string)%string);
            ("header"%string, ({[ "k3"; "k4"; "k5" ]} : gset string)%string)]
  ∧ Z.of_nat SharedMap.MaxSnapshotBlobSize
    < 3 * Z.of_nat (SharedMap.entryCost entry).
Proof.
  split; [vm_compute; reflexivity|].
  split; [vm_compute; reflexivity|].
  split; [vm_compute; reflexivity|].
  vm_compute. reflexivity.
Qed.

End SnapshotInstances.


(* ===================================================================== *)
(** * The local calls of a node                                           *)
(* ===================================================================== *)

Section LocalCallFacts.

Context {Val : Type} (maker : LocalValueMaker Val).
Implicit Types (s : NodeState Val) (d : SubDirectory Val).

Lemma submitDirectoryMessage_node op s :
  ∃ c so,
    submitDirectoryMessage op s = (Returned c, mkNodeState (this s) so)
    ∧ outbox so = outbox (directory s) ++ [(op, c)]
    ∧ emitted so = emitted (directory s)
    ∧ attached so = attached (directory s)
    ∧ (attached (directory s) = true →
       c = Z.of_nat (S (lastAssigned (directory s)))
       ∧ lastAssigned so = S (lastAssigned (directory s)))
    ∧ (attached (directory s) = false →
       c = -1 ∧ lastAssigned so = lastAssigned (directory s)).
Proof.
  unfold submitDirectoryMessage, submitLocalMessage.
  destruct (attached (directory s)) eqn:Ha; eexists _, _;
    (split; [reflexivity|]); cbn; repeat split; congruence.
Qed.

(** What [submitKeyMessage] leaves: the storage, the children and the events
    as they were, one more op in the outbox. *)
Lemma submitKeyMessage_frame key op s :
  ∃ s' c,
    SubDir.submitKeyMessage key op s = (Returned tt, s')
    ∧ _storage (this s') = _storage (this s)
    ∧ _subdirectories (this s') = _subdirectories (this s)
    ∧ absolutePath (this s') = absolutePath (this s)
    ∧ emitted (directory s') = emitted (directory s)
    ∧ outbox (directory s') = outbox (directory s) ++ [(op, c)].
Proof.
  unfold SubDir.submitKeyMessage, bind.
  destruct (submitDirectoryMessage_node op s) as (c & so & -> & Ho & He & _).
  destruct (bool_decide (c ≠ -1)); eexists _, c; (split; [reflexivity|]);
    cbn; auto.
Qed.

Lemma submitSubDirectoryMessage_frame subdirName op s :
  ∃ s' c,
    SubDir.submitSubDirectoryMessage subdirName op s = (Returned tt, s')
    ∧ _storage (this s') = _storage (this s)
    ∧ _subdirectories (this s') = _subdirectories (this s)
    ∧ absolutePath (this s') = absolutePath (this s)
    ∧ emitted (directory s') = emitted (directory s)
    ∧ outbox (directory s') = outbox (directory s) ++ [(op, c)].
Proof.
  unfold SubDir.submitSubDirectoryMessage, bind.
  destruct (submitDirectoryMessage_node op s) as (c & so & -> & Ho & He & _).
  destruct (bool_decide (c ≠ -1)); eexists _, c; (split; [reflexivity|]);
    cbn; auto.
Qed.

Lemma submitClearMessage_frame op s :
  ∃ s' c,
    SubDir.submitClearMessage op s = (Returned tt, s')
    ∧ _storage (this s') = _storage (this s)
    ∧ _subdirectories (this s') = _subdirectories (this s)
    ∧ absolutePath (this s') = absolutePath (this s)
    ∧ emitted (directory s') = emitted (directory s)
    ∧ outbox (directory s') = outbox (directory s) ++ [(op, c)].
Proof.
  unfold SubDir.submitClearMessage, bind.
  destruct (submitDirectoryMessage_node op s) as (c & so & -> & Ho & He & _).
  destruct (bool_decide (c ≠ -1)); eexists _, c; (split; [reflexivity|]);
    cbn; auto.
Qed.

(** [set] then [get]: a [set] that returns has stored a local value made
    from the argument; [get] and [has] of the key see it at once, the other
    keys are as before, one [valueChanged] event with the previous value and
    the local flag is emitted, and one [set] op carrying the node's path is
    submitted.  When a type is given that is not empty, ["Plain"] or
    ["Shared"], the local value is the one the registry makes for this type
    from the argument, and the op carries the type and the argument; in
    every other case the argument is wrapped as it is and the op carries its
    serializable form. *)
Theorem set_then_get key v ty s :
  fst (SubDir.set maker key v ty s) = Returned tt →
  let s' := snd (SubDir.set maker key v ty s) in
  ∃ localValue serializable previous c,
    _storage (this s') = <[key := Some localValue]> (_storage (this s))
    ∧ SubDir.get key s' = (Returned (Some (value localValue)), s')
    ∧ SubDir.has key s' = (Returned true, s')
    ∧ SubDir.get key s = (Returned previous, s)
    ∧ emitted (directory s')
      = emitted (directory s)
        ++ [valueChanged key (Some (absolutePath (this s))) previous true]
    ∧ outbox (directory s')
      = outbox (directory s)
        ++ [(OpSet key (absolutePath (this s)) serializable, c)]
    ∧ (∀ tyName, ty = Some tyName → tyName ≠ EmptyString →
         tyName ≠ "Plain"%string → tyName ≠ "Shared"%string →
         makeValueType maker tyName v = Some localValue
         ∧ serializable = mkSerializable tyName v)
    ∧ (ty = None ∨ ty = Some EmptyString ∨ ty = Some "Plain"%string
       ∨ ty = Some "Shared"%string →
       localValue = fromInMemory maker v
       ∧ serializable = makeSerializable maker localValue).
Proof.
  intros Hret. cbv zeta.
  destruct (SubDir.set maker key v ty s) as [out s'] eqn:Hrun.
  cbn [fst snd] in *. subst out.
  unfold SubDir.set in Hrun. unfold bind at 1 in Hrun.
  match type of Hrun with
  | (let (_, _) := ?m in _) = _ =>
      destruct m as [[[localValue serializable]|e] s0] eqn:Em; [|done]
  end.
  assert (s0 = s
          ∧ (∀ tyName, ty = Some tyName → tyName ≠ EmptyString →
               tyName ≠ "Plain"%string → tyName ≠ "Shared"%string →
               makeValueType maker tyName v = Some localValue
               ∧ serializable = mkSerializable tyName v)
          ∧ (ty = None ∨ ty = Some EmptyString ∨ ty = Some "Plain"%string
             ∨ ty = Some "Shared"%string →
             localValue = fromInMemory maker v
             ∧ serializable = makeSerializable maker localValue))
    as (-> & Hvt & Hplain).
  { revert Em. destruct ty as [t|].
    - change (default EmptyString (Some t)) with t.
      destruct (String.eqb_spec t "") as [He|He];
        [|destruct (String.eqb_spec t "Plain") as [Hp|Hp];
          [|destruct (String.eqb_spec t "Shared") as [Hs|Hs]]];
        cbn [negb andb].
      + unfold ret. intros E; inversion E; subst.
        split; [done|]. split; [by intros ? [= <-] ?|auto].
      + unfold ret. intros E; inversion E; subst.
        split; [done|]. split; [by intros ? [= <-] ? ?|auto].
      + unfold ret. intros E; inversion E; subst.
        split; [done|]. split; [by intros ? [= <-] ? ? ?|auto].
      + destruct (makeValueType maker t v) eqn:Hm; unfold ret, throw;
          intros E; inversion E; subst.
        split; [done|]. split; [by intros ? [= <-] _ _ _|].
        intros [?|[[= ?]|[[= ?]|[= ?]]]]; done.
    - unfold ret. intros E; inversion E; subst.
      split; [done|]. split; [done|auto]. }
  cbn [fst snd] in Hrun. unfold bind at 1 in Hrun.
  unfold SubDir.setCore in Hrun. unfold bind at 1 in Hrun.
  destruct (SubDir.get key s) as [[previous|e] s1] eqn:Hget; [|done].
  assert (s1 = s) as ->.
  { revert Hget. unfold SubDir.get. by repeat case_match; intros [= _ <-]. }
  unfold bind at 1 in Hrun. unfold onThis at 1, modify at 1 in Hrun.
  unfold bind at 1 in Hrun. unfold gets at 1 in Hrun.
  unfold directory_emit, modify in Hrun. cbn [this directory] in Hrun.
  unfold bind at 1 in Hrun. unfold gets at 1 in Hrun.
  cbn [this directory absolutePath with_storage] in Hrun.
  match type of Hrun with
  | SubDir.submitKeyMessage ?k ?op ?st = _ =>
      destruct (submitKeyMessage_frame k op st)
        as (s2 & c & Hs & Hst & _ & _ & Hem & Hout)
  end.
  rewrite Hs in Hrun. injection Hrun as <-.
  cbn [this directory with_storage _storage emit emitted outbox] in *.
  exists localValue, serializable, previous, c.
  split; [exact Hst|].
  split; [unfold SubDir.get; by rewrite Hst, lookup_insert_eq|].
  split; [unfold SubDir.has, gets; rewrite Hst, lookup_insert_eq;
          by rewrite bool_decide_eq_true_2 by eauto|].
  auto.
Qed.

Lemma setCore_eq key v local s :
  _storage (this s) !! key ≠ Some None →
  SubDir.setCore key v local s
  = (Returned tt,
     mkNodeState (with_storage (<[key := v]> (_storage (this s))) (this s))
       (emit (valueChanged key (Some (absolutePath (this s)))
                (value <$> default None (_storage (this s) !! key)) local)
             (directory s))).
Proof.
  intros Hu. unfold SubDir.setCore, bind. rewrite get_bound by done.
  reflexivity.
Qed.

Lemma deleteCore_eq key local s :
  _storage (this s) !! key ≠ Some None →
  SubDir.deleteCore key local s
  = (Returned (bool_decide (is_Some (_storage (this s) !! key))),
     mkNodeState (with_storage (delete key (_storage (this s))) (this s))
       (if bool_decide (is_Some (_storage (this s) !! key))
        then emit (valueChanged key (Some (absolutePath (this s)))
                     (value <$> default None (_storage (this s) !! key)) local)
                  (directory s)
        else directory s)).
Proof.
  intros Hu. unfold SubDir.deleteCore, bind. rewrite get_bound by done.
  simpl. destruct s as [d so]; simpl. case_bool_decide; reflexivity.
Qed.

(** [delete]: the result tells whether the key was in the storage; the key is
    gone afterwards, the other keys stay; a [valueChanged] event is emitted
    only if the key was there; the [delete] op is submitted in both cases. *)
Theorem delete_removes key s :
  _storage (this s) !! key ≠ Some None →
  let s' := snd (SubDir.delete_ key s) in
  fst (SubDir.delete_ key s)
  = Returned (bool_decide (is_Some (_storage (this s) !! key)))
  ∧ _storage (this s') = delete key (_storage (this s))
  ∧ SubDir.has key s' = (Returned false, s')
  ∧ SubDir.get key s' = (Returned None, s')
  ∧ _subdirectories (this s') = _subdirectories (this s)
  ∧ emitted (directory s')
    = emitted (directory s)
      ++ (if bool_decide (is_Some (_storage (this s) !! key))
          then [valueChanged key (Some (absolutePath (this s)))
                  (value <$> default None (_storage (this s) !! key)) true]
          else [])
  ∧ ∃ c, outbox (directory s')
         = outbox (directory s) ++ [(OpDelete key (absolutePath (this s)), c)].
Proof.
  intros Hu. cbv zeta.
  destruct (SubDir.delete_ key s) as [out s'] eqn:Hrun. cbn [fst snd].
  unfold SubDir.delete_ in Hrun. unfold bind at 1 in Hrun.
  unfold gets at 1 in Hrun. unfold bind at 1 in Hrun.
  rewrite deleteCore_eq in Hrun by done. unfold bind at 1 in Hrun.
  match type of Hrun with
  | context [SubDir.submitKeyMessage ?k ?op ?st] =>
      destruct (submitKeyMessage_frame k op st)
        as (s2 & c & Hs & Hst & Hsub & _ & Hem & Hout)
  end.
  rewrite Hs in Hrun. unfold ret in Hrun. injection Hrun as <- <-.
  cbn [this directory with_storage _storage _subdirectories] in *.
  split; [reflexivity|]. split; [exact Hst|].
  split; [unfold SubDir.has, gets; rewrite Hst, lookup_delete_eq;
          rewrite bool_decide_eq_false_2; [done|by intros [? ?]]|].
  split; [unfold SubDir.get; by rewrite Hst, lookup_delete_eq|].
  split; [exact Hsub|].
  split.
  - rewrite Hem. case_bool_decide; cbn; [done|by rewrite app_nil_r].
  - exists c. rewrite Hout. by case_bool_decide.
Qed.

(** [clear]: the storage is empty afterwards, the children are as before,
    one [clear] event with the local flag is emitted and one [clear] op is
    submitted; no [valueChanged] event is emitted for the keys that go. *)
Theorem clear_empties s :
  let s' := snd (SubDir.clear s) in
  fst (SubDir.clear s) = Returned tt
  ∧ _storage (this s') = ∅
  ∧ (∀ key, SubDir.get key s' = (Returned None, s'))
  ∧ _subdirectories (this s') = _subdirectories (this s)
  ∧ emitted (directory s') = emitted (directory s) ++ [clearEvent true]
  ∧ ∃ c, outbox (directory s')
         = outbox (directory s) ++ [(OpClear (absolutePath (this s)), c)].
Proof.
  cbv zeta.
  destruct (SubDir.clear s) as [out s'] eqn:Hrun. cbn [fst snd].
  unfold SubDir.clear in Hrun. unfold bind at 1 in Hrun.
  unfold gets at 1 in Hrun. unfold bind at 1 in Hrun.
  unfold SubDir.clearCore in Hrun. unfold bind at 1 in Hrun.
  unfold onThis, modify, directory_emit, modify in Hrun.
  match type of Hrun with
  | context [SubDir.submitClearMessage ?op ?st] =>
      destruct (submitClearMessage_frame op st)
        as (s2 & c & Hs & Hst & Hsub & _ & Hem & Hout)
  end.
  rewrite Hs in Hrun. injection Hrun as <- <-.
  cbn [this directory with_storage _storage _subdirectories emit emitted
       outbox] in *.
  split; [reflexivity|]. split; [exact Hst|].
  split; [intros key; unfold SubDir.get; by rewrite Hst, lookup_empty|].
  split; [exact Hsub|]. split; [exact Hem|]. by exists c.
Qed.

(** [deleteSubDirectory]: the result tells whether the child was there; the
    child and all that is below it are gone from the children, the other
    children and the storage stay; no event at all is emitted; the
    [deleteSubDirectory] op is submitted in both cases. *)
Theorem deleteSubDirectory_drops subdirName s :
  let s' := snd (SubDir.deleteSubDirectory subdirName s) in
  fst (SubDir.deleteSubDirectory subdirName s)
  = Returned (bool_decide (is_Some (_subdirectories (this s) !! subdirName)))
  ∧ _subdirectories (this s') = delete subdirName (_subdirectories (this s))
  ∧ SubDir.getSubDirectory (this s') subdirName = None
  ∧ _storage (this s') = _storage (this s)
  ∧ emitted (directory s') = emitted (directory s)
  ∧ ∃ c, outbox (directory s')
         = outbox (directory s)
           ++ [(OpDeleteSubDirectory (absolutePath (this s)) subdirName, c)].
Proof.
  cbv zeta.
  destruct (SubDir.deleteSubDirectory subdirName s) as [out s'] eqn:Hrun.
  cbn [fst snd].
  unfold SubDir.deleteSubDirectory in Hrun. unfold bind at 1 in Hrun.
  unfold gets at 1 in Hrun. unfold bind at 1 in Hrun.
  unfold SubDir.deleteSubDirectoryCore in Hrun. unfold bind at 1 in Hrun.
  unfold gets at 1 in Hrun. unfold bind at 1 in Hrun.
  unfold onThis, modify in Hrun. unfold ret at 1 in Hrun.
  unfold bind at 1 in Hrun.
  match type of Hrun with
  | context [SubDir.submitSubDirectoryMessage ?n ?op ?st] =>
      destruct (submitSubDirectoryMessage_frame n op st)
        as (s2 & c & Hs & Hst & Hsub & _ & Hem & Hout)
  end.
  rewrite Hs in Hrun. unfold ret in Hrun. injection Hrun as <- <-.
  cbn [this directory with_subdirectories _storage _subdirectories] in *.
  split; [reflexivity|]. split; [exact Hsub|].
  split; [unfold SubDir.getSubDirectory; by rewrite Hsub, lookup_delete_eq|].
  split; [exact Hst|]. split; [exact Hem|]. by exists c.
Qed.

(** [createSubDirectory] of a valid name that is not taken: the child is a
    new node at [posix.join] of the node's path and the name, with nothing in
    it and nothing pending; the other children and the storage stay; no event
    is emitted and the [createSubDirectory] op is submitted. *)
Lemma createSubDirectory_adds_child subdirName s :
  Posix.containsSep subdirName = false →
  _subdirectories (this s) !! subdirName = None →
  let s' := snd (SubDir.createSubDirectory subdirName s) in
  let child := newSubDirectory (Posix.join (absolutePath (this s)) subdirName) in
  fst (SubDir.createSubDirectory subdirName s) = Returned (Some child)
  ∧ _subdirectories (this s') = <[subdirName := child]> (_subdirectories (this s))
  ∧ _storage (this s') = _storage (this s)
  ∧ emitted (directory s') = emitted (directory s)
  ∧ ∃ c, outbox (directory s')
         = outbox (directory s)
           ++ [(OpCreateSubDirectory (absolutePath (this s)) subdirName, c)].
Proof.
  intros Hv Hnone. cbv zeta.
  destruct (SubDir.createSubDirectory subdirName s) as [out s'] eqn:Hrun.
  cbn [fst snd].
  unfold SubDir.createSubDirectory in Hrun. rewrite Hv in Hrun.
  unfold bind at 1 in Hrun.
  unfold SubDir.createSubDirectoryCore, onThis, modify in Hrun.
  unfold SubDir.hasSubDirectory in Hrun. rewrite Hnone in Hrun.
  rewrite bool_decide_eq_false_2 in Hrun by (by intros [? ?]).
  unfold bind at 1 in Hrun. unfold gets at 1 in Hrun.
  unfold bind at 1 in Hrun.
  match type of Hrun with
  | context [SubDir.submitSubDirectoryMessage ?n ?op ?st] =>
      destruct (submitSubDirectoryMessage_frame n op st)
        as (s2 & c & Hs & Hst & Hsub & _ & Hem & Hout)
  end.
  rewrite Hs in Hrun. unfold gets in Hrun. injection Hrun as <- <-.
  cbn [this directory with_subdirectories _storage _subdirectories
       absolutePath] in *.
  rewrite Hsub, lookup_insert_eq. split; [reflexivity|].
  split; [reflexivity|]. split; [exact Hst|]. split; [exact Hem|]. by exists c.
Qed.

(** A local call on a directory that is not attached: whatever the call and
    whether it returns or throws, the pending maps, the clear marker and the
    counter of assigned numbers are as before. *)
Theorem detached_call_leaves_no_pending call s :
  attached (directory s) = false →
  let s' := snd (runCall maker call s) in
  pendingKeys (this s') = pendingKeys (this s)
  ∧ pendingSubDirectories (this s') = pendingSubDirectories (this s)
  ∧ pendingClearClientSequenceNumber (this s')
    = pendingClearClientSequenceNumber (this s)
  ∧ lastAssigned (directory s') = lastAssigned (directory s)
  ∧ attached (directory s') = false.
Proof.
  intros Ha. cbv zeta.
  assert (Hsubmit : ∀ op (k : Z → SubDirectory Val → SubDirectory Val) t,
             keeps s t →
             keeps s (snd ((let* c := submitDirectoryMessage op in
                            if bool_decide (c ≠ -1) then onThis (k c)
                            else ret tt) t))).
  { intros op k t (K1 & K2 & K3 & K4 & K5). unfold bind.
    rewrite submitDirectoryMessage_detached by congruence.
    rewrite bool_decide_eq_false_2 by (intros H; by apply H).
    unfold keeps. cbn. repeat split; congruence. }
  enough (keeps s (snd (runCall maker call s))) as (K1 & K2 & K3 & K4 & K5)
    by (repeat split; congruence).
  destruct call as [key v ty|key| |subdirName|subdirName]; cbn [runCall].
  - unfold SubDir.set. unfold bind at 1.
    match goal with
    | |- context [let (_, _) := ?m in _] =>
        destruct m as [[made|e] s0] eqn:Em
    end.
    2:{ assert (s0 = s) as ->
          by (revert Em; repeat case_match; unfold ret, throw; congruence).
        apply keeps_refl. }
    assert (s0 = s) as ->
      by (revert Em; repeat case_match; unfold ret, throw; congruence).
    unfold bind at 1.
    pose proof (setCore_keeps key (Some (fst made)) true s) as Hk.
    destruct (SubDir.setCore key (Some (fst made)) true s) as [[[]|e] s1];
      [|exact Hk].
    unfold bind at 1. unfold gets at 1. by apply Hsubmit.
  - unfold bind at 1. unfold SubDir.delete_. unfold bind at 1.
    unfold gets at 1. unfold bind at 1.
    pose proof (deleteCore_keeps key true s) as Hk.
    destruct (SubDir.deleteCore key true s) as [[removed|e] s1]; [|exact Hk].
    unfold bind at 1.
    pose proof (Hsubmit (OpDelete key (absolutePath (this s)))
                  (fun c d => with_pendingKeys (<[key := c]> (pendingKeys d)) d)
                  s1 Hk) as Hk2.
    unfold SubDir.submitKeyMessage.
    destruct ((let* c := submitDirectoryMessage _ in _) s1) as [[[]|e] s2];
      exact Hk2.
  - unfold SubDir.clear. unfold bind at 1. unfold gets at 1.
    unfold bind at 1. unfold SubDir.clearCore. unfold bind at 1.
    unfold onThis at 1, modify at 1. unfold directory_emit, modify.
    apply Hsubmit. by repeat split.
  - unfold bind at 1. unfold SubDir.createSubDirectory.
    destruct (Posix.containsSep subdirName); [apply keeps_refl|].
    unfold bind at 1. unfold SubDir.createSubDirectoryCore.
    unfold onThis at 1, modify at 1. unfold bind at 1. unfold gets at 1.
    unfold bind at 1.
    match goal with
    | |- context [SubDir.submitSubDirectoryMessage ?n ?op ?st] =>
        pose proof (Hsubmit op
                      (fun c d => with_pendingSubDirectories
                                    (<[n := c]> (pendingSubDirectories d)) d) st)
          as Hk2
    end.
    unfold SubDir.submitSubDirectoryMessage.
    destruct ((let* c := submitDirectoryMessage _ in _) _) as [[[]|e] s2];
      apply Hk2; cbn;
      by destruct (SubDir.hasSubDirectory (this s) subdirName).
  - unfold bind at 1. unfold SubDir.deleteSubDirectory. unfold bind at 1.
    unfold gets at 1. unfold bind at 1. unfold SubDir.deleteSubDirectoryCore.
    unfold bind at 1. unfold gets at 1. unfold bind at 1.
    unfold onThis at 1, modify at 1. unfold ret at 1. unfold bind at 1.
    match goal with
    | |- context [SubDir.submitSubDirectoryMessage ?n ?op ?st] =>
        pose proof (Hsubmit op
                      (fun c d => with_pendingSubDirectories
                                    (<[n := c]> (pendingSubDirectories d)) d) st)
          as Hk2
    end.
    unfold SubDir.submitSubDirectoryMessage.
    destruct ((let* c := submitDirectoryMessage _ in _) _) as [[[]|e] s2];
      apply Hk2; by repeat split.
Qed.

End LocalCallFacts.

(* ===================================================================== *)
(** * Inbound messages on a node                                          *)
(* ===================================================================== *)

Section InboundFacts.

Context {Val : Type}.
Implicit Types (s : NodeState Val) (message : ISequencedDocumentMessage Val).

Lemma needProcessStorageOperations_local key message s :
  ∃ s', SubDir.needProcessStorageOperations key true message s
        = (Returned false, s')
        ∧ sameContents s s'.
Proof.
  destruct (decide (pendingClearClientSequenceNumber (this s) = -1)) as [Hc|Hc].
  - destruct (pendingKeys (this s) !! key) as [c|] eqn:Hk.
    + rewrite needProcessStorageOperations_pending_key by eauto.
      eexists. split; [reflexivity|]. by destruct (_ && _).
    + rewrite needProcessStorageOperations_free by done.
      eexists. split; [reflexivity|]. done.
  - rewrite needProcessStorageOperations_pending_clear by done.
    eexists. split; [reflexivity|]. done.
Qed.

Lemma needProcessSubDirectoryOperations_cases subdirName local message s :
  (∃ c, pendingSubDirectories (this s) !! subdirName = Some c
        ∧ SubDir.needProcessSubDirectoryOperations subdirName local message s
          = (Returned false,
             if local && bool_decide (c = clientSequenceNumber message)
             then mkNodeState
                    (with_pendingSubDirectories
                       (delete subdirName (pendingSubDirectories (this s)))
                       (this s))
                    (directory s)
             else s))
  ∨ (pendingSubDirectories (this s) !! subdirName = None
     ∧ SubDir.needProcessSubDirectoryOperations subdirName local message s
       = (Returned (negb local), s)).
Proof.
  unfold SubDir.needProcessSubDirectoryOperations, bind, gets. cbn [this].
  destruct (pendingSubDirectories (this s) !! subdirName) as [c|] eqn:Hk.
  - left. exists c. split; [done|].
    rewrite bool_decide_eq_true_2 by eauto.
    destruct s as [d so]. destruct local; cbn; [|done].
    destruct (decide (c = clientSequenceNumber message)) as [->|Hne].
    + by rewrite !bool_decide_eq_true_2.
    + rewrite !bool_decide_eq_false_2; [done|done|congruence].
  - right. split; [done|].
    rewrite bool_decide_eq_false_2; [done|by intros [? ?]].
Qed.

(** The echo of the node's own operation changes nothing that can be
    observed: a local message, whatever its kind, leaves the storage, the
    children, the submitted ops and the events as they are; only pending
    entries go. *)
Theorem local_message_changes_pending_only key subdirName context message s :
  (fst (SubDir.processSetMessage key context true message s) = Returned tt
   ∧ sameContents s (snd (SubDir.processSetMessage key context true message s)))
  ∧ (fst (SubDir.processDeleteMessage key true message s) = Returned tt
     ∧ sameContents s (snd (SubDir.processDeleteMessage key true message s)))
  ∧ (fst (SubDir.processClearMessage true message s) = Returned tt
     ∧ sameContents s (snd (SubDir.processClearMessage true message s)))
  ∧ (fst (SubDir.processCreateSubDirectoryMessage subdirName true message s)
     = Returned tt
     ∧ sameContents s
         (snd (SubDir.processCreateSubDirectoryMessage subdirName true message s)))
  ∧ (fst (SubDir.processDeleteSubDirectoryMessage subdirName true message s)
     = Returned tt
     ∧ sameContents s
         (snd (SubDir.processDeleteSubDirectoryMessage subdirName true message s))).
Proof.
  destruct (needProcessStorageOperations_local key message s) as (s1 & Hn & Hs1).
  assert (Hsub : ∃ s2,
             SubDir.needProcessSubDirectoryOperations subdirName true message s
             = (Returned false, s2) ∧ sameContents s s2).
  { destruct (needProcessSubDirectoryOperations_cases subdirName true message s)
      as [(c & _ & ->)|(_ & ->)]; eexists; (split; [reflexivity|]);
      [by destruct (_ && _)|done]. }
  destruct Hsub as (s2 & Hn2 & Hs2).
  split; [by rewrite (processSetMessage_skipped _ context _ _ _ _ Hn)|].
  split; [by rewrite (processDeleteMessage_skipped _ _ _ _ _ Hn)|].
  split.
  { unfold SubDir.processClearMessage, bind, gets. by case_bool_decide. }
  split.
  - unfold SubDir.processCreateSubDirectoryMessage, bind. by rewrite Hn2.
  - unfold SubDir.processDeleteSubDirectoryMessage, bind. by rewrite Hn2.
Qed.

(** A remote set or delete of a key that nothing shadows (no clear pending,
    no pending entry for the key) is applied: after the set, [get] gives the
    value that came with the message, after the delete the key is gone; the
    [valueChanged] event carries the previous value and the remote flag;
    nothing is submitted and the pending entries stay. *)
Theorem remote_key_op_applies key localValue message s :
  pendingClearClientSequenceNumber (this s) = -1 →
  pendingKeys (this s) !! key = None →
  _storage (this s) !! key ≠ Some None →
  let previous := value <$> default None (_storage (this s) !! key) in
  let event := valueChanged key (Some (absolutePath (this s))) previous false in
  let afterSet :=
    snd (SubDir.processSetMessage key (Some localValue) false message s) in
  let afterDelete := snd (SubDir.processDeleteMessage key false message s) in
  SubDir.get key afterSet = (Returned (Some (value localValue)), afterSet)
  ∧ _storage (this afterSet) = <[key := Some localValue]> (_storage (this s))
  ∧ emitted (directory afterSet) = emitted (directory s) ++ [event]
  ∧ outbox (directory afterSet) = outbox (directory s)
  ∧ pendingKeys (this afterSet) = pendingKeys (this s)
  ∧ SubDir.has key afterDelete = (Returned false, afterDelete)
  ∧ _storage (this afterDelete) = delete key (_storage (this s))
  ∧ emitted (directory afterDelete)
    = emitted (directory s)
      ++ (if bool_decide (is_Some (_storage (this s) !! key)) then [event] else [])
  ∧ outbox (directory afterDelete) = outbox (directory s)
  ∧ pendingKeys (this afterDelete) = pendingKeys (this s).
Proof.
  intros Hc Hk Hu. cbv zeta.
  rewrite processSetMessage_applied, processDeleteMessage_applied by done.
  cbn [snd this directory with_storage _storage pendingKeys emit emitted outbox].
  split; [unfold SubDir.get; cbn; by rewrite lookup_insert_eq|].
  split; [done|]. split; [done|]. split; [done|]. split; [done|].
  split.
  { unfold SubDir.has, gets. cbn. rewrite lookup_delete_eq.
    rewrite bool_decide_eq_false_2; [done|by intros [? ?]]. }
  split; [done|].
  case_bool_decide; cbn; rewrite ?app_nil_r; done.
Qed.

(** A pending subdirectory entry shadows inbound subdirectory operations the
    way a pending key shadows key operations: a createSubDirectory or
    deleteSubDirectory message for a name in [pendingSubDirectories] leaves
    the children as they are, and the entry goes exactly when the message is
    local and carries the stored number, also while a clear is pending. *)
Theorem pending_subdirectory_shadows_inbound_op subdirName local message s c :
  pendingSubDirectories (this s) !! subdirName = Some c →
  let afterCreate :=
    SubDir.processCreateSubDirectoryMessage subdirName local message s in
  let afterDelete :=
    SubDir.processDeleteSubDirectoryMessage subdirName local message s in
  fst afterCreate = Returned tt ∧ fst afterDelete = Returned tt
  ∧ snd afterDelete = snd afterCreate
  ∧ sameContents s (snd afterCreate)
  ∧ pendingSubDirectories (this (snd afterCreate))
    = (if local && bool_decide (c = clientSequenceNumber message)
       then delete subdirName (pendingSubDirectories (this s))
       else pendingSubDirectories (this s)).
Proof.
  intros Hk. cbv zeta.
  destruct (needProcessSubDirectoryOperations_cases subdirName local message s)
    as [(c' & Hk' & Hn)|(Hk' & _)]; [|congruence].
  assert (c' = c) as -> by congruence.
  unfold SubDir.processCreateSubDirectoryMessage,
    SubDir.processDeleteSubDirectoryMessage, bind. rewrite Hn. cbn.
  by destruct (local && _).
Qed.

(** Replaying a remote subdirectory operation: when the name has no pending
    entry, processing a remote createSubDirectory (or deleteSubDirectory) a
    second time changes nothing any more; the first createSubDirectory keeps
    an existing child as it is and otherwise adds a new, empty one. *)
Theorem remote_subdirectory_op_replay subdirName message message' s :
  pendingSubDirectories (this s) !! subdirName = None →
  let created :=
    snd (SubDir.processCreateSubDirectoryMessage subdirName false message s) in
  let deleted :=
    snd (SubDir.processDeleteSubDirectoryMessage subdirName false message s) in
  _subdirectories (this created) !! subdirName
  = Some (default
            (newSubDirectory (Val := Val)
               (Posix.join (absolutePath (this s)) subdirName))
            (_subdirectories (this s) !! subdirName))
  ∧ (∀ other, other ≠ subdirName →
       _subdirectories (this created) !! other
       = _subdirectories (this s) !! other)
  ∧ SubDir.processCreateSubDirectoryMessage subdirName false message' created
    = (Returned tt, created)
  ∧ _subdirectories (this deleted) = delete subdirName (_subdirectories (this s))
  ∧ SubDir.processDeleteSubDirectoryMessage subdirName false message' deleted
    = (Returned tt, deleted).
Proof.
  intros Hk. cbv zeta.
  assert (Hstep : ∀ m t, pendingSubDirectories (this t) !! subdirName = None →
    SubDir.processCreateSubDirectoryMessage subdirName false m t
    = (Returned tt,
       mkNodeState
         (if SubDir.hasSubDirectory (this t) subdirName then this t
          else with_subdirectories
                 (<[subdirName :=
                      newSubDirectory (Val := Val)
                        (Posix.join (absolutePath (this t)) subdirName)]>
                    (_subdirectories (this t))) (this t))
         (directory t))
    ∧ SubDir.processDeleteSubDirectoryMessage subdirName false m t
      = (Returned tt,
         mkNodeState
           (with_subdirectories (delete subdirName (_subdirectories (this t)))
              (this t))
           (directory t))).
  { intros m t Ht.
    destruct (needProcessSubDirectoryOperations_cases subdirName false m t)
      as [(c' & Hk' & _)|(_ & Hn)]; [congruence|].
    unfold SubDir.processCreateSubDirectoryMessage,
      SubDir.processDeleteSubDirectoryMessage, bind. rewrite Hn.
    split; reflexivity. }
  destruct (Hstep message s Hk) as [-> ->]. cbn [snd].
  unfold SubDir.hasSubDirectory.
  destruct (_subdirectories (this s) !! subdirName) as [child|] eqn:Hch.
  - rewrite bool_decide_eq_true_2 by eauto. cbn [this directory default].
    split; [done|]. split; [done|].
    split.
    { destruct (Hstep message' (mkNodeState (this s) (directory s)) Hk)
        as [-> _].
      cbn [this directory]. unfold SubDir.hasSubDirectory. rewrite Hch.
      by rewrite bool_decide_eq_true_2 by eauto. }
    split; [done|].
    destruct (Hstep message'
                (mkNodeState
                   (with_subdirectories
                      (delete subdirName (_subdirectories (this s))) (this s))
                   (directory s)) Hk) as [_ ->].
    cbn [this directory with_subdirectories _subdirectories].
    by rewrite delete_delete_eq.
  - rewrite bool_decide_eq_false_2 by (by intros [? ?]).
    cbn [this directory with_subdirectories _subdirectories default].
    split; [by rewrite lookup_insert_eq|].
    split; [intros other Hne; by rewrite lookup_insert_ne|].
    split.
    { match goal with
      | |- SubDir.processCreateSubDirectoryMessage _ _ _ ?t = _ =>
          destruct (Hstep message' t Hk) as [-> _]
      end.
      cbn [this directory with_subdirectories _subdirectories].
      unfold SubDir.hasSubDirectory.
      cbn [with_subdirectories _subdirectories].
      rewrite lookup_insert_eq. by rewrite bool_decide_eq_true_2 by eauto. }
    split; [done|].
    match goal with
    | |- SubDir.processDeleteSubDirectoryMessage _ _ _ ?t = _ =>
        destruct (Hstep message' t Hk) as [_ ->]
    end.
    cbn [this directory with_subdirectories _subdirectories].
    by rewrite delete_delete_eq.
Qed.

(** A remote clear leaves in the storage exactly the keys of [pendingKeys],
    whatever was there before and whether or not a local clear is pending: a
    pending key that had a value keeps it, every other key goes; one [clear]
    event with the remote flag is emitted; children, pending entries and the
    clear marker stay. *)
Theorem remote_clear_leaves_pending_keys message s :
  let s' := snd (SubDir.processClearMessage false message s) in
  fst (SubDir.processClearMessage false message s) = Returned tt
  ∧ dom (_storage (this s')) = dom (pendingKeys (this s))
  ∧ (∀ key v, is_Some (pendingKeys (this s) !! key) →
       _storage (this s) !! key = Some v → _storage (this s') !! key = Some v)
  ∧ (pendingKeys (this s) = ∅ → _storage (this s') = ∅)
  ∧ emitted (directory s') = emitted (directory s) ++ [clearEvent false]
  ∧ outbox (directory s') = outbox (directory s)
  ∧ _subdirectories (this s') = _subdirectories (this s)
  ∧ pendingKeys (this s') = pendingKeys (this s)
  ∧ pendingClearClientSequenceNumber (this s')
    = pendingClearClientSequenceNumber (this s).
Proof.
  cbv zeta. rewrite processClearMessage_remote. cbn.
  split; [done|]. split.
  { apply set_eq. intros key. rewrite !elem_of_dom, map_lookup_imap.
    destruct (pendingKeys (this s) !! key); cbn; split; intros [? ?]; eauto;
      done. }
  split.
  { intros key v [c Hc] Hv. by rewrite map_lookup_imap, Hc, Hv. }
  split; [|done].
  intros ->. apply map_eq. intros key.
  by rewrite map_lookup_imap, !lookup_empty.
Qed.

End InboundFacts.

(* ===================================================================== *)
(** * Paths and routing over the tree                                     *)
(* ===================================================================== *)

Section RootPathFacts.

Context {Val : Type} (cwd : string).
Implicit Types (r d : SubDirectory Val).

(** Against the root, [resolve] never consults the working directory. *)
Lemma resolve_from_root p :
  Posix.resolve cwd Posix.sep p
  = Posix.sep +:+ Posix.joinSep (Posix.resolvedSegments cwd Posix.sep p).
Proof.
  unfold Posix.resolve, Posix.resolvedSegments, Posix.normalizeString.
  assert (Habs : snd (fold_left Posix.resolveStep [p; Posix.sep; cwd]
                        (EmptyString, false)) = true).
  { cbn [fold_left].
    destruct (Posix.resolveStep (EmptyString, false) p) as [path [|]];
      cbn; by destruct (Posix.isAbsolute cwd), (String.eqb cwd ""). }
  destruct (fold_left Posix.resolveStep [p; Posix.sep; cwd] (EmptyString, false))
    as [resolvedPath resolvedAbsolute].
  cbn in Habs. subst. reflexivity.
Qed.

Lemma subdirsOf_resolved segs :
  Forall Posix.clean segs →
  SharedDir.subdirsOf cwd (Posix.sep +:+ Posix.joinSep segs) = segs.
Proof.
  intros Hall. unfold SharedDir.subdirsOf, SharedDir.makeAbsolute.
  destruct (resolve_root_resolved cwd segs Hall) as [-> _].
  destruct segs as [|x rest]; [reflexivity|].
  inversion Hall as [|? ? Hx Hr]; subst.
  pose proof (joinSep_clean_nonempty x rest Hx) as Hne.
  assert (String.eqb (Posix.sep +:+ Posix.joinSep (x :: rest)) Posix.sep = false)
    as ->.
  { apply String.eqb_neq. intros Heq. apply Hne.
    change (String "/" (Posix.joinSep (x :: rest)) = String "/" EmptyString)
      in Heq.
    by injection Heq. }
  change (Posix.substr1 (Posix.sep +:+ Posix.joinSep (x :: rest)))
    with (Posix.joinSep (x :: rest)).
  apply split_joinSep; [done|].
  eapply Forall_impl; [exact Hall|]. by intros ? (_ & _ & _ & ?).
Qed.

(** The root's [getWorkingDirectory], for every working directory of the
    process: the walk goes along the resolved segments of the path, which
    are never empty, ["."] or [".."] and hold no separator; making the path
    absolute first changes nothing; and the empty path, ["."], ["/"] and
    [".."] all give the root itself. *)
Theorem root_getWorkingDirectory_walks_resolved_segments r p :
  let segs := Posix.resolvedSegments cwd Posix.sep p in
  SharedDir.getWorkingDirectory cwd r p = SharedDir.walk r segs
  ∧ Forall Posix.clean segs
  ∧ SharedDir.getWorkingDirectory cwd r (SharedDir.makeAbsolute cwd p)
    = SharedDir.getWorkingDirectory cwd r p
  ∧ SharedDir.getWorkingDirectory cwd r "" = Some r
  ∧ SharedDir.getWorkingDirectory cwd r "." = Some r
  ∧ SharedDir.getWorkingDirectory cwd r "/" = Some r
  ∧ SharedDir.getWorkingDirectory cwd r ".." = Some r.
Proof.
  intros segs.
  pose proof (resolvedSegments_clean cwd Posix.sep p) as Hclean.
  assert (Hmake : SharedDir.makeAbsolute cwd (SharedDir.makeAbsolute cwd p)
                  = SharedDir.makeAbsolute cwd p).
  { unfold SharedDir.makeAbsolute. rewrite (resolve_from_root p).
    by destruct (resolve_root_resolved cwd _ Hclean) as [-> _]. }
  split.
  { rewrite <- (getWorkingDirectory_resolved cwd r segs Hclean). subst segs.
    unfold SharedDir.getWorkingDirectory. rewrite <- resolve_from_root.
    fold (SharedDir.makeAbsolute cwd p). by rewrite Hmake. }
  split; [exact Hclean|].
  split; [unfold SharedDir.getWorkingDirectory; by rewrite Hmake|].
  repeat split; reflexivity.
Qed.

Lemma walk_replaceAt_same r segs d new :
  SharedDir.walk r segs = Some d →
  SharedDir.walk (SharedDir.replaceAt segs new r) segs = Some new.
Proof.
  revert r. induction segs as [|x rest IH]; intros r Hw; [reflexivity|].
  cbn in *. unfold SubDir.getSubDirectory in *.
  destruct (_subdirectories r !! x) as [child|] eqn:E; [|done].
  cbn. rewrite lookup_insert_eq. by apply IH.
Qed.

Lemma walk_replaceAt_diverge r pre x y rest rest' new :
  x ≠ y →
  SharedDir.walk (SharedDir.replaceAt (pre ++ x :: rest) new r) (pre ++ y :: rest')
  = SharedDir.walk r (pre ++ y :: rest').
Proof.
  intros Hne. revert r. induction pre as [|z pre IH]; intros r.
  - cbn. unfold SubDir.getSubDirectory.
    destruct (_subdirectories r !! x) as [child|] eqn:E; [|done].
    cbn. by rewrite lookup_insert_ne.
  - cbn. unfold SubDir.getSubDirectory.
    destruct (_subdirectories r !! z) as [child|] eqn:E; cbn.
    + rewrite lookup_insert_eq. apply IH.
    + by rewrite E.
Qed.

End RootPathFacts.

Section RoutingFacts.

Context {Val : Type} (maker : LocalValueMaker Val) (cwd : string).
Implicit Types (r d : SubDirectory Val) (sd : SharedDir.SharedDirectory Val).

Lemma ifSubdir_resolved segs d method sd :
  Forall Posix.clean segs →
  SharedDir.walk (SharedDir.root sd) segs = Some d →
  SharedDir.ifSubdir cwd (Posix.sep +:+ Posix.joinSep segs) method sd
  = (fst (method (mkNodeState d (SharedDir.base sd))),
     SharedDir.mkSharedDirectory
       (SharedDir.replaceAt segs
          (this (snd (method (mkNodeState d (SharedDir.base sd)))))
          (SharedDir.root sd))
       (directory (snd (method (mkNodeState d (SharedDir.base sd)))))).
Proof.
  intros Hall Hw. unfold SharedDir.ifSubdir.
  rewrite getWorkingDirectory_resolved, Hw, subdirsOf_resolved by done.
  by destruct (method _).
Qed.

(** A remote [set] is routed by its path: when the path resolves to a node
    on which nothing shadows the key, [processCore] stores the value on that
    node, where [getWorkingDirectory] of the same path finds it; a node on a
    path that parts from it is as before; one [valueChanged] event is
    emitted. *)
Theorem remote_set_lands_at_path segs d key v localValue c sd :
  Forall Posix.clean segs →
  SharedDir.walk (SharedDir.root sd) segs = Some d →
  pendingClearClientSequenceNumber d = -1 →
  pendingKeys d !! key = None →
  _storage d !! key ≠ Some None →
  let path := Posix.sep +:+ Posix.joinSep segs in
  let message := mkMessage c MessageType_Operation (OpSet key path v) in
  let sd' := snd (SharedDir.processCore maker cwd message false
                    (Some localValue) sd) in
  fst (SharedDir.processCore maker cwd message false (Some localValue) sd)
  = Returned tt
  ∧ SharedDir.getWorkingDirectory cwd (SharedDir.root sd') path
    = Some (with_storage (<[key := Some localValue]> (_storage d)) d)
  ∧ (∀ pre x y rest rest',
        segs = pre ++ x :: rest → x ≠ y →
        SharedDir.walk (SharedDir.root sd') (pre ++ y :: rest')
        = SharedDir.walk (SharedDir.root sd) (pre ++ y :: rest'))
  ∧ emitted (SharedDir.base sd')
    = emitted (SharedDir.base sd)
      ++ [valueChanged key (Some (absolutePath d))
            (value <$> default None (_storage d !! key)) false]
  ∧ outbox (SharedDir.base sd') = outbox (SharedDir.base sd).
Proof.
  intros Hall Hw Hc Hk Hu. cbv zeta.
  unfold SharedDir.processCore. cbn [m_type contents op_type].
  rewrite String.eqb_refl.
  assert (SharedDir.messageHandlers_has "set" = true) as ->
    by (vm_compute; reflexivity).
  rewrite (ifSubdir_resolved segs d) by done.
  rewrite processSetMessage_applied by done.
  cbn [fst snd this directory SharedDir.root SharedDir.base _storage
       absolutePath emit emitted outbox].
  split; [done|].
  split.
  { rewrite getWorkingDirectory_resolved by done.
    by eapply walk_replaceAt_same. }
  split; [|done].
  intros pre x y rest rest' -> Hne. by apply walk_replaceAt_diverge.
Qed.

End RoutingFacts.

Section JoinFacts.

Lemma endsWithSep_without_sep name :
  Posix.containsSep name = false → Posix.endsWithSep name = false.
Proof.
  induction name as [|ch rest IH]; [done|]. cbn.
  intros [Hc Hr]%orb_false_elim. destruct rest; [done|]. by apply IH.
Qed.

Lemma endsWithSep_app a name :
  name ≠ EmptyString →
  Posix.endsWithSep (a +:+ name) = Posix.endsWithSep name.
Proof.
  intros Hne. induction a as [|ch a IH]; [done|].
  change (String ch a +:+ name) with (String ch (a +:+ name)).
  assert (Happ : a +:+ name ≠ EmptyString).
  { destruct a; [exact Hne|]. discriminate. }
  cbn [Posix.endsWithSep]. destruct (a +:+ name) eqn:E; [done|exact IH].
Qed.

(** [posix.join] of a resolved absolute path and a clean name appends the
    name as one more segment. *)
Lemma join_clean segs name :
  Forall Posix.clean segs → Posix.clean name →
  Posix.join (Posix.sep +:+ Posix.joinSep segs) name
  = Posix.sep +:+ Posix.joinSep (segs ++ [name]).
Proof.
  intros Hall Hname. pose proof Hname as (Hne & _ & _ & Hsep).
  unfold Posix.join.
  change (String.eqb (Posix.sep +:+ Posix.joinSep segs) "") with false.
  cbn iota.
  assert (String.eqb name "" = false) as -> by (by apply String.eqb_neq).
  set (joined := (Posix.sep +:+ Posix.joinSep segs) +:+ Posix.sep +:+ name).
  assert (Hjoined : joined = EmptyString +:+ String "/"
                               (Posix.joinSep segs +:+ String "/" name)).
  { subst joined. reflexivity. }
  assert (String.eqb joined "" = false) as -> by (by rewrite Hjoined).
  unfold Posix.normalize.
  assert (String.eqb joined "" = false) as -> by (by rewrite Hjoined).
  assert (Posix.isAbsolute joined = true) as -> by (by rewrite Hjoined).
  assert (Posix.endsWithSep joined = false) as ->.
  { subst joined.
    rewrite endsWithSep_app.
    - change (Posix.sep +:+ name) with (String "/" name).
      cbn [Posix.endsWithSep]. destruct name; [done|].
      by apply endsWithSep_without_sep.
    - done. }
  assert (Hsegs : Posix.normalizeSegments false [] (Posix.split joined)
                  = segs ++ [name]).
  { rewrite Hjoined, !split_app_sep.
    change (Posix.split "") with [EmptyString].
    rewrite (split_without_sep name) by done.
    assert (Hclean : Forall Posix.clean (segs ++ [name]))
      by (apply Forall_app; split; [done|by constructor]).
    destruct segs as [|x rest].
    - change (Posix.split (Posix.joinSep [])) with [EmptyString].
      cbn -[Posix.normalizeSegments].
      change (Posix.normalizeSegments false [] [EmptyString; EmptyString; name])
        with (Posix.normalizeSegments false [] ([name] ++ [])).
      rewrite normalizeSegments_clean by (by constructor). reflexivity.
    - rewrite split_joinSep; [|done|].
      + change ([EmptyString] ++ (x :: rest) ++ [name])
          with (EmptyString :: ((x :: rest) ++ [name])).
        change (Posix.normalizeSegments false []
                  (EmptyString :: ((x :: rest) ++ [name])))
          with (Posix.normalizeSegments false [] ((x :: rest) ++ [name])).
        rewrite <- (app_nil_r ((x :: rest) ++ [name])).
        rewrite normalizeSegments_clean by done.
        cbn [Posix.normalizeSegments]. by rewrite !app_nil_r, rev_involutive.
      + eapply Forall_impl; [exact Hall|]. by intros ? (_ & _ & _ & ?). }
  unfold Posix.normalizeString. cbn [negb]. rewrite Hsegs.
  rewrite !andb_false_r. reflexivity.
Qed.

End JoinFacts.

Section ChildRoutingFacts.

Context {Val : Type} (maker : LocalValueMaker Val) (cwd : string).
Implicit Types (r d : SubDirectory Val) (sd : SharedDir.SharedDirectory Val)
         (s : NodeState Val).

(** A child made by [createSubDirectory] is where its path says.  On a node
    that sits in the tree at its own [absolutePath], a clean name that is not
    taken gives a child whose [absolutePath] is the node's path with the name
    as one more segment, and [getWorkingDirectory] of that path finds the
    child: the operations the child will submit are routed back to it. *)
Theorem created_child_is_found_at_its_path segs d subdirName sd :
  Forall Posix.clean segs → Posix.clean subdirName →
  SharedDir.walk (SharedDir.root sd) segs = Some d →
  absolutePath d = Posix.sep +:+ Posix.joinSep segs →
  _subdirectories d !! subdirName = None →
  let call := let* _ := SubDir.createSubDirectory subdirName in ret tt in
  let sd' := snd (SharedDir.ifSubdir cwd (absolutePath d) call sd) in
  let child :=
    newSubDirectory (Posix.sep +:+ Posix.joinSep (segs ++ [subdirName])) in
  fst (SharedDir.ifSubdir cwd (absolutePath d) call sd) = Returned tt
  ∧ SharedDir.getWorkingDirectory cwd (SharedDir.root sd') (absolutePath child)
    = Some child
  ∧ SharedDir.walk (SharedDir.root sd') (segs ++ [subdirName]) = Some child
  ∧ ∃ c, outbox (SharedDir.base sd')
         = outbox (SharedDir.base sd)
           ++ [(OpCreateSubDirectory (absolutePath d) subdirName, c)].
Proof.
  intros Hall Hname Hw Hpath Hnone. cbv zeta.
  pose proof Hname as (_ & _ & _ & Hsep).
  rewrite !(eq_trans (f_equal (λ p, SharedDir.ifSubdir cwd p _ sd) Hpath)
              (ifSubdir_resolved cwd segs d _ sd Hall Hw)).
  pose proof (createSubDirectory_adds_child subdirName
                (mkNodeState d (SharedDir.base sd)) Hsep Hnone)
    as (Hret & Hch & _ & _ & Hout).
  cbv zeta in Hret, Hch, Hout. cbn [this directory] in Hret, Hch, Hout.
  rewrite Hpath, join_clean in Hret, Hch by done.
  assert (Hcall : ∀ s0 : NodeState Val,
            fst (SubDir.createSubDirectory subdirName s0)
            = Returned (Some (newSubDirectory (Val := Val)
                 (Posix.sep +:+ Posix.joinSep (segs ++ [subdirName])))) →
            (let* _ := SubDir.createSubDirectory subdirName in ret tt) s0
            = (Returned tt, snd (SubDir.createSubDirectory subdirName s0))).
  { intros s0 H0. unfold bind.
    destruct (SubDir.createSubDirectory subdirName s0) as [out s1].
    cbn [fst snd] in *. by subst out. }
  rewrite (Hcall _ Hret). clear Hcall.
  destruct (SubDir.createSubDirectory subdirName
              (mkNodeState d (SharedDir.base sd))) as [out s'].
  cbn [fst snd] in *. subst out.
  cbn [fst snd ret this directory SharedDir.root SharedDir.base].
  split; [done|].
  assert (Hwalk : SharedDir.walk (SharedDir.replaceAt segs (this s')
                                    (SharedDir.root sd))
                    (segs ++ [subdirName])
                  = Some (newSubDirectory
                            (Posix.sep +:+ Posix.joinSep (segs ++ [subdirName])))).
  { rewrite walk_app, (walk_replaceAt_same _ _ _ _ Hw). cbn.
    unfold SubDir.getSubDirectory. by rewrite Hch, lookup_insert_eq. }
  split.
  { cbn [absolutePath newSubDirectory].
    rewrite getWorkingDirectory_resolved; [exact Hwalk|].
    apply Forall_app. split; [done|by constructor]. }
  split; [exact Hwalk|].
  destruct Hout as [c Hout]. exists c. by rewrite Hout, Hpath.
Qed.

(** [createSubDirectory] lets the names [""], ["."] and [".."] pass (they hold
    no separator).  On the root such a call returns a new child, but the child
    has the path of the root itself, and [getWorkingDirectory] of its name (or
    of its path) gives the root, never the child. *)
Theorem dot_named_child_is_unreachable subdirName s :
  subdirName ∈ [""; "."; ".."]%string →
  absolutePath (this s) = Posix.sep →
  _subdirectories (this s) !! subdirName = None →
  let s' := snd (SubDir.createSubDirectory subdirName s) in
  fst (SubDir.createSubDirectory subdirName s)
  = Returned (Some (newSubDirectory Posix.sep))
  ∧ _subdirectories (this s') !! subdirName = Some (newSubDirectory Posix.sep)
  ∧ SharedDir.getWorkingDirectory cwd (this s') subdirName = Some (this s')
  ∧ SharedDir.getWorkingDirectory cwd (this s')
      (absolutePath (newSubDirectory (Val := Val) Posix.sep)) = Some (this s').
Proof.
  intros Hin Hroot Hnone. cbv zeta.
  assert (Hsep : Posix.containsSep subdirName = false
                 ∧ Posix.join Posix.sep subdirName = Posix.sep
                 ∧ ∀ r : SubDirectory Val,
                     SharedDir.getWorkingDirectory cwd r subdirName = Some r).
  { repeat (apply elem_of_cons in Hin as [->|Hin]);
      [| | |by apply elem_of_nil in Hin]; repeat split; reflexivity. }
  destruct Hsep as (Hsep & Hjoin & Hgwd).
  pose proof (createSubDirectory_adds_child subdirName s Hsep Hnone)
    as (Hret & Hch & _).
  cbv zeta in Hret, Hch. rewrite Hroot, Hjoin in Hret, Hch.
  split; [exact Hret|]. split; [by rewrite Hch, lookup_insert_eq|].
  split; [apply Hgwd|]. reflexivity.
Qed.

End ChildRoutingFacts.

(* ===================================================================== *)
(** * The layout of a snapshot                                            *)
(* ===================================================================== *)

Section SnapshotLayoutFacts.

Context {Json : Type} (JSON_parse : string → option Json)
        (JSON_reparse : Json → Json).

Abbreviation Serializable := (SharedMap.ISerializableValue (Json := Json)).
Abbreviation DataObject := (gmap string Serializable).
Abbreviation Body := (SharedMap.BlobJson (Json := Json)).
Abbreviation Locals := (SharedMap.Locals (Json := Json)).

Implicit Types (l : Locals) (data : list (string * SharedMap.ISerializedValue))
         (entry : string * SharedMap.ISerializedValue)
         (expected : list (string * Serializable)) (t : list (string * Body)).


Lemma snapshotStep_parses l entry :
  is_Some (SharedMap.snapshotStep JSON_parse l entry)
  ↔ is_Some (SharedMap.parsedEntry JSON_parse entry).
Proof.
  destruct entry as [key v].
  unfold SharedMap.snapshotStep, SharedMap.parsedEntry. cbn [fst snd].
  destruct (SharedMap.separateBlob v) eqn:Hsep.
  - unfold SharedMap.separateBlob in Hsep.
    destruct (SharedMap.ser_value v) as [text|]; [|done]. cbn [default from_option id].
    destruct (JSON_parse text); cbn [mbind option_bind];
      split; intros [x Hx]; try done; by eexists.
  - cbv zeta.
    match goal with
    | |- context [if bool_decide (SharedMap.MaxSnapshotBlobSize < ?sz)%nat
                  then ?a else ?b] =>
        generalize (if bool_decide (SharedMap.MaxSnapshotBlobSize < sz)%nat
                    then a else b)
    end.
    intros l'. destruct (SharedMap.ser_value v) as [text|].
    + destruct (JSON_parse text);
        cbn [mbind option_bind fmap option_fmap option_map];
        split; intros [x Hx]; try done; by eexists.
    + cbn [mbind option_bind]. split; intros _; by eexists.
Qed.

Lemma snapshotLoop_parses data l :
  is_Some (SharedMap.snapshotLoop JSON_parse l data)
  ↔ Forall (fun entry => is_Some (SharedMap.parsedEntry JSON_parse entry)) data.
Proof.
  revert l. induction data as [|entry rest IH]; intros l.
  - cbn. split; [constructor|intros _; by eexists].
  - rewrite Forall_cons, <- (snapshotStep_parses l).
    change (SharedMap.snapshotLoop JSON_parse l (entry :: rest))
      with (SharedMap.snapshotStep JSON_parse l entry
            ≫= fun l1 => SharedMap.snapshotLoop JSON_parse l1 rest).
    destruct (SharedMap.snapshotStep JSON_parse l entry) as [l1|]; cbn.
    + rewrite IH. split; [intros H; split; [by eexists|done]|by intros [_ H]].
    + split; [by intros [x Hx]|by intros [[x Hx] _]].
Qed.

(** [snapshot] throws exactly when the payload of some entry of the kernel is
    not JSON text: nothing else in it can fail, and one such entry is enough,
    whatever its size and wherever it is. *)
Theorem snapshot_throws_iff_payload_unparsable data :
  SharedMap.snapshot JSON_parse data = None
  ↔ ∃ key v text, (key, v) ∈ data ∧ SharedMap.ser_value v = Some text
                  ∧ JSON_parse text = None.
Proof.
  unfold SharedMap.snapshot.
  pose proof (snapshotLoop_parses data (SharedMap.mkLocals 0 0 ∅ [] [])) as Hl.
  split.
  - intros Hnone.
    assert (Hex : Exists (fun entry =>
                    ¬ is_Some (SharedMap.parsedEntry JSON_parse entry)) data).
    { apply not_Forall_Exists; [intros x; apply _|].
      intros Hall. apply Hl in Hall as [l Hloop]. by rewrite Hloop in Hnone. }
    apply Exists_exists in Hex as ([key v] & Hin & Hno).
    unfold SharedMap.parsedEntry in Hno. cbn [fst snd] in Hno.
    destruct (SharedMap.ser_value v) as [text|] eqn:Hv.
    + exists key, v, text. split; [done|]. split; [done|].
      destruct (JSON_parse text); [|done]. exfalso. apply Hno. by eexists.
    + exfalso. apply Hno. by eexists.
  - intros (key & v & text & Hin & Hv & Hparse).
    destruct (SharedMap.snapshotLoop JSON_parse _ data) as [l|] eqn:Hloop;
      [|done].
    exfalso. assert (Hsome : is_Some (Some l)) by (by eexists).
    apply Hl in Hsome. rewrite Forall_forall in Hsome.
    apply Hsome in Hin as [x Hx].
    unfold SharedMap.parsedEntry in Hx. cbn [fst snd] in Hx.
    by rewrite Hv, Hparse in Hx.
Qed.

Lemma numbered_step l entry l' :
  numbered l → SharedMap.snapshotStep JSON_parse l entry = Some l' →
  numbered l'.
Proof.
  destruct entry as [key v]. intros (Hnames & Hblobs & Hdata).
  unfold SharedMap.snapshotStep.
  destruct (SharedMap.separateBlob v).
  - destruct (JSON_parse _) as [json|]; [|done]. cbn [mbind option_bind].
    intros [= <-]. unfold numbered, SharedMap.addBlobToTree.
    cbn [SharedMap.tree SharedMap.counter SharedMap.blobs].
    rewrite !fmap_app, seq_snoc_S, fmap_app. cbn [fmap list_fmap fst].
    split; [by rewrite Hnames|]. split; [by rewrite Hblobs|].
    apply Forall_app. split; [done|]. constructor; [|done]. by eexists.
  - cbv zeta.
    destruct (match SharedMap.ser_value v with
              | Some text => Some <$> JSON_parse text
              | None => Some None
              end) as [pv|]; [|done].
    cbn [mbind option_bind].
    destruct (bool_decide _); intros [= <-];
      unfold numbered, SharedMap.addBlobToTree;
      cbn [SharedMap.tree SharedMap.counter SharedMap.blobs]; [|done].
    rewrite !fmap_app, seq_snoc_S, fmap_app. cbn [fmap list_fmap fst].
    split; [by rewrite Hnames|]. split; [by rewrite Hblobs|].
    apply Forall_app. split; [done|]. constructor; [|done]. by eexists.
Qed.

Lemma numbered_loop data l l' :
  numbered l → SharedMap.snapshotLoop JSON_parse l data = Some l' →
  numbered l'.
Proof.
  revert l. induction data as [|entry rest IH]; intros l Hn.
  - by intros [= <-].
  - change (SharedMap.snapshotLoop JSON_parse l (entry :: rest))
      with (SharedMap.snapshotStep JSON_parse l entry
            ≫= fun l1 => SharedMap.snapshotLoop JSON_parse l1 rest).
    destruct (SharedMap.snapshotStep JSON_parse l entry) as [l1|] eqn:Hstep;
      [|done].
    cbn [mbind option_bind]. apply IH. by eapply numbered_step.
Qed.

(** The tree of a snapshot, whatever the kernel holds: the header is its last
    entry, all entries before it are data objects named [blob0], [blob1],
    ... in the order they were written, the header's [blobs] array lists
    exactly these names, and no name occurs twice.  So [loadCore] finds every
    blob the header lists: it hands over the header's content and then the
    body of each written blob once, in the order the reads complete, each as
    [JSON.parse] gives it back from the text written for it. *)
Theorem snapshot_header_lists_written_blobs data t :
  SharedMap.snapshot JSON_parse data = Some t →
  ∃ written content,
    t = written ++ [(SharedMap.snapshotFileName,
                     SharedMap.HeaderJson (fmap fst written) content)]
    ∧ fmap fst written = fmap SharedMap.blobName (seq 0 (length written))
    ∧ Forall (fun e => isData (snd e)) written
    ∧ NoDup (fmap fst t)
    ∧ ∀ completion : list string → list string,
        (∀ names, completion names ≡ₚ names) →
        ∃ calls,
          SharedMap.loadCore JSON_reparse completion t
          = Some (SharedMap.reparsed JSON_reparse content :: calls)
          ∧ calls ≡ₚ fmap (fun e => SharedMap.reparsed JSON_reparse
                                      (bodyContent (snd e))) written.
Proof.
  unfold SharedMap.snapshot.
  destruct (SharedMap.snapshotLoop JSON_parse _ data) as [l|] eqn:Hloop;
    [|done].
  cbn [mbind option_bind]. intros [= <-].
  assert (Hinit : numbered (Json := Json) (SharedMap.mkLocals 0 0 ∅ [] [])).
  { split; [reflexivity|]. split; [reflexivity|constructor]. }
  destruct (numbered_loop _ _ _ Hinit Hloop) as (Hnames & Hblobs & Hdata).
  assert (Hlen : length (SharedMap.tree l) = SharedMap.counter l).
  { apply (f_equal length) in Hnames.
    by rewrite !length_fmap, length_seq in Hnames. }
  set (header := (SharedMap.snapshotFileName,
                  SharedMap.HeaderJson (SharedMap.blobs l)
                    (SharedMap.headerBlob l))).
  assert (Hnot : SharedMap.snapshotFileName ∉ fmap fst (SharedMap.tree l)).
  { rewrite Hnames. intros (i & Hi & _)%list_elem_of_fmap.
    by apply (blobName_not_header i). }
  assert (Hndt : NoDup (fmap fst (SharedMap.tree l ++ [header]))).
  { rewrite fmap_app. apply NoDup_app. split; [|split].
    - rewrite Hnames. apply NoDup_fmap_2_strong; [|apply NoDup_seq].
      intros i j _ _. apply blobName_inj.
    - intros name Hin. cbn. intros [->|Hn]%elem_of_cons; [done|].
      by inversion Hn.
    - cbn. apply NoDup_singleton. }
  exists (SharedMap.tree l), (SharedMap.headerBlob l).
  unfold SharedMap.addBlobToTree. fold header.
  split; [by rewrite <- Hblobs|]. split; [by rewrite Hlen|].
  split; [done|]. split; [done|].
  intros completion Hcompletion.
  destruct (fmap_Permutation_inv fst (SharedMap.tree l)
              (completion (SharedMap.blobs l))) as (es & Hes & Hperm).
  { rewrite Hcompletion. by rewrite Hblobs. }
  exists (fmap (fun e => SharedMap.reparsed JSON_reparse (bodyContent (snd e)))
               es).
  split; [|by rewrite Hperm].
  unfold SharedMap.loadCore. rewrite read_skip by done.
  assert (SharedMap.read JSON_reparse [header] SharedMap.snapshotFileName
          = Some (SharedMap.HeaderJson (SharedMap.blobs l)
                    (SharedMap.reparsed JSON_reparse (SharedMap.headerBlob l))))
    as -> by reflexivity.
  rewrite Hes.
  rewrite (readAll_found JSON_reparse (SharedMap.tree l ++ [header]) es);
    [done|done| |].
  - intros e He. apply elem_of_app. left. by rewrite <- Hperm.
  - by rewrite Hperm.
Qed.

Lemma snapshotStep_tree_grows l entry l' :
  SharedMap.snapshotStep JSON_parse l entry = Some l' →
  ∃ more, SharedMap.tree l' = SharedMap.tree l ++ more.
Proof.
  destruct entry as [key v]. unfold SharedMap.snapshotStep.
  destruct (SharedMap.separateBlob v).
  - destruct (JSON_parse _) as [json|]; [|done]. cbn [mbind option_bind].
    intros [= <-]. by eexists.
  - cbv zeta.
    destruct (match SharedMap.ser_value v with
              | Some text => Some <$> JSON_parse text
              | None => Some None
              end) as [pv|]; [|done].
    cbn [mbind option_bind].
    destruct (bool_decide _); intros [= <-]; cbn [SharedMap.tree].
    + by eexists.
    + exists []. by rewrite app_nil_r.
Qed.

Lemma snapshotLoop_tree_grows data l l' :
  SharedMap.snapshotLoop JSON_parse l data = Some l' →
  ∃ more, SharedMap.tree l' = SharedMap.tree l ++ more.
Proof.
  revert l. induction data as [|entry rest IH]; intros l.
  - intros [= <-]. exists []. by rewrite app_nil_r.
  - change (SharedMap.snapshotLoop JSON_parse l (entry :: rest))
      with (SharedMap.snapshotStep JSON_parse l entry
            ≫= fun l1 => SharedMap.snapshotLoop JSON_parse l1 rest).
    destruct (SharedMap.snapshotStep JSON_parse l entry) as [l1|] eqn:Hstep;
      [|done].
    cbn [mbind option_bind]. intros Hloop.
    destruct (snapshotStep_tree_grows _ _ _ Hstep) as [m1 H1].
    destruct (IH _ Hloop) as [m2 H2].
    exists (m1 ++ m2). by rewrite H2, H1, (assoc_L (++)).
Qed.

Lemma snapshotLoop_separate data l l' key v :
  SharedMap.snapshotLoop JSON_parse l data = Some l' →
  (key, v) ∈ data → SharedMap.separateBlob v = true →
  ∃ i text parsed,
    SharedMap.ser_value v = Some text ∧ JSON_parse text = Some parsed
    ∧ (SharedMap.blobName i,
       SharedMap.DataJson
         {[ key := SharedMap.mkSerializable (SharedMap.ser_type v) (Some parsed) ]})
      ∈ SharedMap.tree l'.
Proof.
  revert l. induction data as [|entry rest IH]; intros l Hloop Hin Hsep;
    [by inversion Hin|].
  change (SharedMap.snapshotLoop JSON_parse l (entry :: rest))
    with (SharedMap.snapshotStep JSON_parse l entry
          ≫= fun l1 => SharedMap.snapshotLoop JSON_parse l1 rest) in Hloop.
  destruct (SharedMap.snapshotStep JSON_parse l entry) as [l1|] eqn:Hstep;
    [|done].
  cbn [mbind option_bind] in Hloop.
  apply elem_of_cons in Hin as [<-|Hin]; [|by eapply IH].
  unfold SharedMap.snapshotStep in Hstep. rewrite Hsep in Hstep.
  unfold SharedMap.separateBlob in Hsep.
  destruct (SharedMap.ser_value v) as [text|]; [|done].
  cbn [default from_option id] in Hstep.
  destruct (JSON_parse text) as [parsed|] eqn:Hj; [|done].
  cbn [mbind option_bind] in Hstep. injection Hstep as <-.
  destruct (snapshotLoop_tree_grows _ _ _ Hloop) as [more Hmore].
  exists (SharedMap.counter l), text, parsed.
  split; [done|]. split; [done|].
  rewrite Hmore. cbn [SharedMap.tree]. unfold SharedMap.addBlobToTree.
  apply elem_of_app. left. apply elem_of_app. right. by left.
Qed.

(** An entry whose payload is at least 8192 characters long is written to a
    blob of its own: the tree of the snapshot has a blob that holds this
    entry, parsed, and nothing else. *)
Theorem large_value_gets_blob_of_its_own data t key v :
  SharedMap.snapshot JSON_parse data = Some t →
  (key, v) ∈ data → SharedMap.separateBlob v = true →
  ∃ i text parsed,
    SharedMap.ser_value v = Some text ∧ JSON_parse text = Some parsed
    ∧ (SharedMap.blobName i,
       SharedMap.DataJson
         {[ key := SharedMap.mkSerializable (SharedMap.ser_type v) (Some parsed) ]})
      ∈ t.
Proof.
  unfold SharedMap.snapshot.
  destruct (SharedMap.snapshotLoop JSON_parse _ data) as [l|] eqn:Hloop;
    [|done].
  cbn [mbind option_bind]. intros [= <-] Hin Hsep.
  destruct (snapshotLoop_separate _ _ _ _ _ Hloop Hin Hsep)
    as (i & text & parsed & Hv & Hp & Hel).
  exists i, text, parsed. split; [done|]. split; [done|].
  unfold SharedMap.addBlobToTree. apply elem_of_app. by left.
Qed.

Lemma size_is_entryCost (current : nat) v :
  match SharedMap.ser_value v with
  | Some text =>
      if String.eqb text ""
      then (current + (String.length (SharedMap.ser_type v) + 21))%nat
      else (current + (String.length (SharedMap.ser_type v) + 21)
            + String.length text)%nat
  | None => (current + (String.length (SharedMap.ser_type v) + 21))%nat
  end = (current + SharedMap.entryCost v)%nat.
Proof.
  unfold SharedMap.entryCost. destruct (SharedMap.ser_value v) as [text|].
  - destruct (String.eqb_spec text ""); [subst; cbn|]; lia.
  - lia.
Qed.

Lemma assigned_in_turn (entries : list (string * Serializable))
      (content : DataObject) x :
  list_to_map (reverse (filter (fun e => fst e ≠ "__proto__"%string)
                               (x :: entries))) ∪ content
  = list_to_map (reverse (filter (fun e => fst e ≠ "__proto__"%string) entries))
    ∪ SharedMap.assign (fst x) (snd x) content.
Proof.
  unfold SharedMap.assign. rewrite filter_cons.
  destruct (String.eqb_spec (fst x) "__proto__") as [Heq|Hne].
  - by rewrite decide_False by (by intros H; apply H).
  - rewrite decide_True by done.
    rewrite reverse_cons, list_to_map_app. cbn [list_to_map foldr].
    rewrite <- (assoc_L (∪)). f_equal.
    rewrite insert_empty, <- insert_union_singleton_l. reflexivity.
Qed.

Lemma snapshotLoop_no_flush data l expected :
  Forall (fun entry => SharedMap.separateBlob (snd entry) = false) data →
  (SharedMap.currentSize l + sum_list (fmap (fun entry => SharedMap.entryCost (snd entry)) data)
   ≤ SharedMap.MaxSnapshotBlobSize)%nat →
  mapM (SharedMap.parsedEntry JSON_parse) data = Some expected →
  ∃ size,
    SharedMap.snapshotLoop JSON_parse l data
    = Some (SharedMap.mkLocals size (SharedMap.counter l)
              (list_to_map
                 (reverse (filter (fun e => fst e ≠ "__proto__"%string) expected))
               ∪ SharedMap.headerBlob l)
              (SharedMap.blobs l) (SharedMap.tree l)).
Proof.
  revert l expected.
  induction data as [|[key v] rest IH]; intros l expected Hsmall Hsum Hparse.
  - cbn in Hparse. injection Hparse as <-. exists (SharedMap.currentSize l).
    cbn. rewrite (left_id_L ∅ (∪)). by destruct l.
  - cbn in Hparse.
    destruct (SharedMap.parsedEntry JSON_parse (key, v)) as [p|] eqn:Hp;
      [|done].
    cbn in Hparse.
    destruct (mapM (SharedMap.parsedEntry JSON_parse) rest) as [ps|] eqn:Hps;
      [|done].
    cbn in Hparse. injection Hparse as <-.
    apply Forall_cons in Hsmall as [Hv Hsmall]. cbn [snd] in Hv.
    rewrite fmap_cons in Hsum. cbn [snd] in Hsum.
    change (sum_list (?a :: ?r)) with (a + sum_list r)%nat in Hsum.
    change (SharedMap.snapshotLoop JSON_parse l ((key, v) :: rest))
      with (SharedMap.snapshotStep JSON_parse l (key, v)
            ≫= fun l1 => SharedMap.snapshotLoop JSON_parse l1 rest).
    assert (Hstep : SharedMap.snapshotStep JSON_parse l (key, v)
                    = Some (SharedMap.mkLocals
                              (SharedMap.currentSize l + SharedMap.entryCost v)
                              (SharedMap.counter l)
                              (SharedMap.assign (fst p) (snd p)
                                 (SharedMap.headerBlob l))
                              (SharedMap.blobs l) (SharedMap.tree l))).
    { unfold SharedMap.snapshotStep. rewrite Hv. cbv zeta.
      rewrite (size_is_entryCost (SharedMap.currentSize l) v).
      rewrite bool_decide_eq_false_2 by lia.
      cbn [SharedMap.currentSize SharedMap.counter SharedMap.headerBlob
           SharedMap.blobs SharedMap.tree].
      unfold SharedMap.parsedEntry in Hp. cbn [fst snd] in Hp.
      destruct (SharedMap.ser_value v) as [text|].
      - destruct (JSON_parse text) as [json|]; [|done].
        cbn in Hp. injection Hp as <-. reflexivity.
      - injection Hp as <-. reflexivity. }
    rewrite Hstep. cbn [mbind option_bind].
    destruct (IH (SharedMap.mkLocals
                    (SharedMap.currentSize l + SharedMap.entryCost v)
                    (SharedMap.counter l)
                    (SharedMap.assign (fst p) (snd p) (SharedMap.headerBlob l))
                    (SharedMap.blobs l) (SharedMap.tree l)) ps Hsmall)
      as [size Hrest]; [|done|].
    { cbn [SharedMap.currentSize]. lia. }
    exists size. rewrite Hrest.
    cbn [SharedMap.counter SharedMap.headerBlob SharedMap.blobs SharedMap.tree].
    by rewrite assigned_in_turn.
Qed.

(** A kernel that fits one blob gives a snapshot of one blob.  When no
    payload reaches 8192 characters and the estimates of all entries
    together (value-type length + 21 + payload length each) stay within
    16384, the tree is the header alone and its [blobs] array is empty.  Its
    content holds every entry of a key other than ["__proto__"] (of a key
    that occurs twice, the later one); an entry of the key ["__proto__"] is
    not in it, the assignment having made it the prototype of the header
    blob. *)
Theorem small_kernel_fits_header data expected :
  Forall (fun entry => SharedMap.separateBlob (snd entry) = false) data →
  (sum_list (fmap (fun entry => SharedMap.entryCost (snd entry)) data)
   ≤ SharedMap.MaxSnapshotBlobSize)%nat →
  mapM (SharedMap.parsedEntry JSON_parse) data = Some expected →
  SharedMap.snapshot JSON_parse data
  = Some [(SharedMap.snapshotFileName,
           SharedMap.HeaderJson []
             (list_to_map
                (reverse (filter (fun e => fst e ≠ "__proto__"%string)
                                 expected))))].
Proof.
  intros Hsmall Hsum Hparse. unfold SharedMap.snapshot.
  destruct (snapshotLoop_no_flush data (SharedMap.mkLocals 0 0 ∅ [] [])
              expected Hsmall Hsum Hparse) as [size ->].
  cbn [mbind option_bind SharedMap.tree SharedMap.blobs SharedMap.headerBlob].
  by rewrite (right_id_L ∅ (∪)).
Qed.

End SnapshotLayoutFacts.

(* ===================================================================== *)
(** * Resubmission on reconnect                                           *)
(* ===================================================================== *)

Section ReconnectFacts.

Context {Val : Type} (cwd : string).
Implicit Types (r d : SubDirectory Val) (sd : SharedDir.SharedDirectory Val)
         (s : NodeState Val) (op : IDirectoryOperation Val).

Lemma sameShape_refl r : sameShape r r.
Proof.
  intros subdirs. destruct (SharedDir.walk r subdirs); by constructor.
Qed.

Lemma sameShape_trans r1 r2 r3 :
  sameShape r1 r2 → sameShape r2 r3 → sameShape r1 r3.
Proof.
  intros H12 H23 subdirs. specialize (H12 subdirs). specialize (H23 subdirs).
  destruct H12 as [d1 d2 [Hs Hp]|]; inversion H23 as [? d3 [Hs' Hp']|];
    subst; constructor.
  split; congruence.
Qed.

Lemma replaceAt_sameShape subdirs new old r :
  SharedDir.walk r subdirs = Some old →
  _storage new = _storage old → absolutePath new = absolutePath old →
  _subdirectories new = _subdirectories old →
  sameShape r (SharedDir.replaceAt subdirs new r).
Proof.
  intros Hw Hs Hp Hc. revert r Hw.
  induction subdirs as [|x rest IH]; intros r Hw.
  - injection Hw as ->. intros [|y ys].
    + by constructor.
    + cbn. unfold SubDir.getSubDirectory. rewrite Hc.
      destruct (_subdirectories old !! y) as [child|]; [|constructor].
      apply sameShape_refl.
  - cbn in Hw. unfold SubDir.getSubDirectory in Hw. cbn [SharedDir.replaceAt].
    destruct (_subdirectories r !! x) as [child|] eqn:E; [|done].
    intros [|y ys].
    + by constructor.
    + cbn. unfold SubDir.getSubDirectory. cbn.
      destruct (decide (x = y)) as [->|Hne].
      * rewrite lookup_insert_eq, E. by apply IH.
      * rewrite lookup_insert_ne by done.
        destruct (_subdirectories r !! y) as [other|]; [|constructor].
        apply sameShape_refl.
Qed.

Lemma sameShape_resolves r r' op :
  sameShape r r' →
  is_Some (Reconnect.addressee cwd r' op) ↔ is_Some (Reconnect.addressee cwd r op).
Proof.
  intros Hsame.
  assert (Hpath : ∀ path,
             is_Some (SharedDir.getWorkingDirectory cwd r' path)
             ↔ is_Some (SharedDir.getWorkingDirectory cwd r path)).
  { intros path. rewrite !getWorkingDirectory_walk.
    destruct (Hsame (SharedDir.subdirsOf cwd path)); split; intros [z Hz];
      try done; by eexists. }
  destruct op; cbn; try apply Hpath; split; intros _; by eexists.
Qed.

Lemma ifSubdir_submit path op method sd :
  (∀ s, ∃ s' c,
      method s = (Returned tt, s')
      ∧ _storage (this s') = _storage (this s)
      ∧ _subdirectories (this s') = _subdirectories (this s)
      ∧ absolutePath (this s') = absolutePath (this s)
      ∧ emitted (directory s') = emitted (directory s)
      ∧ outbox (directory s') = outbox (directory s) ++ [(op, c)]) →
  let sd' := snd (SharedDir.ifSubdir cwd path method sd) in
  fst (SharedDir.ifSubdir cwd path method sd) = Returned tt
  ∧ sameShape (SharedDir.root sd) (SharedDir.root sd')
  ∧ emitted (SharedDir.base sd') = emitted (SharedDir.base sd)
  ∧ fmap fst (outbox (SharedDir.base sd'))
    = fmap fst (outbox (SharedDir.base sd))
      ++ match SharedDir.getWorkingDirectory cwd (SharedDir.root sd) path with
         | Some _ => [op]
         | None => []
         end.
Proof.
  intros Hmethod. cbv zeta. unfold SharedDir.ifSubdir.
  destruct (SharedDir.getWorkingDirectory cwd (SharedDir.root sd) path)
    as [subdir|] eqn:Hgwd.
  - destruct (Hmethod (mkNodeState subdir (SharedDir.base sd)))
      as (s' & c & -> & Hs & Hc & Hp & He & Ho).
    cbn [fst snd SharedDir.root SharedDir.base this directory] in *.
    split; [done|]. split.
    + rewrite getWorkingDirectory_walk in Hgwd.
      by eapply replaceAt_sameShape.
    + split; [done|]. by rewrite Ho, fmap_app.
  - cbn [fst snd]. split; [done|]. split; [apply sameShape_refl|].
    split; [done|]. by rewrite app_nil_r.
Qed.

Lemma submit_resubmits op sd :
  (∀ ty, op ≠ OpOther ty) →
  let sd' := snd (Reconnect.submit cwd op sd) in
  fst (Reconnect.submit cwd op sd) = Returned tt
  ∧ sameShape (SharedDir.root sd) (SharedDir.root sd')
  ∧ emitted (SharedDir.base sd') = emitted (SharedDir.base sd)
  ∧ fmap fst (outbox (SharedDir.base sd'))
    = fmap fst (outbox (SharedDir.base sd))
      ++ match Reconnect.addressee cwd (SharedDir.root sd) op with
         | Some _ => [op]
         | None => []
         end.
Proof.
  intros Hreg. destruct op as [key path opName params|key path v|key path|path
                               |path subdirName|path subdirName|ty];
    cbn [Reconnect.submit Reconnect.addressee].
  - cbv zeta. unfold submitLocalMessage.
    destruct (attached (SharedDir.base sd)); cbn;
      (split; [done|]); (split; [apply sameShape_refl|]); (split; [done|]);
      by rewrite fmap_app.
  - apply ifSubdir_submit. intros s. apply submitKeyMessage_frame.
  - apply ifSubdir_submit. intros s. apply submitKeyMessage_frame.
  - apply ifSubdir_submit. intros s. apply submitClearMessage_frame.
  - apply ifSubdir_submit. intros s. apply submitSubDirectoryMessage_frame.
  - apply ifSubdir_submit. intros s. apply submitSubDirectoryMessage_frame.
  - by destruct (Hreg ty).
Qed.

(** On reconnect the pending ops are sent again and nothing else happens.
    For pending ops of registered types, [onConnect] returns; the outbox grows
    by exactly the pending ops whose node is still in the tree, each once and
    in the order of [pending] (an op addressed to a node that is gone is
    dropped without a word); no event is emitted; and every node of the tree is
    still there with the storage and the path it had. *)
Theorem onConnect_resubmits_pending_in_order pending sd :
  Forall (fun op => ∀ ty, op ≠ OpOther ty) pending →
  let sd' := snd (Reconnect.onConnect cwd pending sd) in
  fst (Reconnect.onConnect cwd pending sd) = Returned tt
  ∧ fmap fst (outbox (SharedDir.base sd'))
    = fmap fst (outbox (SharedDir.base sd))
      ++ filter (fun op => is_Some (Reconnect.addressee cwd (SharedDir.root sd) op))
                pending
  ∧ emitted (SharedDir.base sd') = emitted (SharedDir.base sd)
  ∧ sameShape (SharedDir.root sd) (SharedDir.root sd').
Proof.
  cbv zeta. revert sd.
  induction pending as [|op rest IH]; intros sd Hreg.
  - cbn. split; [done|]. split; [by rewrite app_nil_r|].
    split; [done|apply sameShape_refl].
  - apply Forall_cons in Hreg as [Hop Hrest].
    destruct (submit_resubmits op sd Hop) as (Hret & Hsame & Hem & Hout).
    cbv zeta in Hret, Hsame, Hem, Hout.
    cbn [Reconnect.onConnect]. unfold bind at 1 2 3 4.
    destruct (Reconnect.submit cwd op sd) as [out sd1].
    cbn [fst snd] in *. subst out.
    destruct (IH sd1 Hrest) as (Hret' & Hout' & Hem' & Hsame').
    split; [done|]. split; [|split; [congruence|by eapply sameShape_trans]].
    rewrite Hout', Hout, <- (assoc_L (++)). f_equal.
    rewrite filter_cons.
    assert (Hfilter :
              filter (fun op0 => is_Some (Reconnect.addressee cwd
                                            (SharedDir.root sd1) op0)) rest
              = filter (fun op0 => is_Some (Reconnect.addressee cwd
                                              (SharedDir.root sd) op0)) rest).
    { apply list_filter_iff. intros op0. by apply sameShape_resolves. }
    rewrite Hfilter.
    destruct (Reconnect.addressee cwd (SharedDir.root sd) op) as [d|].
    + rewrite decide_True by (by eexists). reflexivity.
    + rewrite decide_False by (by intros [z Hz]). reflexivity.
Qed.

(** A pending op of a type that has no handler stops the resubmission:
    [onConnect] throws at it, after the ops before it were sent again, and
    the ops after it are not sent. *)
Theorem onConnect_stops_at_unregistered_type before ty after sd :
  Forall (fun op => ∀ ty', op ≠ OpOther ty') before →
  Reconnect.onConnect cwd (before ++ OpOther ty :: after) sd
  = (Thrown TypeError, snd (Reconnect.onConnect cwd before sd)).
Proof.
  revert sd. induction before as [|op rest IH]; intros sd Hreg.
  - reflexivity.
  - apply Forall_cons in Hreg as [Hop Hrest].
    destruct (submit_resubmits op sd Hop) as (Hret & _).
    cbn [app Reconnect.onConnect]. unfold bind at 1 2.
    destruct (Reconnect.submit cwd op sd) as [out sd1].
    cbn [fst] in Hret. subst out. by apply IH.
Qed.

End ReconnectFacts.

(* ===================================================================== *)
(** * Serialization of the directory                                      *)
(* ===================================================================== *)

Section SerializeFacts.

Context {Val : Type} (maker : LocalValueMaker Val) (cwd : string).
Implicit Types (r d : SubDirectory Val) (sd : SharedDir.SharedDirectory Val).

Lemma throwsAt_eq d :
  Serialization.throwsAt maker d
  = match Serialization.getSerializableStorage maker d with
    | Thrown _ => true
    | Returned _ => false
    end
    || map_fold (fun _ subdir below => Serialization.throwsAt maker subdir || below)
                false (_subdirectories d).
Proof. by destruct d. Qed.

Lemma dataObjectOf_eq d :
  Serialization.dataObjectOf maker d
  = Serialization.mkDataObject
      (match Serialization.getSerializableStorage maker d with
       | Returned subDirStorage => subDirStorage
       | Thrown _ => None
       end)
      (if bool_decide (size (_subdirectories d) = 0%nat) then None
       else Some (Serialization.assigned
                    (Serialization.dataObjectOf maker <$> _subdirectories d))).
Proof. by destruct d. Qed.

Lemma any_below {A} (g : A → bool) (m : gmap string A) :
  map_fold (fun _ x below => g x || below) false m = true
  ↔ ∃ k x, m !! k = Some x ∧ g x = true.
Proof.
  apply (map_fold_weak_ind
           (fun b m => b = true ↔ ∃ k x, m !! k = Some x ∧ g x = true)).
  - split; [done|]. intros (k & x & Hk & _). by rewrite lookup_empty in Hk.
  - intros i x m' b Hnone IH. rewrite orb_true_iff, IH. split.
    + intros [Hg|(k & y & Hk & Hg)].
      * exists i, x. by rewrite lookup_insert_eq.
      * exists k, y. split; [|done]. rewrite lookup_insert_ne; [done|].
        intros ->. by rewrite Hnone in Hk.
    + intros (k & y & Hk & Hg). destruct (decide (i = k)) as [->|Hne].
      * rewrite lookup_insert_eq in Hk. injection Hk as ->. by left.
      * rewrite lookup_insert_ne in Hk by done. right. by exists k, y.
Qed.

Lemma throwsAt_below r subdirs d :
  SharedDir.walk r subdirs = Some d →
  Serialization.throwsAt maker d = true → Serialization.throwsAt maker r = true.
Proof.
  revert r. induction subdirs as [|x rest IH]; intros r Hw Hd.
  - by injection Hw as ->.
  - cbn in Hw. unfold SubDir.getSubDirectory in Hw.
    destruct (_subdirectories r !! x) as [child|] eqn:E; [|done].
    rewrite throwsAt_eq. apply orb_true_iff. right.
    apply any_below. exists x, child. split; [done|]. by eapply IH.
Qed.

Lemma getSerializableStorage_undefined d key :
  _storage d !! key = Some None →
  Serialization.getSerializableStorage maker d = Thrown TypeError.
Proof.
  intros Hk. unfold Serialization.getSerializableStorage.
  rewrite bool_decide_eq_false_2.
  - rewrite bool_decide_eq_false_2; [done|].
    intros Hall. by destruct (Hall key None Hk).
  - intros Hsize. apply map_size_empty_iff in Hsize.
    by rewrite Hsize, lookup_empty in Hk.
Qed.

(** One key bound to [undefined], on any node of the tree, is enough for
    [serialize] (and so for [snapshot]) to throw. *)
Theorem serialize_throws_at_undefined_binding sd subdirs d key :
  SharedDir.walk (SharedDir.root sd) subdirs = Some d →
  _storage d !! key = Some None →
  Serialization.serialize maker sd = Thrown TypeError.
Proof.
  intros Hw Hk. unfold Serialization.serialize.
  rewrite (throwsAt_below _ _ _ Hw); [done|].
  rewrite throwsAt_eq, (getSerializableStorage_undefined _ _ Hk). done.
Qed.

(** A remote clear that reaches a node with a pending delete of a key the
    node does not hold leaves a directory that cannot be serialized: the key
    is bound to [undefined] after the clear, and [serialize] throws. *)
Theorem remote_clear_on_pending_delete_blocks_serialize segs d key c cseq sd :
  Forall Posix.clean segs →
  SharedDir.walk (SharedDir.root sd) segs = Some d →
  pendingKeys d !! key = Some c →
  _storage d !! key = None →
  let path := Posix.sep +:+ Posix.joinSep segs in
  let message := mkMessage cseq MessageType_Operation (OpClear path) in
  let sd' := snd (SharedDir.processCore maker cwd message false None sd) in
  fst (SharedDir.processCore maker cwd message false None sd) = Returned tt
  ∧ Serialization.serialize maker sd' = Thrown TypeError.
Proof.
  intros Hall Hw Hp Hk. cbv zeta.
  unfold SharedDir.processCore. cbn [m_type contents op_type].
  rewrite String.eqb_refl.
  assert (SharedDir.messageHandlers_has "clear" = true) as ->
    by (vm_compute; reflexivity).
  rewrite (ifSubdir_resolved cwd segs d) by done.
  pose proof (processClearMessage_remote_lookup
                (mkMessage cseq MessageType_Operation
                   (OpClear (Posix.sep +:+ Posix.joinSep segs)))
                (mkNodeState d (SharedDir.base sd)) key) as Hlookup.
  cbn [this] in Hlookup. rewrite Hp, Hk in Hlookup. cbn [default] in Hlookup.
  rewrite processClearMessage_remote in *.
  cbn [fst snd this directory] in *. split; [done|].
  unfold Serialization.serialize. cbn [SharedDir.root].
  rewrite (throwsAt_below _ segs _ (walk_replaceAt_same _ _ _ _ Hw)); [done|].
  rewrite throwsAt_eq, (getSerializableStorage_undefined _ _ Hlookup). done.
Qed.

Lemma assigned_lookup {A} (entries : gmap string A) key :
  Serialization.assigned entries !! key
  = if String.eqb key "__proto__" then None else entries !! key.
Proof.
  unfold Serialization.assigned.
  destruct (String.eqb_spec key "__proto__") as [->|Hne].
  - apply lookup_delete_eq.
  - by apply lookup_delete_ne.
Qed.

Lemma getSerializableStorage_lookup d subDirStorage key :
  Serialization.getSerializableStorage maker d = Returned subDirStorage →
  (subDirStorage ≫= fun entries => entries !! key)
  = if String.eqb key "__proto__" then None
    else (_storage d !! key) ≫= fmap (makeSerializable maker).
Proof.
  unfold Serialization.getSerializableStorage.
  case_bool_decide as Hsize.
  - intros [= <-]. apply map_size_empty_iff in Hsize.
    rewrite Hsize, lookup_empty. by destruct (String.eqb _ _).
  - case_bool_decide; [|done]. intros [= <-]. cbn.
    rewrite assigned_lookup. destruct (String.eqb _ _); [done|].
    apply lookup_omap.
Qed.

Lemma dataObjectOf_child d subdir :
  (Serialization.subdirectories (Serialization.dataObjectOf maker d)
   ≫= fun children => children !! subdir)
  = if String.eqb subdir "__proto__" then None
    else Serialization.dataObjectOf maker <$> _subdirectories d !! subdir.
Proof.
  rewrite dataObjectOf_eq. cbn [Serialization.subdirectories].
  case_bool_decide as Hsize.
  - apply map_size_empty_iff in Hsize. rewrite Hsize, lookup_empty.
    by destruct (String.eqb _ _).
  - cbn. rewrite assigned_lookup. destruct (String.eqb _ _); [done|].
    by rewrite lookup_fmap.
Qed.

Lemma dataObjectOf_mirrors r subdirs :
  Serialization.throwsAt maker r = false →
  "__proto__"%string ∉ subdirs →
  option_Forall2
    (fun d data =>
       ∀ key, (Serialization.storage data ≫= fun entries => entries !! key)
              = if String.eqb key "__proto__" then None
                else (_storage d !! key) ≫= fmap (makeSerializable maker))
    (SharedDir.walk r subdirs)
    (Serialization.descend (Serialization.dataObjectOf maker r) subdirs).
Proof.
  revert r. induction subdirs as [|x rest IH]; intros r Hr Hproto.
  - cbn. constructor. intros key.
    rewrite throwsAt_eq in Hr. apply orb_false_elim in Hr as [Hr _].
    rewrite dataObjectOf_eq. cbn [Serialization.storage].
    destruct (Serialization.getSerializableStorage maker r) as [st|] eqn:E;
      [|done].
    by apply getSerializableStorage_lookup.
  - cbn [SharedDir.walk Serialization.descend].
    rewrite dataObjectOf_child. unfold SubDir.getSubDirectory.
    assert (Hx : String.eqb x "__proto__" = false).
    { apply String.eqb_neq. intros ->. apply Hproto. by left. }
    rewrite Hx.
    destruct (_subdirectories r !! x) as [child|] eqn:E; cbn; [|constructor].
    apply IH.
    + rewrite throwsAt_eq in Hr. apply orb_false_elim in Hr as [_ Hr].
      destruct (Serialization.throwsAt maker child) eqn:Hc; [|done].
      assert (Hany : map_fold
                       (fun _ subdir below =>
                          Serialization.throwsAt maker subdir || below)
                       false (_subdirectories r) = true).
      { apply any_below. by exists x, child. }
      by rewrite Hany in Hr.
    + intros Hin. apply Hproto. by right.
Qed.

Lemma dataObjectOf_loses_proto r subdirs :
  "__proto__"%string ∈ subdirs →
  Serialization.descend (Serialization.dataObjectOf maker r) subdirs = None.
Proof.
  revert r. induction subdirs as [|x rest IH]; intros r Hin;
    [by inversion Hin|].
  cbn [Serialization.descend]. rewrite dataObjectOf_child.
  destruct (String.eqb_spec x "__proto__") as [->|Hne]; [done|].
  apply elem_of_cons in Hin as [Heq|Hin]; [done|].
  destruct (_subdirectories r !! x) as [child|]; cbn; [|done].
  by apply IH.
Qed.

(** What [serialize] returns mirrors the tree, but for the name
    ["__proto__"].  Along a path with no component ["__proto__"], following
    [subdirectories] leads to a data object exactly when the path leads to a
    node; the [storage] of that data object has the keys of the node other
    than ["__proto__"], each with the serializable form of its value.  A key
    ["__proto__"] is in no [storage], and a path with a component
    ["__proto__"] leads to no data object: the assignments that fill the
    plain objects set their prototype instead.  The root's [storage] is
    absent exactly when the root holds no key, and its [subdirectories]
    exactly when it has no child. *)
Theorem serialize_mirrors_tree sd data subdirs :
  Serialization.serialize maker sd = Returned data →
  ("__proto__"%string ∉ subdirs →
   option_Forall2
     (fun d object =>
        ∀ key, (Serialization.storage object ≫= fun entries => entries !! key)
               = if String.eqb key "__proto__" then None
                 else (_storage d !! key) ≫= fmap (makeSerializable maker))
     (SharedDir.walk (SharedDir.root sd) subdirs)
     (Serialization.descend data subdirs))
  ∧ ("__proto__"%string ∈ subdirs → Serialization.descend data subdirs = None)
  ∧ (Serialization.storage data = None ↔ _storage (SharedDir.root sd) = ∅)
  ∧ (Serialization.subdirectories data = None
     ↔ _subdirectories (SharedDir.root sd) = ∅).
Proof.
  unfold Serialization.serialize.
  destruct (Serialization.throwsAt maker (SharedDir.root sd)) eqn:Hr; [done|].
  intros [= <-]. split; [by apply dataObjectOf_mirrors|].
  split; [apply dataObjectOf_loses_proto|].
  rewrite dataObjectOf_eq.
  cbn [Serialization.storage Serialization.subdirectories].
  rewrite throwsAt_eq in Hr. apply orb_false_elim in Hr as [Hr _].
  unfold Serialization.getSerializableStorage in *.
  split.
  - case_bool_decide as Hsize.
    + apply map_size_empty_iff in Hsize. split; intros; [exact Hsize|reflexivity].
    + case_bool_decide; [|done]. split; [done|].
      intros Hempty. by rewrite Hempty, map_size_empty in Hsize.
  - clear Hr. case_bool_decide as Hsize.
    + apply map_size_empty_iff in Hsize. split; intros; [exact Hsize|reflexivity].
    + split; [done|]. intros Hempty. by rewrite Hempty, map_size_empty in Hsize.
Qed.

End SerializeFacts.

(* ===================================================================== *)
(** * The further facts at concrete states                                *)
(* ===================================================================== *)

Section MoreInstances.
Import Examples SnapshotExample MoreExamples.

Lemma clean_a : Posix.clean "a".
Proof. repeat split; discriminate. Defined.

Lemma clean_b : Posix.clean "b".
Proof. repeat split; discriminate. Defined.

Lemma clean_c : Posix.clean "c".
Proof. repeat split; discriminate. Defined.

Lemma set_then_get_witness :
  fst (SubDir.set registry "n" 1 (Some "counter"%string) fresh) = Returned tt
  ∧ _storage (this (run (SubDir.set registry "n" 1 (Some "counter"%string)) fresh))
    = <["n"%string := Some (mkLocalValue 1 "counter")]> (_storage (this fresh))
  ∧ SubDir.get "n" (run (SubDir.set registry "n" 1 (Some "counter"%string)) fresh)
    = (Returned (Some 1),
       run (SubDir.set registry "n" 1 (Some "counter"%string)) fresh).
Proof.
  assert (H : fst (SubDir.set registry "n" 1 (Some "counter"%string) fresh)
              = Returned tt) by (vm_compute; reflexivity).
  destruct (set_then_get registry "n" 1 (Some "counter"%string) fresh H)
    as (localValue & serializable & _ & _ & Hst & Hget & _ & _ & _ & _ & Hvt & _).
  destruct (Hvt "counter"%string eq_refl) as [Hmade _]; [discriminate..|].
  injection Hmade as <-.
  split; [exact H|]. split; [exact Hst|exact Hget].
Defined.

Lemma delete_removes_witness :
  let s := run (SubDir.set registry "a" 1 None) fresh in
  _storage (this s) !! "a"%string ≠ Some None
  ∧ fst (SubDir.delete_ "a" s)
    = Returned (bool_decide (is_Some (_storage (this s) !! "a"%string)))
  ∧ _storage (this (snd (SubDir.delete_ "a" s)))
    = delete "a"%string (_storage (this s)).
Proof.
  cbv zeta.
  assert (H : _storage (this (run (SubDir.set registry "a" 1 None) fresh))
              !! "a"%string ≠ Some None)
    by (vm_compute; discriminate).
  destruct (delete_removes "a" _ H) as (G1 & G2 & _).
  split; [exact H|]. split; [exact G1|exact G2].
Defined.

Lemma detached_call_leaves_no_pending_witness :
  attached (directory detached) = false
  ∧ pendingKeys (this (snd (runCall registry (CallSet "a" 1 None) detached)))
    = pendingKeys (this detached).
Proof.
  assert (H : attached (directory detached) = false) by reflexivity.
  destruct (detached_call_leaves_no_pending registry (CallSet "a" 1 None)
              detached H) as (G & _).
  split; [exact H|exact G].
Defined.

Lemma remote_key_op_applies_witness :
  let arrived := message 7 (OpSet "a" "/" (plain 5)) in
  pendingClearClientSequenceNumber (this fresh) = -1
  ∧ pendingKeys (this fresh) !! "a"%string = None
  ∧ _storage (this fresh) !! "a"%string ≠ Some None
  ∧ _storage (this (snd (SubDir.processSetMessage "a"
                           (Some (mkLocalValue 5 "Plain")) false arrived fresh)))
    = <["a"%string := Some (mkLocalValue 5 "Plain")]> (_storage (this fresh)).
Proof.
  cbv zeta.
  assert (H1 : pendingClearClientSequenceNumber (this fresh) = -1)
    by reflexivity.
  assert (H2 : pendingKeys (this fresh) !! "a"%string = None) by reflexivity.
  assert (H3 : _storage (this fresh) !! "a"%string ≠ Some None)
    by (vm_compute; discriminate).
  destruct (remote_key_op_applies "a" (mkLocalValue 5 "Plain")
              (message 7 (OpSet "a" "/" (plain 5))) fresh H1 H2 H3)
    as (_ & G & _).
  split; [exact H1|]. split; [exact H2|]. split; [exact H3|exact G].
Defined.

Lemma pending_subdirectory_shadows_inbound_op_witness :
  let s := run (SubDir.createSubDirectory "a") fresh in
  let echo := message 1 (OpCreateSubDirectory "/" "a") in
  pendingSubDirectories (this s) !! "a"%string = Some 1
  ∧ pendingSubDirectories
      (this (snd (SubDir.processCreateSubDirectoryMessage "a" true echo s)))
    = (if true && bool_decide (1 = clientSequenceNumber echo)
       then delete "a"%string (pendingSubDirectories (this s))
       else pendingSubDirectories (this s)).
Proof.
  cbv zeta.
  assert (H : pendingSubDirectories
                (this (run (SubDir.createSubDirectory "a") fresh))
              !! "a"%string = Some 1) by (vm_compute; reflexivity).
  destruct (pending_subdirectory_shadows_inbound_op "a" true
              (message 1 (OpCreateSubDirectory "/" "a")) _ 1 H)
    as (_ & _ & _ & _ & G).
  split; [exact H|exact G].
Defined.

Lemma remote_subdirectory_op_replay_witness :
  let arrived := message 7 (OpCreateSubDirectory "/" "a") in
  let created :=
    snd (SubDir.processCreateSubDirectoryMessage "a" false arrived fresh) in
  pendingSubDirectories (this fresh) !! "a"%string = None
  ∧ SubDir.processCreateSubDirectoryMessage "a" false arrived created
    = (Returned tt, created).
Proof.
  cbv zeta.
  assert (H : pendingSubDirectories (this fresh) !! "a"%string = None)
    by reflexivity.
  destruct (remote_subdirectory_op_replay "a"
              (message 7 (OpCreateSubDirectory "/" "a"))
              (message 7 (OpCreateSubDirectory "/" "a")) fresh H)
    as (_ & _ & G & _).
  split; [exact H|exact G].
Defined.

Lemma remote_set_lands_at_path_witness :
  let arrived := mkMessage 7 MessageType_Operation (OpSet "x" "/a/b" (plain 5)) in
  Forall Posix.clean ["a"; "b"]%string
  ∧ SharedDir.walk (SharedDir.root directoryAB) ["a"; "b"]%string = Some nodeB
  ∧ pendingClearClientSequenceNumber nodeB = -1
  ∧ pendingKeys nodeB !! "x"%string = None
  ∧ _storage nodeB !! "x"%string ≠ Some None
  ∧ SharedDir.getWorkingDirectory "/"
      (SharedDir.root
         (snd (SharedDir.processCore registry "/" arrived false
                 (Some (mkLocalValue 5 "Plain")) directoryAB)))
      "/a/b"
    = Some (with_storage
              (<["x"%string := Some (mkLocalValue 5 "Plain")]> (_storage nodeB))
              nodeB).
Proof.
  cbv zeta.
  assert (H1 : Forall Posix.clean ["a"; "b"]%string)
    by (constructor; [apply clean_a|constructor; [apply clean_b|constructor]]).
  assert (H2 : SharedDir.walk (SharedDir.root directoryAB) ["a"; "b"]%string
               = Some nodeB) by (vm_compute; reflexivity).
  assert (H3 : pendingClearClientSequenceNumber nodeB = -1) by reflexivity.
  assert (H4 : pendingKeys nodeB !! "x"%string = None) by reflexivity.
  assert (H5 : _storage nodeB !! "x"%string ≠ Some None)
    by (vm_compute; discriminate).
  destruct (remote_set_lands_at_path registry "/" ["a"; "b"]%string nodeB "x"
              (plain 5) (mkLocalValue 5 "Plain") 7 directoryAB H1 H2 H3 H4 H5)
    as (_ & G & _).
  split; [exact H1|]. split; [exact H2|]. split; [exact H3|].
  split; [exact H4|]. split; [exact H5|exact G].
Defined.

Lemma created_child_is_found_at_its_path_witness :
  let call := let* _ := SubDir.createSubDirectory (Val := Z) "c" in ret tt in
  Forall Posix.clean ["a"]%string ∧ Posix.clean "c"
  ∧ SharedDir.walk (SharedDir.root directoryAB) ["a"]%string = Some nodeA
  ∧ absolutePath nodeA = Posix.sep +:+ Posix.joinSep ["a"]%string
  ∧ _subdirectories nodeA !! "c"%string = None
  ∧ SharedDir.walk
      (SharedDir.root
         (snd (SharedDir.ifSubdir "/" (absolutePath nodeA) call directoryAB)))
      (["a"%string] ++ ["c"%string])
    = Some (newSubDirectory
              (Posix.sep +:+ Posix.joinSep (["a"%string] ++ ["c"%string]))).
Proof.
  cbv zeta.
  assert (H1 : Forall Posix.clean ["a"]%string)
    by (constructor; [apply clean_a|constructor]).
  assert (H2 : SharedDir.walk (SharedDir.root directoryAB) ["a"]%string
               = Some nodeA) by (vm_compute; reflexivity).
  assert (H3 : absolutePath nodeA = Posix.sep +:+ Posix.joinSep ["a"]%string)
    by reflexivity.
  assert (H4 : _subdirectories nodeA !! "c"%string = None)
    by (vm_compute; reflexivity).
  destruct (created_child_is_found_at_its_path "/" ["a"]%string nodeA "c"
              directoryAB H1 clean_c H2 H3 H4) as (_ & _ & G & _).
  split; [exact H1|]. split; [exact clean_c|]. split; [exact H2|].
  split; [exact H3|]. split; [exact H4|exact G].
Defined.

Lemma dot_named_child_is_unreachable_witness :
  let s' := snd (SubDir.createSubDirectory ".." fresh) in
  ".."%string ∈ [""; "."; ".."]%string
  ∧ absolutePath (this fresh) = Posix.sep
  ∧ _subdirectories (this fresh) !! ".."%string = None
  ∧ _subdirectories (this s') !! ".."%string = Some (newSubDirectory Posix.sep)
  ∧ SharedDir.getWorkingDirectory "/" (this s') ".." = Some (this s').
Proof.
  cbv zeta.
  assert (H1 : ".."%string ∈ [""; "."; ".."]%string) by (repeat constructor).
  assert (H2 : absolutePath (this fresh) = Posix.sep) by reflexivity.
  assert (H3 : _subdirectories (this fresh) !! ".."%string = None)
    by reflexivity.
  destruct (dot_named_child_is_unreachable "/" ".." fresh H1 H2 H3)
    as (_ & G1 & G2 & _).
  split; [exact H1|]. split; [exact H2|]. split; [exact H3|].
  split; [exact G1|exact G2].
Defined.

Lemma snapshot_header_lists_written_blobs_witness :
  ∃ t, SharedMap.snapshot parse kernel = Some t
       ∧ NoDup (fmap fst t)
       ∧ ∃ calls, SharedMap.loadCore reparse (@rev string) t = Some calls.
Proof.
  assert (H : ∃ t, SharedMap.snapshot parse kernel = Some t)
    by (vm_compute; eexists; reflexivity).
  destruct H as [t Ht]. exists t.
  destruct (snapshot_header_lists_written_blobs parse reparse kernel t Ht)
    as (written & content & _ & _ & _ & Hnd & Hload).
  split; [exact Ht|]. split; [exact Hnd|].
  destruct (Hload (@rev string)) as (calls & Hcalls & _).
  { intros names. symmetry. apply Permutation_rev. }
  by exists (SharedMap.reparsed reparse content :: calls).
Defined.

Lemma large_value_gets_blob_of_its_own_witness :
  ∃ t, SharedMap.snapshot parse large = Some t
       ∧ ("big"%string, largeEntry) ∈ large
       ∧ SharedMap.separateBlob largeEntry = true
       ∧ ∃ i parsed,
           (SharedMap.blobName i,
            SharedMap.DataJson
              {[ "big"%string := SharedMap.mkSerializable "Plain" (Some parsed) ]})
           ∈ t.
Proof.
  assert (H : ∃ t, SharedMap.snapshot parse large = Some t)
    by (vm_compute; eexists; reflexivity).
  destruct H as [t Ht]. exists t.
  assert (H2 : ("big"%string, largeEntry) ∈ large) by constructor.
  assert (H3 : SharedMap.separateBlob largeEntry = true)
    by (vm_compute; reflexivity).
  destruct (large_value_gets_blob_of_its_own parse large t "big" largeEntry
              Ht H2 H3) as (i & text & parsed & _ & _ & G).
  split; [exact Ht|]. split; [exact H2|]. split; [exact H3|].
  by exists i, parsed.
Defined.

Lemma small_kernel_fits_header_witness :
  let expected :=
    [("__proto__"%string, SharedMap.mkSerializable "Plain" (Some "1"%string));
     ("a"%string, SharedMap.mkSerializable "Plain" (Some "2"%string))] in
  Forall (fun entry => SharedMap.separateBlob (snd entry) = false) withProto
  ∧ (sum_list (fmap (fun entry => SharedMap.entryCost (snd entry)) withProto)
     ≤ SharedMap.MaxSnapshotBlobSize)%nat
  ∧ mapM (SharedMap.parsedEntry parse) withProto = Some expected
  ∧ SharedMap.snapshot parse withProto
    = Some [(SharedMap.snapshotFileName,
             SharedMap.HeaderJson []
               (list_to_map
                  (reverse (filter (fun e => fst e ≠ "__proto__"%string)
                                   expected))))].
Proof.
  cbv zeta.
  assert (H1 : Forall (fun entry => SharedMap.separateBlob (snd entry) = false)
                      withProto) by (repeat constructor).
  assert (H2 : (sum_list (fmap (fun entry => SharedMap.entryCost (snd entry))
                               withProto)
                ≤ SharedMap.MaxSnapshotBlobSize)%nat)
    by (apply Nat.leb_le; vm_compute; reflexivity).
  assert (H3 : mapM (SharedMap.parsedEntry parse) withProto
               = Some [("__proto__"%string,
                        SharedMap.mkSerializable "Plain" (Some "1"%string));
                       ("a"%string,
                        SharedMap.mkSerializable "Plain" (Some "2"%string))])
    by reflexivity.
  split; [exact H1|]. split; [exact H2|]. split; [exact H3|].
  exact (small_kernel_fits_header parse withProto _ H1 H2 H3).
Defined.

Lemma onConnect_resubmits_pending_in_order_witness :
  Forall (fun op : IDirectoryOperation Z => ∀ ty, op ≠ OpOther ty) pendingOps
  ∧ fst (Reconnect.onConnect "/" pendingOps directoryAB) = Returned tt
  ∧ fmap fst (outbox (SharedDir.base
                        (snd (Reconnect.onConnect "/" pendingOps directoryAB))))
    = [OpSet "x" "/a" (plain 1); OpClear "/a/b"]%string.
Proof.
  assert (H : Forall (fun op : IDirectoryOperation Z => ∀ ty, op ≠ OpOther ty)
                     pendingOps) by (repeat constructor; discriminate).
  destruct (onConnect_resubmits_pending_in_order "/" pendingOps directoryAB H)
    as (G1 & G2 & _).
  split; [exact H|]. split; [exact G1|].
  rewrite G2. vm_compute. reflexivity.
Defined.

Lemma onConnect_stops_at_unregistered_type_witness :
  Forall (fun op : IDirectoryOperation Z => ∀ ty, op ≠ OpOther ty)
         [OpClear "/a"%string]
  ∧ Reconnect.onConnect "/" ([OpClear "/a"%string] ++ OpOther "noop"%string :: [OpClear "/"%string])
      directoryAB
    = (Thrown TypeError,
       snd (Reconnect.onConnect "/" [OpClear "/a"%string] directoryAB)).
Proof.
  assert (H : Forall (fun op : IDirectoryOperation Z => ∀ ty, op ≠ OpOther ty)
                     [OpClear "/a"%string]) by (repeat constructor; discriminate).
  split; [exact H|].
  exact (onConnect_stops_at_unregistered_type "/" _ "noop" [OpClear "/"%string]
           directoryAB H).
Defined.

Lemma serialize_throws_at_undefined_binding_witness :
  SharedDir.walk (SharedDir.root directoryClearedRemotely) []
  = Some (SharedDir.root directoryClearedRemotely)
  ∧ _storage (SharedDir.root directoryClearedRemotely) !! "k"%string = Some None
  ∧ Serialization.serialize registry directoryClearedRemotely = Thrown TypeError.
Proof.
  assert (H1 : SharedDir.walk (SharedDir.root directoryClearedRemotely) []
               = Some (SharedDir.root directoryClearedRemotely)) by reflexivity.
  assert (H2 : _storage (SharedDir.root directoryClearedRemotely) !! "k"%string
               = Some None) by (vm_compute; reflexivity).
  split; [exact H1|]. split; [exact H2|].
  exact (serialize_throws_at_undefined_binding registry
           directoryClearedRemotely [] _ "k" H1 H2).
Defined.

Lemma remote_clear_on_pending_delete_blocks_serialize_witness :
  let arrived := mkMessage 9 MessageType_Operation
                   (OpClear (Posix.sep +:+ Posix.joinSep [])) in
  Forall Posix.clean []
  ∧ SharedDir.walk (SharedDir.root directoryDeletedMissing) []
    = Some (this deletedMissing)
  ∧ pendingKeys (this deletedMissing) !! "k"%string = Some 1
  ∧ _storage (this deletedMissing) !! "k"%string = None
  ∧ Serialization.serialize registry
      (snd (SharedDir.processCore registry "/" arrived false None
              directoryDeletedMissing))
    = Thrown TypeError.
Proof.
  cbv zeta.
  assert (H1 : Forall Posix.clean []) by constructor.
  assert (H2 : SharedDir.walk (SharedDir.root directoryDeletedMissing) []
               = Some (this deletedMissing)) by reflexivity.
  assert (H3 : pendingKeys (this deletedMissing) !! "k"%string = Some 1)
    by (vm_compute; reflexivity).
  assert (H4 : _storage (this deletedMissing) !! "k"%string = None)
    by (vm_compute; reflexivity).
  destruct (remote_clear_on_pending_delete_blocks_serialize registry "/" []
              (this deletedMissing) "k" 1 9 directoryDeletedMissing
              H1 H2 H3 H4) as (_ & G).
  split; [exact H1|]. split; [exact H2|]. split; [exact H3|].
  split; [exact H4|exact G].
Defined.

Lemma serialize_mirrors_tree_witness :
  ∃ data,
    Serialization.serialize registry directoryWithProto = Returned data
    ∧ (Serialization.storage data ≫= fun entries => entries !! "x"%string)
      = Some (plain 1)
    ∧ (Serialization.storage data ≫= fun entries => entries !! "__proto__"%string)
      = None
    ∧ is_Some (Serialization.descend data ["a"; "b"]%string).
Proof.
  assert (H : ∃ data, Serialization.serialize registry directoryWithProto
                      = Returned data)
    by (vm_compute; eexists; reflexivity).
  destruct H as [data Hdata]. exists data.
  destruct (serialize_mirrors_tree registry directoryWithProto data []
              Hdata) as (Hroot & _).
  destruct (serialize_mirrors_tree registry directoryWithProto data
              ["a"; "b"]%string Hdata) as (Hwalk & _).
  split; [exact Hdata|].
  assert (Hnil : "__proto__"%string ∉ @nil string) by (by intros H; inversion H).
  specialize (Hroot Hnil). cbn [SharedDir.walk Serialization.descend] in Hroot.
  inversion Hroot as [d object Hkeys|]; subst.
  split; [rewrite Hkeys; vm_compute; reflexivity|].
  split; [rewrite Hkeys; reflexivity|].
  assert (Hab : "__proto__"%string ∉ ["a"; "b"]%string).
  { apply (bool_decide_unpack _). vm_compute. exact I. }
  specialize (Hwalk Hab).
  assert (Hw : SharedDir.walk (SharedDir.root directoryWithProto)
                 ["a"; "b"]%string = Some nodeB) by (vm_compute; reflexivity).
  rewrite Hw in Hwalk. inversion Hwalk. by eexists.
Defined.

End MoreInstances.
